(** * Quacker: identifier allocation, feed assembly and feed pagination

    A shallow embedding of the parts of [Pond.cc] and [Quacker.cc] that
    allocate user identifiers, assemble the feed, page through it and stamp
    new rows with the current date and time, followed by the properties of
    these functions.

    Part I holds the definitions, Part II the lemmas and theorems. *)

From Stdlib Require Import ZArith List Bool Lia String Ascii.
From Stdlib Require Import Sorting.Sorted Permutation.
Import ListNotations.
Open Scope Z_scope.

(* ################################################################# *)
(** * Part I: the program *)

(* ================================================================= *)
(** ** 32-bit signed integers *)

(** [int32_t] values are integers of [Z] inside [INT32_MIN .. INT32_MAX];
    arithmetic that leaves the range is wrapped (two's complement), which is
    what the usual targets do for the overflow that C++ leaves undefined. *)
Module Int32.

Definition INT32_MAX : Z := 2147483647.
Definition INT32_MIN : Z := -2147483648.

Definition in_range (z : Z) : Prop := INT32_MIN <= z <= INT32_MAX.

Definition wrap (z : Z) : Z := (z + 2147483648) mod 4294967296 - 2147483648.

Definition add (a b : Z) : Z := wrap (a + b).
Definition sub (a b : Z) : Z := wrap (a - b).

End Int32.

Import Int32.

(* ================================================================= *)
(** ** Exceptions *)

(** A call either returns a value or leaves through a C++ exception that no
    caller in the program catches. *)
Inductive exn : Type :=
| out_of_range   (* std::out_of_range, from std::stoi *)
| length_error.  (* std::length_error, from std::string(count, ch) *)

Inductive result (A : Type) : Type :=
| Ok (a : A)
| Throw (e : exn).

Arguments Ok {A} a.
Arguments Throw {A} e.

Definition bind {A B : Type} (r : result A) (k : A -> result B) : result B :=
  match r with
  | Ok a => k a
  | Throw e => Throw e
  end.

Notation "x <- r ;; k" := (bind r (fun x => k))
  (at level 61, r at next level, right associativity).

(* ================================================================= *)
(** ** Characters and decimal numbers *)

Module Text.

(** The line feed written ["\n"] in the source. *)
Definition nl : string := String (ascii_of_nat 10) EmptyString.

(** [\d] of the regular expressions. *)
Definition is_digit (c : ascii) : bool :=
  let n := nat_of_ascii c in ((48 <=? n) && (n <=? 57))%nat.

(** [[1-9]]. *)
Definition is_nonzero_digit (c : ascii) : bool :=
  let n := nat_of_ascii c in ((49 <=? n) && (n <=? 57))%nat.

(** [\s]: space, and the controls from tab to carriage return. *)
Definition is_space (c : ascii) : bool :=
  let n := nat_of_ascii c in ((n =? 32) || ((9 <=? n) && (n <=? 13)))%nat.

Definition digit_value (c : ascii) : Z := Z.of_nat (nat_of_ascii c) - 48.

Fixpoint all_digits (s : string) : bool :=
  match s with
  | EmptyString => true
  | String c rest => is_digit c && all_digits rest
  end.

(** The value of a string of decimal digits, most significant first. *)
Fixpoint decimal (acc : Z) (s : string) : Z :=
  match s with
  | EmptyString => acc
  | String c rest => decimal (10 * acc + digit_value c) rest
  end.

(** [std::stoi], as the program uses it: on a non-empty string of decimal
    digits.  A value that does not fit [int] raises [std::out_of_range]. *)
Definition stoi (digits : string) : result Z :=
  let v := decimal 0 digits in
  if v >? INT32_MAX then Throw out_of_range else Ok v.

Fixpoint skip_spaces (s : string) : string :=
  match s with
  | EmptyString => EmptyString
  | String c rest => if is_space c then skip_spaces rest else s
  end.

Fixpoint take_digits (s : string) : string :=
  match s with
  | EmptyString => EmptyString
  | String c rest => if is_digit c then String c (take_digits rest) else EmptyString
  end.

(** Removes the literal [p] from the front of [s]. *)
Fixpoint strip_prefix (p s : string) : option string :=
  match p with
  | EmptyString => Some s
  | String a p' =>
      match s with
      | EmptyString => None
      | String b s' => if Ascii.eqb a b then strip_prefix p' s' else None
      end
  end.

Fixpoint spaces (n : nat) : string :=
  match n with
  | O => EmptyString
  | S k => String " " (spaces k)
  end.

(** A string read as a C string, as [str.c_str()] is by the C library and a
    [const char*] by [operator<<]: the bytes before the first null byte. *)
Fixpoint c_str (str : string) : string :=
  match str with
  | EmptyString => EmptyString
  | String c rest =>
      if Ascii.eqb c zero then EmptyString else String c (c_str rest)
  end.

End Text.

Import Text.

(* ================================================================= *)
(** ** Pond::get_unique_user_id *)

Module Allocator.

(** The outcome of preparing and stepping through one query:
    [None] when [sqlite3_prepare_v2] fails, otherwise the [usr] column of
    the rows in the order the store returns them (each read with
    [sqlite3_column_int], hence an [int32_t]). *)
Definition query_result : Type := option (list Z).

(** The first [while] loop: [unique_id] is the candidate, the result also
    carries the flag [found]. *)
Fixpoint scan_up (unique_id : Z) (rows : list Z) : Z * bool :=
  match rows with
  | [] => (unique_id, false)
  | current_id :: rest =>
      if current_id =? unique_id then scan_up (add unique_id 1) rest
      else if current_id >? unique_id then (unique_id, true)
      else scan_up unique_id rest
  end.

(** The second [while] loop, over the negative identifiers. *)
Fixpoint scan_down (unique_id : Z) (rows : list Z) : Z :=
  match rows with
  | [] => unique_id
  | current_id :: rest =>
      if current_id =? unique_id then scan_down (sub unique_id 1) rest
      else if current_id <? unique_id then unique_id
      else scan_down unique_id rest
  end.

(** [get_unique_user_id]: the returned pair is the [bool] result and the
    value left in the reference parameter [unique_id].  [q_pos] is the result
    of [SELECT usr FROM users WHERE usr >= 0 ORDER BY usr ASC], [q_neg] that
    of [SELECT usr FROM users WHERE usr < 0 ORDER BY usr DESC]. *)
Definition get_unique_user_id (q_pos q_neg : query_result) : bool * Z :=
  match q_pos with
  | None => (false, 1)
  | Some rows =>
      let '(unique_id, found) := scan_up 1 rows in
      if negb found && (unique_id >? INT32_MAX) then
        match q_neg with
        | None => (false, -1)
        | Some nrows => (true, scan_down (-1) nrows)
        end
      else (true, unique_id)
  end.

(** The identifiers [start, start+1, ...], [n] of them. *)
Fixpoint iota (start : Z) (n : nat) : list Z :=
  match n with
  | O => []
  | S k => start :: iota (start + 1) k
  end.

(** What the specification asks of [allocate]. *)
Definition smallest_nonneg_missing (rows : list Z) (c : Z) : Prop :=
  0 <= c /\ ~ In c rows /\ forall j, 0 <= j < c -> In j rows.

(** What the scan from 1 delivers. *)
Definition smallest_positive_missing (rows : list Z) (c : Z) : Prop :=
  1 <= c /\ ~ In c rows /\ forall j, 1 <= j < c -> In j rows.

End Allocator.

(* ================================================================= *)
(** ** Pond::getFeed *)

Module Feed.

(** The columns the query reads.  Key columns are integers; the text columns
    may be NULL ([None]), which [getFeed] tests for. *)
Record tweet : Type := mk_tweet {
  t_tid : Z;
  t_writer_id : Z;
  t_tdate : option string;
  t_ttime : option string;
  t_text : option string
}.

Record retweet : Type := mk_retweet {
  r_tid : Z;
  r_retweeter_id : Z;
  r_rdate : option string;
  r_spam : Z
}.

Record follows_row : Type := mk_follows {
  flwer : Z;
  flwee : Z
}.

Record user : Type := mk_user {
  usr : Z;
  u_name : option string
}.

Record database : Type := mk_database {
  tweets : list tweet;
  retweets : list retweet;
  follows : list follows_row;
  users : list user
}.

(** The first column of a result row: ['tweet'] or ['retweet']. *)
Inductive row_type : Type := type_tweet | type_retweet.

(** One row of the compound SELECT:
    [type, tid, name, writer_id, date, time, text]. *)
Record feed_row : Type := mk_row {
  row_type_of : row_type;
  row_tid : Z;
  row_name : option string;
  row_writer_id : Z;
  row_date : option string;
  row_time : option string;
  row_text : option string
}.

(** [SELECT 'tweet', t1.tid, u1.name, t1.writer_id, t1.tdate, t1.ttime, t1.text
     FROM tweets t1 JOIN follows f1 ON t1.writer_id = f1.flwee
                    JOIN users u1 ON t1.writer_id = u1.usr
     WHERE f1.flwer = ?] *)
Definition select_tweets (db : database) (user_id : Z) : list feed_row :=
  flat_map (fun t1 =>
    flat_map (fun f1 =>
      if t_writer_id t1 =? flwee f1 then
        flat_map (fun u1 =>
          if (t_writer_id t1 =? usr u1) && (flwer f1 =? user_id) then
            [mk_row type_tweet (t_tid t1) (u_name u1) (t_writer_id t1)
                    (t_tdate t1) (t_ttime t1) (t_text t1)]
          else []) (users db)
      else []) (follows db)) (tweets db).

(** [SELECT 'retweet', t2.tid, u2.name, r.retweeter_id, r.rdate, t2.ttime, t2.text
     FROM retweets r JOIN tweets t2 ON t2.tid = r.tid
                     JOIN follows f2 ON r.retweeter_id = f2.flwee
                     JOIN users u2 ON r.retweeter_id = u2.usr
     WHERE f2.flwer = ? AND r.spam = 0] *)
Definition select_retweets (db : database) (user_id : Z) : list feed_row :=
  flat_map (fun r =>
    flat_map (fun t2 =>
      if t_tid t2 =? r_tid r then
        flat_map (fun f2 =>
          if r_retweeter_id r =? flwee f2 then
            flat_map (fun u2 =>
              if (r_retweeter_id r =? usr u2)
                 && (flwer f2 =? user_id) && (r_spam r =? 0) then
                [mk_row type_retweet (t_tid t2) (u_name u2) (r_retweeter_id r)
                        (r_rdate r) (t_ttime t2) (t_text t2)]
              else []) (users db)
          else []) (follows db)
      else []) (tweets db)) (retweets db).

Definition row_type_eq_dec (a b : row_type) : {a = b} + {a <> b}.
Proof. decide equality. Defined.

Definition option_string_eq_dec (a b : option string) : {a = b} + {a <> b}.
Proof. decide equality. apply string_dec. Defined.

Definition feed_row_eq_dec (a b : feed_row) : {a = b} + {a <> b}.
Proof.
  decide equality;
    auto using Z.eq_dec, option_string_eq_dec, row_type_eq_dec.
Defined.

(** [UNION]: the rows of both SELECTs, each distinct row once. *)
Definition union (a b : list feed_row) : list feed_row :=
  nodup feed_row_eq_dec (a ++ b).

(** Comparison of two text values: NULL sorts below every string, strings
    compare byte by byte (the BINARY collation). *)
Definition compare_text (a b : option string) : comparison :=
  match a, b with
  | None, None => Eq
  | None, Some _ => Lt
  | Some _, None => Gt
  | Some x, Some y => String.compare x y
  end.

(** Comparison on the sort key [(date, time)]. *)
Definition compare_key (a b : feed_row) : comparison :=
  match compare_text (row_date a) (row_date b) with
  | Eq => compare_text (row_time a) (row_time b)
  | c => c
  end.

(** [a] may stand before [b] under [ORDER BY date DESC, time DESC]. *)
Definition key_geb (a b : feed_row) : bool :=
  match compare_key a b with
  | Lt => false
  | _ => true
  end.

(** The literals of the first column: ['retweet'] sorts before ['tweet']. *)
Definition compare_type (a b : row_type) : comparison :=
  match a, b with
  | type_retweet, type_tweet => Lt
  | type_tweet, type_retweet => Gt
  | _, _ => Eq
  end.

(** Comparison by one term, then by the next. *)
Definition then_by (c d : comparison) : comparison :=
  match c with
  | Eq => d
  | _ => c
  end.

(** The order in which the statement yields its rows.  SQLite sorts the rows
    of a UNION by the terms of ORDER BY and then by every other column of the
    result, in the order of the columns and ascending, which is how it finds
    the duplicates; so rows with the same date and time come in the order of
    [type], [tid], [name], [writer_id], [text].  [Lt]: [a] comes first. *)
Definition compare_rows (a b : feed_row) : comparison :=
  then_by (compare_text (row_date b) (row_date a))
  (then_by (compare_text (row_time b) (row_time a))
  (then_by (compare_type (row_type_of a) (row_type_of b))
  (then_by (row_tid a ?= row_tid b)
  (then_by (compare_text (row_name a) (row_name b))
  (then_by (row_writer_id a ?= row_writer_id b)
           (compare_text (row_text a) (row_text b))))))).

Definition comes_before (a b : feed_row) : bool :=
  match compare_rows a b with
  | Gt => false
  | _ => true
  end.

Fixpoint insert_desc (x : feed_row) (l : list feed_row) : list feed_row :=
  match l with
  | [] => [x]
  | y :: rest =>
      if comes_before x y then x :: y :: rest else y :: insert_desc x rest
  end.

(** The rows in the order of [compare_rows]. *)
Definition order_by_date_time_desc (l : list feed_row) : list feed_row :=
  fold_right insert_desc [] l.

(** The rows [sqlite3_step] yields for the whole statement. *)
Definition feed_rows (db : database) (user_id : Z) : list feed_row :=
  order_by_date_time_desc (union (select_tweets db user_id) (select_retweets db user_id)).

(** [(column ? reinterpret_cast<const char*>(column) : "Unknown")] as
    [operator<<] writes it: a column that is not NULL is written up to its
    first null byte. *)
Definition or_unknown (o : option string) : string :=
  match o with
  | Some s => c_str s
  | None => "Unknown"%string
  end.

Definition or_empty (o : option string) : string :=
  match o with
  | Some s => c_str s
  | None => EmptyString
  end.

(** The body of the [while] loop: one row becomes one display string.
    [std::string(80 - length, ' ')] has an unsigned count, which a name of
    more than 80 bytes before its first null byte turns into a count no
    string can hold. *)
Definition format_row (r : feed_row) : result string :=
  let head := or_unknown (row_name r) in
  if (80 <? String.length head)%nat then Throw length_error
  else Ok (head ++ spaces (80 - String.length head)
           ++ or_unknown (row_date r) ++ " " ++ or_unknown (row_time r)
           ++ nl ++ nl ++ or_empty (row_text r) ++ nl)%string.

Fixpoint format_rows (rows : list feed_row) : result (list string) :=
  match rows with
  | [] => Ok []
  | r :: rest =>
      s <- format_row r ;;
      feed <- format_rows rest ;;
      Ok (s :: feed)
  end.

(** [getFeed]; [prepared] tells whether [sqlite3_prepare_v2] returned
    [SQLITE_OK]. *)
Definition getFeed (db : database) (prepared : bool) (user_id : Z)
  : result (list string) :=
  if prepared then format_rows (feed_rows db user_id) else Ok [].

(** [a] comes before [b] in [l]. *)
Definition precedes (a b : feed_row) (l : list feed_row) : Prop :=
  exists l1 l2 l3, l = l1 ++ a :: l2 ++ b :: l3.

(** The order of the feed: [a] may stand before [b]. *)
Definition key_ge (a b : feed_row) : Prop := key_geb a b = true.

(** [a] is not after [b] in the order of the statement. *)
Definition row_le (a b : feed_row) : Prop := comes_before a b = true.

(** What makes a three-way comparison an order: it turns round with its
    arguments, "before" is transitive, and equal terms compare alike. *)
Definition ordering {A : Type} (c : A -> A -> comparison) : Prop :=
  (forall a b, c b a = CompOpp (c a b))
  /\ (forall a b d, c a b = Lt -> c b d = Lt -> c a d = Lt)
  /\ (forall a b d, c a b = Eq -> c a d = c b d).

(** The store without the re-shares flagged as spam. *)
Definition remove_spam (db : database) : database :=
  mk_database (tweets db) (filter (fun r => r_spam r =? 0) (retweets db))
              (follows db) (users db).

(** A store: ann (10) posted quack 1 on 2 January, bob (20) re-shared it on
    3 January and once more, flagged as spam, on 4 January; cat (30) follows
    both. *)
Local Open Scope string_scope.

Definition example_tweet : tweet :=
  mk_tweet 1 10 (Some "2024-01-02") (Some "10:00:00") (Some "hello").

Definition example_db : database :=
  mk_database
    [example_tweet]
    [mk_retweet 1 20 (Some "2024-01-03"%string) 0;
     mk_retweet 1 20 (Some "2024-01-04"%string) 1]
    [mk_follows 30 10; mk_follows 30 20]
    [mk_user 10 (Some "ann"%string); mk_user 20 (Some "bob"%string);
     mk_user 30 (Some "cat"%string)].

(** The same store, had ann posted her quack at another time of the day. *)
Definition example_db_other_time : database :=
  mk_database
    [mk_tweet 1 10 (Some "2024-01-02") (Some "23:59:59") (Some "hello")]
    (retweets example_db) (follows example_db) (users example_db).

Definition example_repost : feed_row :=
  mk_row type_retweet 1 (Some "bob") 20 (Some "2024-01-03") (Some "10:00:00")
         (Some "hello").

Definition example_post : feed_row :=
  mk_row type_tweet 1 (Some "ann") 10 (Some "2024-01-02") (Some "10:00:00")
         (Some "hello").

Local Close Scope string_scope.

End Feed.

(* ================================================================= *)
(** ** Quacker::extractQuackID, Quacker::processFeed and the feed menu *)

Module Pagination.

(** The regular expression [^Quack Id:\s+(\d+)] searched in [s]: the first
    capture group when it matches.  [\s+] takes every white space that
    follows the colon, and none of them could start [\d+], so matching
    greedily loses no match. *)
Definition match_quack_id (s : string) : option string :=
  match strip_prefix "Quack Id:" s with
  | None => None
  | Some rest =>
      let after := skip_spaces rest in
      if (String.length after <? String.length rest)%nat then
        match take_digits after with
        | EmptyString => None
        | digits => Some digits
        end
      else None
  end.

Definition extractQuackID (quackString : string) : result Z :=
  if String.prefix "Quack Id: " quackString then
    match match_quack_id quackString with
    | Some digits => stoi digits
    | None => Ok (-1)
    end
  else Ok (-1).

Definition no_more_quacks : string :=
  (nl ++ "You Have No More Quacks Left To Display." ++ nl)%string.

Definition already_no_quacks : string :=
  (nl ++ "You Are Already Not Displaying Any Quacks." ++ nl)%string.

(** One numbered block of the returned text: the number [i-1] printed before
    the feed string [feed[i-2]] (and the rule of 100 dashes after it). *)
Definition block : Type := (Z * string)%type.

(** What a call of [processFeed] leaves behind: the reference parameters
    [FeedDisplayCount], [error] and [i], the member [feed_quack_ids], and the
    blocks of the returned text. *)
Record feed_view : Type := mk_view {
  out_FeedDisplayCount : Z;
  out_error : string;
  out_i : Z;
  feed_quack_ids : list Z;
  out_oss : list block
}.

(** The loop [while (i-1 < bound) { ... }] of [processFeed], for [bound] equal
    to [maxQuacks] or [displayCount].  [i] goes up by one per turn, so the
    loop entered with [i] makes [bound - (i-1)] turns; [turns] counts them
    down.  [feed[i-1]] is read inside the vector: [i-1 < bound <= feed.size()]. *)
Fixpoint feed_loop (turns : nat) (feed : list string) (bound : Z)
    (i : Z) (ids : list Z) (oss : list block)
  : result (Z * list Z * list block) :=
  match turns with
  | O => Ok (i, ids, oss)
  | S k =>
      let item := nth (Z.to_nat (i - 1)) feed EmptyString in
      id <- extractQuackID item ;;
      let ids := ids ++ [id] in
      let i := add i 1 in
      if sub bound 5 >=? sub i 1 then feed_loop k feed bound i ids oss
      else
        let printed := nth (Z.to_nat (i - 2)) feed EmptyString in
        feed_loop k feed bound i ids (oss ++ [(sub i 1, printed)])
  end.

Definition run_feed_loop (feed : list string) (bound : Z)
  : result (Z * list Z * list block) :=
  feed_loop (Z.to_nat bound) feed bound 1 [] [].

(** [processFeed(FeedDisplayCount, error, i)] for the feed [pond.getFeed]
    returned. *)
Definition processFeed (feed : list string) (FeedDisplayCount : Z) (error : string)
  : result feed_view :=
  let maxQuacks := wrap (Z.of_nat (List.length feed)) in
  let rest (_ : unit) :=
    let displayCount := Z.min FeedDisplayCount maxQuacks in
    st <- run_feed_loop feed displayCount ;;
    let '(i, ids, oss) := st in
    Ok (mk_view FeedDisplayCount error i ids oss) in
  if FeedDisplayCount >=? add maxQuacks 5 then
    let error := no_more_quacks in
    let FeedDisplayCount := Z.max 0 (sub FeedDisplayCount 5) in
    st <- run_feed_loop feed maxQuacks ;;
    let '(i, ids, oss) := st in
    Ok (mk_view FeedDisplayCount error i ids oss)
  else if (FeedDisplayCount >=? maxQuacks) && (FeedDisplayCount <=? add maxQuacks 4)
  then rest tt
  else if (FeedDisplayCount <? maxQuacks) && (FeedDisplayCount >? 0)
  then rest tt
  else if FeedDisplayCount <=? 0 then
    let error := if FeedDisplayCount =? 0 then error else already_no_quacks in
    Ok (mk_view 0 error 1 [] [])
  else rest tt.

(** ** Quacker::mainPage *)

(** Selection ['1'] of the menu, [FeedDisplayCount += 5; error = ""], and the
    [processFeed] of the next turn of the menu loop. *)
Definition see_more (feed : list string) (FeedDisplayCount : Z) : result feed_view :=
  processFeed feed (add FeedDisplayCount 5) EmptyString.

(** Selection ['2'], [FeedDisplayCount -= 5; error = ""], and the next
    [processFeed]. *)
Definition see_less (feed : list string) (FeedDisplayCount : Z) : result feed_view :=
  processFeed feed (sub FeedDisplayCount 5) EmptyString.

(** The views the menu loop can show.  It starts from
    [FeedDisplayCount = 5]; every turn fetches the feed anew, and nothing in
    the program removes an entry from a feed, so the feed of a later turn is
    at least as long.  The other selections leave [FeedDisplayCount] alone
    and come back with some [error] text. *)
Inductive reachable : list string -> feed_view -> Prop :=
| reach_login feed v :
    processFeed feed 5 EmptyString = Ok v ->
    reachable feed v
| reach_more feed v feed' v' :
    reachable feed v ->
    (List.length feed <= List.length feed')%nat ->
    see_more feed' (out_FeedDisplayCount v) = Ok v' ->
    reachable feed' v'
| reach_less feed v feed' v' :
    reachable feed v ->
    (List.length feed <= List.length feed')%nat ->
    see_less feed' (out_FeedDisplayCount v) = Ok v' ->
    reachable feed' v'
| reach_other feed v feed' error v' :
    reachable feed v ->
    (List.length feed <= List.length feed')%nat ->
    processFeed feed' (out_FeedDisplayCount v) error = Ok v' ->
    reachable feed' v'.

(** The regular expression [^[1-9]\d*$], matched against the whole input. *)
Definition positive_integer_regex (input : string) : bool :=
  match input with
  | EmptyString => false
  | String c rest => is_nonzero_digit c && all_digits rest
  end.

(** What one answer to "Select a tweet (1,2,3,...)" leads to. *)
Inductive selection : Type :=
| back_to_menu                 (* empty input *)
| input_is_invalid             (* the prompt is shown again *)
| open_quack (quack_id : Z)    (* quackPage(pond.getQuackFromID(quack_id)) *)
| outside_vector.              (* feed_quack_ids[selection] past the end *)

(** Selection ['5'] of the menu for one line of input, after the view [v]
    was printed. *)
Definition select_from_feed (v : feed_view) (input : string) : result selection :=
  match input with
  | EmptyString => Ok back_to_menu
  | _ =>
      if negb (positive_integer_regex input) then Ok input_is_invalid
      else
        n <- stoi input ;;
        let selection := sub n 1 in
        if (selection >? sub (out_i v) 2) || (selection <? sub (out_i v) 6)
        then Ok input_is_invalid
        else
          match nth_error (feed_quack_ids v) (Z.to_nat selection) with
          | Some quack_id => if selection <? 0 then Ok outside_vector
                             else Ok (open_quack quack_id)
          | None => Ok outside_vector
          end
  end.

(** The blocks for the positions [lo+1 .. hi] of the feed, in order. *)
Definition blocks_between (feed : list string) (lo hi : Z) : list block :=
  map (fun k => let p := Z.max lo 0 + 1 + Z.of_nat k in
                (p, nth (Z.to_nat (p - 1)) feed EmptyString))
      (seq 0 (Z.to_nat (hi - Z.max lo 0))).

(** The identifiers [extractQuackID] reads off the strings of [l], one after
    the other; the first exception ends the reading. *)
Fixpoint read_ids (l : list string) : result (list Z) :=
  match l with
  | [] => Ok []
  | s :: rest =>
      id <- extractQuackID s ;;
      ids <- read_ids rest ;;
      Ok (id :: ids)
  end.

(** The feeds whose length and whose lengths plus a few page steps are
    [int32_t] values. *)
Definition fits_int32 (feed : list string) : Prop :=
  Z.of_nat (List.length feed) + 10 <= INT32_MAX.

(** A feed of seven entries, with the identifiers 101 to 107. *)
Definition example_feed : list string :=
  ["Quack Id: 101, Author: ann"; "Quack Id: 102, Author: bob";
   "Quack Id: 103, Author: cat"; "Quack Id: 104, Author: dan";
   "Quack Id: 105, Author: eve"; "Quack Id: 106, Author: fay";
   "Quack Id: 107, Author: gus"]%string.

(** A feed of twelve entries. *)
Definition example_feed_12 : list string :=
  example_feed ++ ["Quack Id: 108"; "Quack Id: 109"; "Quack Id: 110";
                   "Quack Id: 111"; "Quack Id: 112"]%string.

(** The view of [example_feed] after one "see more". *)
Definition example_view : feed_view :=
  Eval vm_compute in
    match processFeed example_feed 10 EmptyString with
    | Ok v => v
    | Throw _ => mk_view 0 EmptyString 1 [] []
    end.

(** Every feed string carries an identifier that [std::stoi] can read, so
    that [processFeed] returns. *)
Definition ids_readable (feed : list string) : Prop :=
  Forall (fun s => exists id, extractQuackID s = Ok id) feed.

End Pagination.

(* ================================================================= *)
(** ** Pond::_getTime, Pond::_getDate, Pond::addPost, Pond::follow *)

Module Clock.

(** The fields of [std::tm] the two formats read. *)
Record tm : Type := mk_tm {
  tm_sec : Z;
  tm_min : Z;
  tm_hour : Z;
  tm_mday : Z;
  tm_mon : Z;    (* months since January *)
  tm_year : Z    (* years since 1900 *)
}.

Definition digit_char (d : Z) : ascii := ascii_of_nat (48 + Z.to_nat d).

(** A field printed as two decimal digits ([%H], [%M], [%S], [%m], [%d]). *)
Definition two_digits (n : Z) : string :=
  String (digit_char (n / 10 mod 10)) (String (digit_char (n mod 10)) EmptyString).

(** A non-negative number in decimal ([%Y]). *)
Fixpoint decimal_string (fuel : nat) (n : Z) : string :=
  match fuel with
  | O => EmptyString
  | S k =>
      if n <? 10 then String (digit_char n) EmptyString
      else (decimal_string k (n / 10) ++ String (digit_char (n mod 10)) EmptyString)%string
  end.

(** The expansion of ["%H:%M:%S"]. *)
Definition format_HMS (t : tm) : string :=
  (two_digits (tm_hour t) ++ ":" ++ two_digits (tm_min t) ++ ":"
   ++ two_digits (tm_sec t))%string.

(** The expansion of ["%F"], that is of ["%Y-%m-%d"]. *)
Definition format_F (t : tm) : string :=
  (decimal_string 20 (tm_year t + 1900) ++ "-" ++ two_digits (tm_mon t + 1) ++ "-"
   ++ two_digits (tm_mday t))%string.

(** [std::strftime(buf, maxsize, fmt, tm)] for a format that expands to
    [expansion]: when the expansion and its terminating null fit [maxsize]
    bytes, their number is returned and [buf] holds the expansion; otherwise
    0 is returned and the contents of [buf] are indeterminate ([None]). *)
Definition strftime (maxsize : nat) (expansion : string) : nat * option string :=
  if (String.length expansion + 1 <=? maxsize)%nat
  then (String.length expansion, Some expansion)
  else (O, None).

Section Formatters.

(** [sizeof(t)] for [char* t]: the size of a pointer. *)
Variable sizeof_char_ptr : nat.

(** [_getTime], for the broken-down time [gmt] that [std::gmtime] returned:
    the text in the buffer handed back. *)
Definition _getTime (gmt : tm) : option string :=
  snd (strftime sizeof_char_ptr (format_HMS gmt)).

Definition _getDate (gmt : tm) : option string :=
  snd (strftime sizeof_char_ptr (format_F gmt)).

(** The answers of [sqlite3_step] to an INSERT. *)
Inductive step_code : Type := SQLITE_DONE | SQLITE_ROW | SQLITE_CONSTRAINT.

Definition step_code_eqb (a b : step_code) : bool :=
  match a, b with
  | SQLITE_DONE, SQLITE_DONE | SQLITE_ROW, SQLITE_ROW
  | SQLITE_CONSTRAINT, SQLITE_CONSTRAINT => true
  | _, _ => false
  end.

(** The values bound to one INSERT into [posts]; a text column bound from a
    buffer with indeterminate contents is [None]. *)
Record posts_row : Type := mk_post {
  p_tid : Z;
  p_writer_id : Z;
  p_text : string;
  p_tdate : option string;
  p_ttime : option string
}.

Record follows_insert : Type := mk_follows_insert {
  fi_flwer : Z;
  fi_flwee : Z;
  fi_start_date : option string
}.

(** [addPost]: [prepared] is the outcome of [sqlite3_prepare_v2], [rc] the
    answer of [sqlite3_step], [date_now] and [time_now] the clock readings of
    the two formatter calls.  The result is the row bound to the statement
    (when it was prepared) and the value returned. *)
Definition addPost (prepared : bool) (rc : step_code) (date_now time_now : tm)
    (tweet_id user_id : Z) (text : string) : option posts_row * bool :=
  if prepared then
    let row := mk_post tweet_id user_id text (_getDate date_now) (_getTime time_now) in
    (Some row, step_code_eqb rc SQLITE_ROW)
  else (None, false).

(** [follow]. *)
Definition follow (prepared : bool) (rc : step_code) (date_now : tm)
    (user_id follow_id : Z) : option follows_insert * bool :=
  if prepared then
    let row := mk_follows_insert user_id follow_id (_getDate date_now) in
    (Some row, step_code_eqb rc SQLITE_DONE)
  else (None, false).

End Formatters.

(** The broken-down times [std::gmtime] produces for the clock of a running
    system: fields in their calendar ranges, a year of four digits. *)
Definition calendar_time (t : tm) : Prop :=
  0 <= tm_sec t <= 60 /\ 0 <= tm_min t <= 59 /\ 0 <= tm_hour t <= 23 /\
  1 <= tm_mday t <= 31 /\ 0 <= tm_mon t <= 11 /\ 1000 <= tm_year t + 1900 <= 9999.

(** 3 November 2024, 12:34:56. *)
Definition example_time : tm := mk_tm 56 34 12 3 10 124.

End Clock.

(* ================================================================= *)
(** ** Quacker::trim, Quacker::isValidPhoneNumber, Quacker::isID and the
       user-id prompt of Quacker::loginPage *)

Module Input.

(** The position [std::find_if_not(first, last, isspace)] stops at, counted
    from [first]. *)
Fixpoint find_if_not_space (l : list ascii) : nat :=
  match l with
  | [] => O
  | c :: rest => if is_space c then S (find_if_not_space rest) else O
  end.

(** [trim], on the bytes of the string: [start] and [end_] are the two
    iterators as distances from [str.begin()]; the reverse iterator found
    from [rbegin()] has its [base()] that far from the end. *)
Definition trim_bytes (str : list ascii) : list ascii :=
  let start := find_if_not_space str in
  let end_ := (List.length str - find_if_not_space (rev str))%nat in
  if (start <? end_)%nat then firstn (end_ - start) (skipn start str) else [].

Definition trim (str : string) : string :=
  string_of_list_ascii (trim_bytes (list_ascii_of_string str)).

(** Bytes that are all white space. *)
Definition white (l : list ascii) : Prop := Forall (fun c => is_space c = true) l.

(** [str.find(c) != std::string::npos]. *)
Definition contains (c : ascii) (str : list ascii) : bool :=
  existsb (Ascii.eqb c) str.

Definition LF : ascii := ascii_of_nat 10.
Definition CR : ascii := ascii_of_nat 13.

Definition INT64_MAX : Z := 9223372036854775807.

(** [std::stoll] on a string of decimal digits; [None] is
    [std::out_of_range]. *)
Definition stoll (digits : list ascii) : option Z :=
  let v := decimal 0 (string_of_list_ascii digits) in
  if v >? INT64_MAX then None else Some v.

(** The digits of the input, in order: the loop [for (char c : input)]. *)
Definition digits_of (input : list ascii) : list ascii := filter is_digit input.

Definition isValidPhoneNumber_bytes (input : list ascii) : Z :=
  if contains LF input || contains CR input then -1
  else
    let digits := digits_of input in
    if ((List.length digits <? 10) || (11 <? List.length digits))%nat then -1
    else
      match stoll digits with
      | Some v => v
      | None => -1      (* catch (const std::out_of_range&) *)
      end.

Definition isValidPhoneNumber (input : string) : Z :=
  isValidPhoneNumber_bytes (list_ascii_of_string input).

Fixpoint drop_digits (s : string) : string :=
  match s with
  | EmptyString => EmptyString
  | String c rest => if is_digit c then drop_digits rest else s
  end.

(** [strtol(nptr, &p, 10)]: white space, an optional sign, decimal digits.
    Without a digit nothing is converted and [p] is [nptr]; otherwise [p]
    points behind the last digit.  The value is the mathematical one; the
    range of [long] is looked at where the value is used. *)
Inductive strtol_result : Type :=
| no_conversion
| converted (value : Z) (p : string).

Definition strtol (nptr : string) : strtol_result :=
  let s := skip_spaces nptr in
  let '(negative, s) :=
    match s with
    | String c rest =>
        if Ascii.eqb c "+" then (false, rest)
        else if Ascii.eqb c "-" then (true, rest)
        else (false, s)
    | EmptyString => (false, s)
    end in
  match take_digits s with
  | EmptyString => no_conversion
  | digits =>
      let v := decimal 0 digits in
      converted (if negative then - v else v) (drop_digits s)
  end.

Definition is_empty (s : string) : bool :=
  match s with
  | EmptyString => true
  | String _ _ => false
  end.

(** [isID]: [*p == 0] after [strtol(str.c_str(), &p, 10)]. *)
Definition isID (str : string) : bool :=
  match strtol (c_str str) with
  | no_conversion => is_empty (c_str str)
  | converted _ p => is_empty p
  end.

(** [std::stoi(str)] on any string. *)
Inductive stoi_outcome : Type :=
| stoi_value (v : Z)
| stoi_invalid_argument
| stoi_out_of_range.

Definition std_stoi (str : string) : stoi_outcome :=
  match strtol (c_str str) with
  | no_conversion => stoi_invalid_argument
  | converted v _ =>
      if (v <? INT32_MIN) || (v >? INT32_MAX) then stoi_out_of_range
      else stoi_value v
  end.

(** What the line typed at "User ID:" leads to in [loginPage]. *)
Inductive user_id_prompt : Type :=
| prompt_return                 (* empty line: back to the start page *)
| prompt_invalid_id             (* "Invalid User ID, ID must be a valid integer." *)
| prompt_user_id (user_id : Z)  (* on to the password *)
| prompt_uncaught.              (* std::invalid_argument leaves loginPage *)

Definition read_user_id (user_id_str : string) : user_id_prompt :=
  if is_empty user_id_str then prompt_return
  else if isID user_id_str then
    match std_stoi user_id_str with
    | stoi_value v => prompt_user_id v
    | stoi_out_of_range => prompt_invalid_id
    | stoi_invalid_argument => prompt_uncaught
    end
  else prompt_invalid_id.

(** The strings [strtol] reads to their end: white space, an optional sign,
    and at least one digit. *)
Definition integer_literal (s : string) (v : Z) : Prop :=
  exists ws sign digits,
    s = (ws ++ sign ++ digits)%string
    /\ Forall (fun c => is_space c = true) (list_ascii_of_string ws)
    /\ (sign = EmptyString \/ sign = "+"%string \/ sign = "-"%string)
    /\ all_digits digits = true /\ digits <> EmptyString
    /\ v = (if String.eqb sign "-" then - decimal 0 digits else decimal 0 digits).

End Input.

(* ================================================================= *)
(** ** Quacker::getHiddenPassword and Quacker::formatTweetText *)

Module Console.

Definition LF : ascii := ascii_of_nat 10.    (* '\n' *)
Definition BS : ascii := ascii_of_nat 8.     (* '\b' *)
Definition DEL : ascii := ascii_of_nat 127.

(** The loop of [getHiddenPassword] over the bytes [getchar] delivers:
    [password] and what went to [std::cout] so far.  [None]: the bytes end
    before a line feed, and the loop does not come to its [break]. *)
Fixpoint read_keys (keys : list ascii) (password : list ascii) (echo : list ascii)
  : option (list ascii * list ascii) :=
  match keys with
  | [] => None
  | ch :: rest =>
      if Ascii.eqb ch LF then Some (password, echo ++ [LF])   (* std::endl *)
      else if Ascii.eqb ch DEL || Ascii.eqb ch BS then
        match password with
        | [] => read_keys rest password echo
        | _ :: _ => read_keys rest (removelast password) (echo ++ [BS; " "%char; BS])
        end
      else read_keys rest (password ++ [ch]) (echo ++ ["*"%char])
  end.

Definition getHiddenPassword (keys : list ascii) : option (list ascii * list ascii) :=
  read_keys keys [] [].

(** One line of a terminal: the cells left of the cursor, the nearest first,
    and the cells from the cursor on. *)
Record line : Type := mk_line {
  before : list ascii;
  after : list ascii
}.

(** A byte arrives at the terminal: backspace moves the cursor one cell to
    the left, any other byte is written at the cursor, which moves on. *)
Definition put (l : line) (c : ascii) : line :=
  if Ascii.eqb c BS then
    match before l with
    | [] => l
    | x :: b => mk_line b (x :: after l)
    end
  else mk_line (c :: before l) (tl (after l)).

Definition show (bytes : list ascii) : line :=
  fold_left put bytes (mk_line [] []).

(** [n] stars in a row, and cells that are all blank. *)
Definition stars (n : nat) : list ascii := repeat "*"%char n.

Definition blank (cells : list ascii) : Prop := Forall (fun c => c = " "%char) cells.

(** The keys that are neither the end of the line nor an erasure. *)
Definition plain_key (c : ascii) : Prop := c <> LF /\ c <> DEL /\ c <> BS.

(** [std::istringstream words(text); while (words >> word)]: the words are
    the runs of bytes that are not white space; [word] holds the bytes of
    the run being read. *)
Fixpoint extract_words (text : list ascii) (word : list ascii) : list (list ascii) :=
  match text with
  | [] =>
      match word with
      | [] => []
      | _ :: _ => [word]
      end
  | c :: rest =>
      if is_space c then
        match word with
        | [] => extract_words rest []
        | _ :: _ => word :: extract_words rest []
        end
      else extract_words rest (word ++ [c])
  end.

Definition words_of (text : list ascii) : list (list ascii) := extract_words text [].

(** A value converted to [std::size_t] (64 bits). *)
Definition size_t (z : Z) : Z := z mod 18446744073709551616.

(** The loop of [formatTweetText]: [formattedText] is the text of the output
    stream, [currentLineLength] the [int] of that name. *)
Fixpoint format_loop (words : list (list ascii)) (line_width : Z)
    (formattedText : list ascii) (currentLineLength : Z) : list ascii :=
  match words with
  | [] => formattedText
  | word :: rest =>
      let length := Z.of_nat (List.length word) in
      let '(formattedText, currentLineLength) :=
        if size_t (size_t currentLineLength + length + 1) >? size_t line_width
        then (formattedText ++ [LF], 0)
        else (formattedText, currentLineLength) in
      let '(formattedText, currentLineLength) :=
        if currentLineLength >? 0
        then (formattedText ++ [" "%char], add currentLineLength 1)
        else (formattedText, currentLineLength) in
      format_loop rest line_width (formattedText ++ word)
                  (wrap (size_t (size_t currentLineLength + length)))
  end.

Definition formatTweetText_bytes (text : list ascii) (line_width : Z) : list ascii :=
  format_loop (words_of text) line_width [] 0.

Definition formatTweetText (text : string) (line_width : Z) : string :=
  string_of_list_ascii (formatTweetText_bytes (list_ascii_of_string text) line_width).

(** The lengths of the lines of [text], the first of which already holds
    [column] bytes. *)
Fixpoint line_lengths (text : list ascii) (column : Z) : list Z :=
  match text with
  | [] => [column]
  | c :: rest =>
      if Ascii.eqb c LF then column :: line_lengths rest 0
      else line_lengths rest (column + 1)
  end.

(** Words as [operator>>] delivers them: not empty, without white space. *)
Definition is_word (w : list ascii) : Prop :=
  w <> [] /\ Forall (fun c => is_space c = false) w.

(** A text that is empty or starts with white space. *)
Definition starts_white (text : list ascii) : Prop :=
  text = [] \/ exists c t, text = c :: t /\ is_space c = true.

(** The bytes a list of words takes when each is followed by one separator. *)
Fixpoint spread (words : list (list ascii)) : Z :=
  match words with
  | [] => 0
  | w :: rest => Z.of_nat (List.length w) + 1 + spread rest
  end.

End Console.

(* ================================================================= *)
(** ** Pond::addUser, Pond::checkLogin and Pond::getUsername *)

Module Accounts.

(** The columns of [users] that [addUser] binds; a column may be NULL. *)
Record users_row : Type := mk_users_row {
  usr : Z;
  name : option string;
  email : option string;
  phone : option Z;
  pwd : option string
}.

Fixpoint insert_asc (x : Z) (l : list Z) : list Z :=
  match l with
  | [] => [x]
  | y :: rest => if x <=? y then x :: l else y :: insert_asc x rest
  end.

(** [ORDER BY usr ASC]. *)
Definition order_by_asc (l : list Z) : list Z := fold_right insert_asc [] l.

(** [SELECT usr FROM users WHERE usr >= 0 ORDER BY usr ASC], each value read
    with [sqlite3_column_int]. *)
Definition select_usr_nonneg (users : list users_row) : list Z :=
  map wrap (order_by_asc (filter (fun x => 0 <=? x) (map usr users))).

(** [SELECT usr FROM users WHERE usr < 0 ORDER BY usr DESC]. *)
Definition select_usr_neg (users : list users_row) : list Z :=
  map wrap (rev (order_by_asc (filter (fun x => x <? 0) (map usr users)))).

(** The row [addUser] binds to its INSERT.  The texts are bound from
    [c_str()] with length -1, so each ends before its first null byte;
    [sqlite3_bind_int] takes an [int], so the 64-bit [phone] is converted. *)
Definition bound_row (user_id : Z) (name email : string) (phone : Z)
    (password : string) : users_row :=
  mk_users_row user_id (Some (c_str name)) (Some (c_str email))
               (Some (wrap phone)) (Some (c_str password)).

(** [addUser] on the table [users].  [prepared_asc], [prepared_desc] and
    [prepared_insert] tell whether the three statements prepare, [rc] is the
    answer of [sqlite3_step] to the INSERT, which has added the row when it
    is [SQLITE_DONE].  The result is the identifier behind the returned
    pointer ([None] for [nullptr]) and the table afterwards. *)
Definition addUser (users : list users_row)
    (prepared_asc prepared_desc prepared_insert : bool) (rc : Clock.step_code)
    (name email : string) (phone : Z) (password : string)
  : option Z * list users_row :=
  let q_pos := if prepared_asc then Some (select_usr_nonneg users) else None in
  let q_neg := if prepared_desc then Some (select_usr_neg users) else None in
  let '(got_id, user_id) := Allocator.get_unique_user_id q_pos q_neg in
  if negb got_id then (None, users)
  else if negb prepared_insert then (None, users)
  else
    match rc with
    | Clock.SQLITE_DONE =>
        (Some user_id, users ++ [bound_row user_id name email phone password])
    | _ => (None, users)
    end.

(** [column = ?] for a text column and a bound text: NULL equals nothing. *)
Definition text_equals (column : option string) (bound : string) : bool :=
  match column with
  | Some s => String.eqb s bound
  | None => false
  end.

Section Login.

(** [checkLogin] reads column 0 of [SELECT *]: the first column of the table
    as it was created. *)
Variable first_column : users_row -> Z.

(** [checkLogin]: the identifier behind the returned pointer, [None] for
    [nullptr].  The first row [sqlite3_step] yields is read. *)
Definition checkLogin (users : list users_row) (prepared : bool)
    (user_id : Z) (password : string) : option Z :=
  if prepared then
    match filter (fun r => (usr r =? user_id)
                           && text_equals (pwd r) (c_str password)) users with
    | r :: _ => Some (wrap (first_column r))
    | [] => None
    end
  else None.

End Login.

(** [getUsername]: the name of the first row for [user_id], read as a C
    string; the empty string when there is no row or the name is NULL. *)
Definition getUsername (users : list users_row) (prepared : bool)
    (user_id : Z) : string :=
  if prepared then
    match filter (fun r => usr r =? user_id) users with
    | r :: _ =>
        match name r with
        | Some retrieved_username => c_str retrieved_username
        | None => EmptyString
        end
    | [] => EmptyString
    end
  else EmptyString.

Local Open Scope string_scope.

Definition example_users : list users_row :=
  [mk_users_row 1 (Some "ann") (Some "a@x.ca") (Some 5551234) (Some "pw");
   mk_users_row 3 (Some "cat") (Some "c@x.ca") (Some 5559876) (Some "pw")].

Local Close Scope string_scope.

End Accounts.

(* ================================================================= *)
(** ** Pond::follow and Pond::unfollow on the store of the feed;
       Pond::createList, Pond::_listExists and Pond::addToList *)

Module Store.

Import Feed.

Definition with_follows (db : database) (rows : list follows_row) : database :=
  mk_database (tweets db) (retweets db) rows (users db).

(** [follow] on the store: [INSERT INTO follows (flwer, flwee, start_date)].
    The statement has added its row when [sqlite3_step] answers
    [SQLITE_DONE].  The start date is a column no query of [getFeed] reads. *)
Definition follow (db : database) (prepared : bool) (rc : Clock.step_code)
    (user_id follow_id : Z) : database * bool :=
  if prepared then
    match rc with
    | Clock.SQLITE_DONE =>
        (with_follows db (follows db ++ [mk_follows user_id follow_id]), true)
    | _ => (db, false)
    end
  else (db, false).

(** The rows [DELETE FROM follows WHERE flwer = ? AND flwee = ?] leaves. *)
Definition kept (user_id follow_id : Z) (f : follows_row) : bool :=
  negb ((flwer f =? user_id) && (flwee f =? follow_id)).

(** [unfollow] on the store. *)
Definition unfollow (db : database) (prepared : bool) (rc : Clock.step_code)
    (user_id follow_id : Z) : database * bool :=
  if prepared then
    match rc with
    | Clock.SQLITE_DONE =>
        (with_follows db (filter (kept user_id follow_id) (follows db)), true)
    | _ => (db, false)
    end
  else (db, false).

(** The rows of a feed not written or re-shared by [follow_id]. *)
Definition not_by (follow_id : Z) (e : feed_row) : bool :=
  negb (row_writer_id e =? follow_id).

(** A string of blanks. *)
Definition blanks (s : string) : Prop :=
  Forall (fun c => c = " "%char) (list_ascii_of_string s).

(** The display string of a row whose name fits the 80 columns. *)
Definition padded_entry (e : feed_row) (s : string) : Prop :=
  exists pad,
    s = (or_unknown (row_name e) ++ pad
         ++ or_unknown (row_date e) ++ " " ++ or_unknown (row_time e)
         ++ nl ++ nl ++ or_empty (row_text e) ++ nl)%string
    /\ blanks pad
    /\ (String.length (or_unknown (row_name e)) + String.length pad = 80)%nat.

(** *** Lists *)

Record lists_row : Type := mk_list {
  owner_id : Z;
  lname : string
}.

Record include_row : Type := mk_include {
  i_owner_id : Z;
  i_lname : string;
  i_tid : Z
}.

Record list_store : Type := mk_list_store {
  lists : list lists_row;
  include : list include_row
}.

(** [_listExists]: [SELECT 1 FROM lists WHERE owner_id = ? AND lname = ?]
    yields a row. *)
Definition _listExists (st : list_store) (prepared : bool)
    (list_name : string) (user_id : Z) : bool :=
  if prepared then
    existsb (fun l => (owner_id l =? user_id)
                      && String.eqb (lname l) (c_str list_name)) (lists st)
  else false.

(** [createList]. *)
Definition createList (st : list_store) (prepared : bool) (rc : Clock.step_code)
    (user_id : Z) (list_name : string) : list_store * bool :=
  if prepared then
    match rc with
    | Clock.SQLITE_DONE =>
        (mk_list_store (lists st ++ [mk_list user_id (c_str list_name)])
                       (include st), true)
    | _ => (st, false)
    end
  else (st, false).

(** [addToList]; [prepared_exists] is for the statement of [_listExists],
    [prepared] for the INSERT. *)
Definition addToList (st : list_store) (prepared_exists prepared : bool)
    (rc : Clock.step_code) (list_name : string) (tweet_id user_id : Z)
  : list_store * bool :=
  if negb (_listExists st prepared_exists list_name user_id) then (st, false)
  else if prepared then
    match rc with
    | Clock.SQLITE_DONE =>
        (mk_list_store (lists st)
           (include st ++ [mk_include user_id (c_str list_name) tweet_id]),
         true)
    | _ => (st, false)
    end
  else (st, false).

(** A call of one of the two functions that write to the lists. *)
Inductive list_call : Type :=
| call_createList (prepared : bool) (rc : Clock.step_code)
                  (user_id : Z) (list_name : string)
| call_addToList (prepared_exists prepared : bool) (rc : Clock.step_code)
                 (list_name : string) (tweet_id user_id : Z).

Definition run_call (st : list_store) (c : list_call) : list_store :=
  match c with
  | call_createList prepared rc user_id list_name =>
      fst (createList st prepared rc user_id list_name)
  | call_addToList prepared_exists prepared rc list_name tweet_id user_id =>
      fst (addToList st prepared_exists prepared rc list_name tweet_id user_id)
  end.

Definition run_calls (st : list_store) (calls : list list_call) : list_store :=
  fold_left run_call calls st.

(** Every entry of [include] names a list of its owner. *)
Definition entries_have_lists (st : list_store) : Prop :=
  forall e, In e (include st) ->
            In (mk_list (i_owner_id e) (i_lname e)) (lists st).

End Store.

(* ================================================================= *)
(** ** The result pages: Quacker::searchUsersPage, Quacker::searchQuacksPage,
       Quacker::followersPage and Quacker::userPage *)

Module Pages.

Import Pagination.

(** The bytes of the standard input as lines, each without the line feed
    that ends it; [None] when bytes are left behind the last line feed.
    [line] holds the bytes of the line that is being read. *)
Fixpoint lines_from (line bytes : string) : option (list string) :=
  match bytes with
  | EmptyString => if Input.is_empty line then Some [] else None
  | String c rest =>
      if Ascii.eqb c Input.LF then
        match lines_from EmptyString rest with
        | Some lines => Some (line :: lines)
        | None => None
        end
      else lines_from (line ++ String c EmptyString) rest
  end.

Definition cin_lines (bytes : string) : option (list string) :=
  lines_from EmptyString bytes.

(** [std::getline(std::cin, input)] on an input of whole lines ([cin_lines]),
    of which [lines] are left.  A line is taken off with its line feed and
    leaves the stream good.  With no line left, a good stream empties [input]
    and then fails; a stream that has failed leaves [input] as it is, and the
    pages below then read into a string that is empty: one they have just
    declared, or the one the failing read has emptied.  Either way [input] is
    empty after the call.  An input with bytes behind its last line feed is
    not covered: the read of those bytes sets [eofbit] alone, and the next
    read leaves a string that is not empty as it is. *)
Definition getline (lines : list string) : string * list string :=
  match lines with
  | [] => (EmptyString, [])
  | input :: rest => (input, rest)
  end.

(** [std::getline(std::cin, input);
     while (!input.empty()) { ...; std::getline(std::cin, input); }]:
    the lines left once an empty one was read. *)
Fixpoint press_enter (lines : list string) : list string :=
  match lines with
  | [] => []
  | input :: rest => if Input.is_empty input then rest else press_enter rest
  end.

(** What the code below the printed rows does. *)
Inductive outcome : Type :=
| leave                      (* [break] out of the loop that prints *)
| open_row (selection : Z)   (* the page of [results[selection]], then [break] *)
| again (DisplayCount : Z).  (* [continue] *)

(** How a page ends. *)
Inductive page_end : Type :=
| returned (lines : list string)   (* with the input that is left *)
| outside_results (selection : Z)  (* [results[selection]] past the end *)
| stays_in_opened_page.            (* the page opened for a row never returns *)

Section Results.

(** [Pond::User] or [Pond::Quack]. *)
Variable A : Type.

(** The text of a row under its number, as it goes to [std::cout]; writing
    the row of a quack can throw. *)
Variable show : Z -> A -> result string.

(** The page opened for a row, [userPage] or [quackPage], on the input that
    is left: [None] when it never returns, which is what both do once the
    input has ended; otherwise the exception it leaves through, or the input
    it leaves when it returns. *)
Variable visit : A -> list string -> option (result (list string)).

(** The call of the page opened for [row], and [continue_with] for what
    follows its return. *)
Definition open_page (row : A) (lines : list string)
    (continue_with : list string -> option (result page_end))
  : option (result page_end) :=
  match visit row lines with
  | None => Some (Ok stays_in_opened_page)
  | Some (Throw e) => Some (Throw e)
  | Some (Ok lines') => continue_with lines'
  end.

(** [static_cast<int32_t>(results.size())]. *)
Definition size32 (results : list A) : Z := wrap (Z.of_nat (List.length results)).

(** [static_cast<int32_t>(results.size() - k)]: the difference is taken in
    [std::size_t]. *)
Definition size_minus32 (results : list A) (k : Z) : Z :=
  wrap (Console.size_t (Z.of_nat (List.length results) - k)).

(** The two tests before [continue] in the [for] loop of the three list
    pages, with [i] as it is after [++i]. *)
Definition skipped (results : list A) (DisplayCount i : Z) : bool :=
  if ((DisplayCount <? sub i 1) || (i <=? sub DisplayCount 4))
     && (DisplayCount <? size32 results) then true
  else if (i <=? size_minus32 results 4) && (DisplayCount >=? size32 results) then true
  else false.

(** The [for] loop over [results]: the rows printed, each with the number
    [i-1] printed above it, and [i] after the loop. *)
Fixpoint print_rows (results rest : list A) (DisplayCount i : Z)
  : result (list (Z * A) * Z) :=
  match rest with
  | [] => Ok ([], i)
  | result :: rest' =>
      let i := add i 1 in
      if skipped results DisplayCount i then print_rows results rest' DisplayCount i
      else
        match show (sub i 1) result with
        | Throw e => Throw e
        | Ok _ =>
            match print_rows results rest' DisplayCount i with
            | Throw e => Throw e
            | Ok (out, i_end) => Ok ((sub i 1, result) :: out, i_end)
            end
        end
  end.

(** The prompt under fewer than five results, from the first non-empty
    [input] on: [while (!valid_input)]. *)
Fixpoint select_loop (results : list A) (i : Z) (input : string)
    (lines : list string) : result (outcome * list string) :=
  let ask_again :=
    match lines with
    | [] => Ok (leave, [])
    | input' :: lines' =>
        if Input.is_empty input' then Ok (leave, lines')
        else select_loop results i input' lines'
    end in
  if negb (positive_integer_regex input) then ask_again
  else
    match stoi input with
    | Throw e => Throw e
    | Ok n =>
        let selection := sub n 1 in
        if selection >? sub i 2 then ask_again
        else if selection <=? size32 results then Ok (open_row selection, lines)
        else Ok (leave, lines)
    end.

(** The prompt under five results or more, for one pass of the loop. *)
Definition menu (results : list A) (DisplayCount : Z) (lines : list string)
  : result (outcome * list string) :=
  let '(input, lines) := getline lines in
  if Input.is_empty input then Ok (leave, lines)
  else if String.eqb input "M" || String.eqb input "m" then
    if DisplayCount <? size32 results then Ok (again (add DisplayCount 5), lines)
    else Ok (again DisplayCount, press_enter lines)
  else if String.eqb input "L" || String.eqb input "l" then
    if DisplayCount >? 0 then Ok (again (sub DisplayCount 5), lines)
    else Ok (again DisplayCount, press_enter lines)
  else if negb (positive_integer_regex input) then
    Ok (again DisplayCount, press_enter lines)
  else
    match stoi input with
    | Throw e => Throw e
    | Ok n =>
        let selection := sub n 1 in
        if ((add selection 1 <=? DisplayCount)
            && (add selection 1 >? sub DisplayCount 5))
           && (DisplayCount <? size32 results)
        then Ok (open_row selection, lines)
        else if (add selection 1 <=? size32 results)
                && (add selection 1 >? size_minus32 results 5)
                && (DisplayCount >=? size32 results)
        then Ok (open_row selection, lines)
        else Ok (again DisplayCount, press_enter lines)
    end.

(** One pass of [while (true)] around the rows: the rows printed and what
    follows.  [searchQuacksPage] has one more branch in the second prompt,
    [else if (5 > results.size());], which is never taken there. *)
Definition display_pass (results : list A) (DisplayCount : Z)
    (lines : list string) : result (list (Z * A) * outcome * list string) :=
  match print_rows results results DisplayCount 1 with
  | Throw e => Throw e
  | Ok (out, i) =>
      match
        (if 5 >? size32 results then
           let '(input, lines') := getline lines in
           if Input.is_empty input then Ok (leave, lines')
           else select_loop results i input lines'
         else menu results DisplayCount lines)
      with
      | Throw e => Throw e
      | Ok (o, lines') => Ok (out, o, lines')
      end
  end.

(** The loop around the rows; [None] when [fuel] passes do not end it. *)
Fixpoint display_loop (fuel : nat) (results : list A) (DisplayCount : Z)
    (lines : list string) : option (result page_end) :=
  match fuel with
  | O => None
  | S fuel' =>
      match display_pass results DisplayCount lines with
      | Throw e => Some (Throw e)
      | Ok (_, leave, lines') => Some (Ok (returned lines'))
      | Ok (_, open_row selection, lines') =>
          match (if selection <? 0 then None
                 else nth_error results (Z.to_nat selection)) with
          | Some row =>
              open_page row lines' (fun lines'' => Some (Ok (returned lines'')))
          | None => Some (Ok (outside_results selection))
          end
      | Ok (_, again DisplayCount', lines') =>
          display_loop fuel' results DisplayCount' lines'
      end
  end.

(** [followersPage], with [results] what [getFollowers] returned. *)
Definition followersPage (fuel : nat) (results : list A) (lines : list string)
  : option (result page_end) :=
  match results with
  | [] => Some (Ok (returned (press_enter lines)))
  | _ => display_loop fuel results 5 lines
  end.

(** [searchUsersPage] and [searchQuacksPage], with [search] for
    [searchForUsers] or [searchForQuacks]. *)
Fixpoint searchPage (fuel : nat) (search : string -> list A)
    (lines : list string) : option (result page_end) :=
  match fuel with
  | O => None
  | S fuel' =>
      let '(search_term, lines) := getline lines in
      let search_term := Input.trim search_term in
      if Input.is_empty search_term then Some (Ok (returned lines))
      else
        match search search_term with
        | [] => searchPage fuel' search (press_enter lines)
        | results =>
            match display_loop fuel results 5 lines with
            | Some (Ok (returned lines')) => searchPage fuel' search lines'
            | r => r
            end
        end
  end.

(** The rows with their numbers, from [first] on. *)
Fixpoint numbered (first : Z) (rest : list A) : list (Z * A) :=
  match rest with
  | [] => []
  | result :: rest' => (first, result) :: numbered (first + 1) rest'
  end.

(** The rows whose numbers lie in the half-open interval from [lo] to [hi]. *)
Definition rows_between (lo hi : Z) (results : list A) : list (Z * A) :=
  filter (fun p => (lo <? fst p) && (fst p <=? hi)) (numbered 1 results).

(** The values the display count takes. *)
Definition count_ok (results : list A) (DisplayCount : Z) : Prop :=
  0 <= DisplayCount < Z.of_nat (List.length results) + 5
  /\ DisplayCount mod 5 = 0
  /\ (Z.of_nat (List.length results) < 5 -> DisplayCount = 5).

(** *** [userPage] *)

(** The [for] loop of [userPage] over [users_quacks], which leaves through
    [break] behind row [hardstop].  [getQuacks] is asked again for the size
    in each pass; the store does not change within the loop. *)
Fixpoint print_quacks (users_quacks rest : list A) (hardstop i : Z)
  : result (list (Z * A) * Z) :=
  match rest with
  | [] => Ok ([], i)
  | result :: rest' =>
      let i := add i 1 in
      if sub i 1 >? hardstop then Ok ([], i)
      else if (if hardstop >=? size32 users_quacks
               then sub i 1 <=? size_minus32 users_quacks 3
               else sub i 1 <=? sub hardstop 3)
      then print_quacks users_quacks rest' hardstop i
      else
        match show (sub i 1) result with
        | Throw e => Throw e
        | Ok _ =>
            match print_quacks users_quacks rest' hardstop i with
            | Throw e => Throw e
            | Ok (out, i_end) => Ok ((sub i 1, result) :: out, i_end)
            end
        end
  end.

(** [std::cin >> select; if (std::cin.peek() != '\n') select = '0';] and the
    [getline] that drops the rest of the line.  The extraction skips white
    space, line ends included; at the end of the input it fails, [peek()] is
    not a line feed, and [select] is ['0']. *)
Fixpoint read_select (lines : list string) : ascii * list string :=
  match lines with
  | [] => ("0"%char, [])
  | line :: rest =>
      match skip_spaces line with
      | EmptyString => read_select rest
      | String select EmptyString => (select, rest)
      | String _ _ => ("0"%char, rest)
      end
  end.

(** The [for] loop of selection ['3'] over [getFollows(user_id)]: whether it
    ends with [already_follows] set. *)
Fixpoint already_follows (follows_of_viewer : list Z) (user_id usr : Z) : bool :=
  match follows_of_viewer with
  | [] => false
  | flws :: rest =>
      if (flws =? usr) || (user_id =? usr) then true
      else already_follows rest user_id usr
  end.

(** The prompt of selection ['4'], from the first non-empty [input] on. *)
Fixpoint select_quack (i : Z) (input : string) (lines : list string)
  : result (option Z * list string) :=
  let ask_again :=
    match lines with
    | [] => Ok (None, [])
    | input' :: lines' =>
        if Input.is_empty input' then Ok (None, lines')
        else select_quack i input' lines'
    end in
  if negb (positive_integer_regex input) then ask_again
  else
    match stoi input with
    | Throw e => Throw e
    | Ok n =>
        let selection := sub n 1 in
        if (selection >? sub i 2) || (selection <? sub i 6) then ask_again
        else Ok (Some selection, lines)
    end.

(** The messages [userPage] keeps in [error]. *)
Inductive user_page_error : Type :=
| no_error
| no_more_quacks          (* "This User Has No More Quacks To Diplay!" *)
| already_no_quacks       (* "You Are Already Not Seeing Any Quacks!" *)
| invalid_input_entered.  (* "Invalid Input Entered [use: 1, 2, 3]." *)

(** What one pass of the loop of [userPage] does after printing. *)
Inductive user_page_step : Type :=
| stay (hardstop : Z) (error : user_page_error)
| call_follow (hardstop : Z)            (* [pond.follow(user_id, user.usr)] *)
| call_quackPage (hardstop : Z) (error : user_page_error) (selection : Z)
| page_return.

(** One pass of [while (true)] in [userPage] for the page of the user [usr],
    seen by [user_id]: [users_quacks] and [follows_of_viewer] are what
    [getQuacks(user.usr)] and [getFollows(user_id)] return in this pass. *)
Definition userPage_pass (users_quacks : list A) (follows_of_viewer : list Z)
    (user_id usr : Z) (hardstop : Z) (error : user_page_error)
    (lines : list string)
  : result (list (Z * A) * user_page_step * list string) :=
  match print_quacks users_quacks users_quacks hardstop 1 with
  | Throw e => Throw e
  | Ok (out, i) =>
      let '(select, lines) := read_select lines in
      if Ascii.eqb select "1" then
        let hardstop := add hardstop 3 in
        if Console.size_t hardstop
           >=? Console.size_t (Z.of_nat (List.length users_quacks) + 3)
        then Ok (out, stay (sub hardstop 3) no_more_quacks, lines)
        else Ok (out, stay hardstop no_error, lines)
      else if Ascii.eqb select "2" then
        if hardstop =? 0 then Ok (out, stay hardstop already_no_quacks, lines)
        else Ok (out, stay (sub hardstop 3) no_error, lines)
      else if Ascii.eqb select "3" then
        if already_follows follows_of_viewer user_id usr
        then Ok (out, stay hardstop no_error, press_enter lines)
        else Ok (out, call_follow hardstop, press_enter lines)
      else if Ascii.eqb select "4" then
        let '(input, lines) := getline lines in
        if Input.is_empty input then Ok (out, stay hardstop error, lines)
        else
          match select_quack i input lines with
          | Throw e => Throw e
          | Ok (Some selection, lines) =>
              Ok (out, call_quackPage hardstop error selection, lines)
          | Ok (None, lines) => Ok (out, stay hardstop error, lines)
          end
      else if Ascii.eqb select "5" then Ok (out, page_return, lines)
      else Ok (out, stay hardstop invalid_input_entered, lines)
  end.

(** The loop of [userPage].  [quacks_at k] and [follows_at k] are what the
    store returns in pass [k]; [None] when [fuel] passes do not end the
    page. *)
Fixpoint userPage_loop (fuel : nat) (quacks_at : nat -> list A)
    (follows_at : nat -> list Z) (user_id usr : Z) (pass : nat)
    (hardstop : Z) (error : user_page_error) (lines : list string)
  : option (result page_end) :=
  match fuel with
  | O => None
  | S fuel' =>
      match userPage_pass (quacks_at pass) (follows_at pass) user_id usr
                          hardstop error lines with
      | Throw e => Some (Throw e)
      | Ok (_, page_return, lines') => Some (Ok (returned lines'))
      | Ok (_, stay hardstop' error', lines') =>
          userPage_loop fuel' quacks_at follows_at user_id usr (S pass)
                        hardstop' error' lines'
      | Ok (_, call_follow hardstop', lines') =>
          userPage_loop fuel' quacks_at follows_at user_id usr (S pass)
                        hardstop' no_error lines'
      | Ok (_, call_quackPage hardstop' error' selection, lines') =>
          match (if selection <? 0 then None
                 else nth_error (quacks_at pass) (Z.to_nat selection)) with
          | Some row =>
              open_page row lines'
                (userPage_loop fuel' quacks_at follows_at user_id usr (S pass)
                               hardstop' error')
          | None => Some (Ok (outside_results selection))
          end
      end
  end.

(** [userPage] starts with [hardstop = 3] and no message. *)
Definition userPage (fuel : nat) (quacks_at : nat -> list A)
    (follows_at : nat -> list Z) (user_id usr : Z) (lines : list string)
  : option (result page_end) :=
  userPage_loop fuel quacks_at follows_at user_id usr 0 3 no_error lines.

(** The values [hardstop] takes. *)
Definition hardstop_ok (hardstop : Z) : Prop :=
  0 <= hardstop <= INT32_MAX - 3 /\ hardstop mod 3 = 0.

End Results.

Arguments size32 {A} results.
Arguments size_minus32 {A} results k.
Arguments skipped {A} results DisplayCount i.
Arguments print_rows {A} show results rest DisplayCount i.
Arguments select_loop {A} results i input lines.
Arguments menu {A} results DisplayCount lines.
Arguments display_pass {A} show results DisplayCount lines.
Arguments open_page {A} visit row lines continue_with.
Arguments display_loop {A} show visit fuel results DisplayCount lines.
Arguments followersPage {A} show visit fuel results lines.
Arguments searchPage {A} show visit fuel search lines.
Arguments numbered {A} first rest.
Arguments rows_between {A} lo hi results.
Arguments count_ok {A} results DisplayCount.
Arguments print_quacks {A} show users_quacks rest hardstop i.
Arguments userPage_pass {A} show users_quacks follows_of_viewer user_id usr
  hardstop error lines.
Arguments userPage_loop {A} show visit fuel quacks_at follows_at user_id usr
  pass hardstop error lines.
Arguments userPage {A} show visit fuel quacks_at follows_at user_id usr lines.

(** Seven results, rows that are written without an exception, and opened
    pages that return on the line "5" and never without it. *)
Definition example_results : list Z := [10; 20; 30; 40; 50; 60; 70].

Definition example_show (number : Z) (row : Z) : result string := Ok EmptyString.

Fixpoint example_visit (row : Z) (lines : list string)
  : option (result (list string)) :=
  match lines with
  | [] => None
  | line :: rest =>
      if String.eqb line "5" then Some (Ok rest) else example_visit row rest
  end.

End Pages.

(* ================================================================= *)
(** ** The row of a quack on Quacker::searchQuacksPage and Quacker::userPage *)

Module Rows.

(** The members of [Pond::Quack] that the pages print. *)
Record Quack : Type := mk_Quack {
  tid : Z;
  writer_id : Z;
  date : string;
  time : string;
  text : string
}.

(** [oss << n] for an [int]. *)
Definition int_to_string (n : Z) : string :=
  if n <? 0 then String "-" (Clock.decimal_string 10 (- n))
  else Clock.decimal_string 10 n.

(** [for (int i = 0; i < n; ++i) oss << '-';] *)
Fixpoint dashes (n : nat) : string :=
  match n with
  | O => EmptyString
  | S k => String "-" (dashes k)
  end.

Definition or_Unknown (s : string) : string :=
  if Input.is_empty s then "Unknown"%string else s.

Section Users.

(** The table [users] and whether the statement of [getUsername] prepares. *)
Variable users : list Accounts.users_row.
Variable prepared : bool.

(** [(pond.getUsername(w) != "") ? pond.getUsername(w) : "Unknown"]. *)
Definition author (quack : Quack) : string :=
  or_Unknown (Accounts.getUsername users prepared (writer_id quack)).

(** The text of [oss] when [std::string(69 - oss.str().length(), ' ')] is
    built. *)
Definition quack_header (number : Z) (quack : Quack) : string :=
  (int_to_string number ++ "." ++ nl
   ++ "Quack ID: " ++ int_to_string (tid quack)
   ++ ", Author: " ++ author quack)%string.

(** The row of a quack under its number.  The count of the padding is
    unsigned: a header of more than 69 bytes asks for a string no
    [std::string] can hold. *)
Definition show_quack (number : Z) (quack : Quack) : result string :=
  let oss := quack_header number quack in
  if (69 <? String.length oss)%nat then Throw length_error
  else
    Ok (oss ++ spaces (69 - String.length oss)
        ++ "Date and Time: " ++ or_Unknown (date quack)
        ++ " " ++ or_Unknown (time quack) ++ nl ++ nl
        ++ "Text: " ++ Console.formatTweetText (text quack) 94 ++ nl
        ++ nl ++ dashes 100 ++ nl)%string.

End Users.

(** A string that does not go on with a digit. *)
Definition no_digit_ahead (rest : string) : Prop :=
  match rest with
  | EmptyString => True
  | String c _ => is_digit c = false
  end.

Local Open Scope string_scope.

Definition example_quacks : list Quack :=
  [mk_Quack 7 1 "2024-11-03" "12:34:56" "hello pond";
   mk_Quack 8 3 "2024-11-04" "08:00:00" "a second quack"].

(** The account 3 has a name of 46 bytes. *)
Definition example_names : list Accounts.users_row :=
  [Accounts.mk_users_row 1 (Some "ann") None None None;
   Accounts.mk_users_row 3 (Some "a name that takes forty-six bytes of the table")
                         None None None].

Local Close Scope string_scope.

End Rows.


(* ================================================================= *)
(** ** The feed of Pond::getFeed on Quacker::mainPage *)

Module MainPage.

Import Feed Pagination.

Local Open Scope string_scope.

(** A store with two quacks: ann (10) posted quack 5 on 2 January, bob (20)
    quack 6 on 3 January; cat (30) follows both. *)
Definition example_two_quacks : database :=
  mk_database
    [mk_tweet 5 10 (Some "2024-01-02") (Some "10:00:00") (Some "first");
     mk_tweet 6 20 (Some "2024-01-03") (Some "10:00:00") (Some "second")]
    []
    [mk_follows 30 10; mk_follows 30 20]
    [mk_user 10 (Some "ann"); mk_user 20 (Some "bob"); mk_user 30 (Some "cat")].

(** The feed [getFeed] returns to cat. *)
Definition example_pond_feed : list string :=
  Eval vm_compute in
    match getFeed example_two_quacks true 30 with
    | Ok feed => feed
    | Throw _ => []
    end.

(** The same store, had bob signed up under the name "Quack Id: 5". *)
Definition example_named_like_a_row : database :=
  mk_database (tweets example_two_quacks) [] (follows example_two_quacks)
    [mk_user 10 (Some "ann"); mk_user 20 (Some "Quack Id: 5");
     mk_user 30 (Some "cat")].

Local Close Scope string_scope.

End MainPage.
(* ################################################################# *)
(** * Part II: properties *)

(* ================================================================= *)
(** ** Facts on 32-bit arithmetic *)

Module Int32Facts.

Lemma wrap_small (z : Z) : in_range z -> wrap z = z.
Proof.
  unfold in_range, INT32_MIN, INT32_MAX, wrap. intros H.
  rewrite Z.mod_small; lia.
Qed.

Lemma wrap_in_range (z : Z) : in_range (wrap z).
Proof.
  unfold in_range, INT32_MIN, INT32_MAX, wrap.
  pose proof (Z.mod_pos_bound (z + 2147483648) 4294967296 ltac:(lia)).
  lia.
Qed.

Lemma add_small (a b : Z) : in_range (a + b) -> add a b = a + b.
Proof. apply wrap_small. Qed.

Lemma sub_small (a b : Z) : in_range (a - b) -> sub a b = a - b.
Proof. apply wrap_small. Qed.

Lemma wrap_of_nat_le (n : nat) : wrap (Z.of_nat n) <= Z.of_nat n.
Proof.
  unfold wrap.
  pose proof (Z.mod_le (Z.of_nat n + 2147483648) 4294967296 ltac:(lia) ltac:(lia)).
  lia.
Qed.

End Int32Facts.

Import Int32Facts.

(** Rewrites the 32-bit operations whose result provably stays in range. *)
Ltac in32 := unfold in_range, INT32_MIN, INT32_MAX in *; lia.

Ltac unwrap :=
  repeat match goal with
  | |- context [add ?a ?b] => rewrite (add_small a b) by in32
  | |- context [sub ?a ?b] => rewrite (sub_small a b) by in32
  | |- context [wrap ?a] => rewrite (wrap_small a) by in32
  end.

(* ================================================================= *)
(** ** The identifier allocator *)

Module AllocatorFacts.

Import Allocator.

Lemma sorted_head_le (x : Z) (rest : list Z) :
  Sorted Z.le (x :: rest) -> Sorted Z.le rest /\ Forall (Z.le x) rest.
Proof.
  intros H. apply Sorted_StronglySorted in H.
  - inversion H; subst. split; [apply StronglySorted_Sorted|]; assumption.
  - intros a b c. apply Z.le_trans.
Qed.

(** The candidate never leaves the [int32_t] range. *)
Lemma scan_up_in_range (rows : list Z) :
  forall c, in_range c -> in_range (fst (scan_up c rows)).
Proof.
  induction rows as [|x rest IH]; intros c Hc; simpl; [exact Hc|].
  destruct (x =? c).
  - apply IH, wrap_in_range.
  - destruct (x >? c); [exact Hc | apply IH, Hc].
Qed.

(** The invariant of the first loop on an ascending sequence: the candidate
    only moves over identifiers that are present, and stops on one that is
    absent. *)
Lemma scan_up_spec (rows : list Z) :
  forall c,
    Sorted Z.le rows ->
    (exists k, c <= k <= INT32_MAX /\ ~ In k rows) ->
    INT32_MIN <= c ->
    let c' := fst (scan_up c rows) in
    c <= c' <= INT32_MAX /\ ~ In c' rows /\ forall j, c <= j < c' -> In j rows.
Proof.
  induction rows as [|x rest IH]; intros c Hs [k [Hk Hnk]] Hlo; simpl.
  - repeat split; try lia; try tauto.
  - apply sorted_head_le in Hs. destruct Hs as [Hs Hall].
    destruct (Z.eqb_spec x c) as [->|Hne].
    + assert (Hkc : k <> c) by (intros ->; apply Hnk; now left).
      rewrite add_small by in32.
      assert (Hk' : exists k, c + 1 <= k <= INT32_MAX /\ ~ In k rest).
      { exists k. split; [lia|]. intros Hin; apply Hnk; now right. }
      destruct (IH (c + 1) Hs Hk' ltac:(lia)) as [Hr [Hn Hj]].
      simpl in *. repeat split; try lia.
      * intros [He|Hin]; [lia | now apply Hn].
      * intros j Hjr. destruct (Z.eq_dec j c) as [->|]; [now left|].
        right. apply Hj. lia.
    + destruct (x >? c) eqn:Hgt; simpl.
      * apply Z.gtb_lt in Hgt. repeat split; try lia.
        intros [He|Hin]; [lia|].
        rewrite Forall_forall in Hall. specialize (Hall _ Hin). lia.
      * assert (x < c) by (rewrite Z.gtb_ltb in Hgt; apply Z.ltb_ge in Hgt; lia).
        assert (Hk' : exists k, c <= k <= INT32_MAX /\ ~ In k rest).
        { exists k. split; [lia|]. intros Hin; apply Hnk; now right. }
        destruct (IH c Hs Hk' Hlo) as [Hr [Hn Hj]].
        simpl in *. repeat split; try lia.
        -- intros [He|Hin]; [lia | now apply Hn].
        -- intros j Hjr. right. now apply Hj.
Qed.

(** A sequence without a gap moves the candidate over all of it. *)
Lemma scan_up_iota (n : nat) :
  forall c, in_range c -> c + Z.of_nat n <= INT32_MAX + 1 ->
    scan_up c (iota c n) = (wrap (c + Z.of_nat n), false).
Proof.
  induction n as [|n IH]; intros c Hc Hn.
  - simpl. rewrite Z.add_0_r, wrap_small by exact Hc. reflexivity.
  - cbn [iota scan_up]. rewrite Z.eqb_refl. unfold add.
    destruct n as [|m].
    + cbn [iota scan_up]. f_equal; f_equal; lia.
    + rewrite (wrap_small (c + 1)) by in32.
      rewrite IH by in32. f_equal; f_equal; lia.
Qed.

(** The guard [unique_id > INT32_MAX] of the second scan is never true of an
    [int32_t]: the result is that of the first scan, whatever the store
    holds. *)
Lemma negative_pool_never_read (rows : list Z) (q_neg : query_result) :
  get_unique_user_id (Some rows) q_neg = (true, fst (scan_up 1 rows)).
Proof.
  unfold get_unique_user_id.
  pose proof (scan_up_in_range rows 1 ltac:(in32)) as Hr.
  destruct (scan_up 1 rows) as [c found]. simpl in *.
  replace (c >? INT32_MAX) with false.
  - now rewrite andb_false_r.
  - symmetry. rewrite Z.gtb_ltb. apply Z.ltb_ge. in32.
Qed.

(** C5, as amended: on an ascending sequence of identifiers that leaves some
    positive [int32_t] unused, [get_unique_user_id] succeeds and returns the
    smallest positive integer that is not in the sequence. *)
Theorem get_unique_user_id_smallest_positive (rows : list Z) (q_neg : query_result) :
  Sorted Z.le rows ->
  (exists k, 1 <= k <= INT32_MAX /\ ~ In k rows) ->
  exists c, get_unique_user_id (Some rows) q_neg = (true, c)
            /\ smallest_positive_missing rows c.
Proof.
  intros Hs Hk. exists (fst (scan_up 1 rows)).
  split; [apply negative_pool_never_read|].
  destruct (scan_up_spec rows 1 Hs Hk ltac:(in32)) as [Hr [Hn Hj]].
  unfold smallest_positive_missing. repeat split; try assumption; lia.
Qed.

Lemma get_unique_user_id_smallest_positive_witness :
  exists c, get_unique_user_id (Some [1; 2; 4]) (Some []) = (true, c)
            /\ smallest_positive_missing [1; 2; 4] c.
Proof.
  apply (get_unique_user_id_smallest_positive [1; 2; 4] (Some [])).
  - repeat constructor; lia.
  - exists 3. split; [unfold INT32_MAX; lia|].
    simpl. intros [H|[H|[H|[]]]]; discriminate H.
Defined.

(** The three allocations the specification lists. *)
Example allocate_1_2_4 : get_unique_user_id (Some [1; 2; 4]) (Some []) = (true, 3).
Proof. reflexivity. Qed.

Example allocate_1_2_3 : get_unique_user_id (Some [1; 2; 3]) (Some []) = (true, 4).
Proof. reflexivity. Qed.

Example allocate_empty : get_unique_user_id (Some []) (Some []) = (true, 1).
Proof. reflexivity. Qed.

(** C5, as the specification states it, fails: with no identifier in use the
    smallest unused non-negative integer is 0, and the allocator returns 1. *)
Lemma smallest_nonneg_counterexample :
  ~ (forall rows : list Z,
       Sorted Z.le rows -> Forall (fun x => 0 <= x) rows ->
       smallest_nonneg_missing rows (snd (get_unique_user_id (Some rows) (Some [])))).
Proof.
  intros H. specialize (H [] ltac:(constructor) ltac:(constructor)).
  destruct H as [_ [_ H]]. simpl in H. apply (H 0). lia.
Qed.

(** C6: with every identifier from 1 to [INT32_MAX] in use and no negative
    one, the candidate wraps to [INT32_MIN], the guard of the negative scan
    is false, and [INT32_MIN] is returned where the scan from -1 would give
    -1. *)
Theorem get_unique_user_id_dense :
  get_unique_user_id (Some (iota 1 (Z.to_nat INT32_MAX))) (Some []) = (true, INT32_MIN)
  /\ scan_down (-1) [] = -1.
Proof.
  split; [|reflexivity].
  rewrite negative_pool_never_read.
  rewrite scan_up_iota.
  - rewrite Z2Nat.id by (unfold INT32_MAX; lia). reflexivity.
  - in32.
  - rewrite Z2Nat.id by (unfold INT32_MAX; lia). lia.
Qed.

End AllocatorFacts.

(* ================================================================= *)
(** ** The feed window *)

Module PaginationFacts.

Import Pagination.

(** *** Lists and blocks *)

Lemma skipn_nth_cons {A : Type} (d : A) (l : list A) :
  forall m, (m < List.length l)%nat -> skipn m l = nth m l d :: skipn (S m) l.
Proof.
  induction l as [|x l IH]; intros m Hm; simpl in Hm; [lia|].
  destruct m as [|m]; [reflexivity|].
  change (skipn (S m) (x :: l)) with (skipn m l).
  rewrite (IH m) by lia. reflexivity.
Qed.

Lemma nth_firstn_lt {A : Type} (d : A) (l : list A) :
  forall b j, (j < b)%nat -> nth j (firstn b l) d = nth j l d.
Proof.
  induction l as [|x l IH]; intros b j Hj.
  - now rewrite firstn_nil.
  - destruct b as [|b]; [lia|]. destruct j as [|j]; [reflexivity|].
    simpl. apply IH. lia.
Qed.

Lemma blocks_between_empty (feed : list string) (lo hi : Z) :
  hi <= Z.max lo 0 -> blocks_between feed lo hi = [].
Proof.
  intros H. unfold blocks_between.
  replace (Z.to_nat (hi - Z.max lo 0)) with O by lia. reflexivity.
Qed.

Lemma blocks_between_cons (feed : list string) (lo hi : Z) :
  0 <= lo < hi ->
  blocks_between feed lo hi
  = (lo + 1, nth (Z.to_nat lo) feed EmptyString) :: blocks_between feed (lo + 1) hi.
Proof.
  intros H. unfold blocks_between.
  replace (Z.max lo 0) with lo by lia.
  replace (Z.max (lo + 1) 0) with (lo + 1) by lia.
  replace (Z.to_nat (hi - lo)) with (S (Z.to_nat (hi - (lo + 1)))) by lia.
  cbn [seq map]. f_equal.
  - f_equal; [lia|]. f_equal. lia.
  - rewrite <- seq_shift, map_map. apply map_ext. intros k.
    f_equal; [lia|]. f_equal. lia.
Qed.

Lemma in_blocks_between (feed : list string) (lo hi p : Z) (s : string) :
  In (p, s) (blocks_between feed lo hi)
  <-> Z.max lo 0 < p <= hi /\ s = nth (Z.to_nat (p - 1)) feed EmptyString.
Proof.
  unfold blocks_between. rewrite in_map_iff. split.
  - intros [k [Hk Hin]]. apply in_seq in Hin. inversion Hk; subst. split; [lia|reflexivity].
  - intros [Hp ->]. exists (Z.to_nat (p - (Z.max lo 0 + 1))). split.
    + f_equal; [lia|]. f_equal. lia.
    + apply in_seq. lia.
Qed.

Lemma blocks_between_length (feed : list string) (lo hi : Z) :
  List.length (blocks_between feed lo hi) = Z.to_nat (hi - Z.max lo 0).
Proof. unfold blocks_between. now rewrite length_map, length_seq. Qed.

(** *** Reading the identifiers *)

Lemma read_ids_nth (l : list string) :
  forall ids, read_ids l = Ok ids ->
    List.length ids = List.length l /\
    forall j, (j < List.length l)%nat ->
      exists id, nth_error ids j = Some id
                 /\ extractQuackID (nth j l EmptyString) = Ok id.
Proof.
  induction l as [|s l IH]; intros ids H; simpl in H.
  - inversion H; subst. split; [reflexivity|]. intros j Hj; simpl in Hj; lia.
  - destruct (extractQuackID s) as [id|e] eqn:Hid; simpl in H; [|discriminate].
    destruct (read_ids l) as [rest|e] eqn:Hrest; simpl in H; [|discriminate].
    inversion H; subst. destruct (IH rest eq_refl) as [Hlen Hnth].
    split; [simpl; lia|]. intros j Hj. destruct j as [|j].
    + exists id. split; [reflexivity|exact Hid].
    + simpl in Hj. destruct (Hnth j ltac:(lia)) as [id' [H1 H2]].
      exists id'. split; assumption.
Qed.

Lemma read_ids_total (l : list string) :
  Forall (fun s => exists id, extractQuackID s = Ok id) l ->
  exists ids, read_ids l = Ok ids.
Proof.
  induction 1 as [|s l [id Hid] _ [ids Hids]]; simpl.
  - now exists [].
  - rewrite Hid, Hids. simpl. now exists (id :: ids).
Qed.

Lemma ids_readable_firstn (feed : list string) (b : nat) :
  ids_readable feed -> exists ids, read_ids (firstn b feed) = Ok ids.
Proof.
  intros H. apply read_ids_total. apply Forall_forall. intros s Hs.
  unfold ids_readable in H. rewrite Forall_forall in H.
  apply H. rewrite <- (firstn_skipn b feed). apply in_or_app. now left.
Qed.

(** *** The loop of [processFeed] *)

Lemma feed_loop_eq (feed : list string) (bound : Z) :
  bound <= Z.of_nat (List.length feed) ->
  bound + 1 <= INT32_MAX ->
  forall k i ids oss,
    1 <= i -> i - 1 + Z.of_nat k = bound ->
    feed_loop k feed bound i ids oss
    = (new <- read_ids (firstn k (skipn (Z.to_nat (i - 1)) feed)) ;;
       Ok (bound + 1, ids ++ new,
           oss ++ blocks_between feed (Z.max (i - 1) (bound - 5)) bound)).
Proof.
  intros Hlen Hmax. induction k as [|k IH]; intros i ids oss Hi Hk.
  - simpl. rewrite app_nil_r, blocks_between_empty by lia.
    rewrite app_nil_r. do 2 f_equal. f_equal. lia.
  - cbn [feed_loop].
    rewrite (skipn_nth_cons EmptyString) by lia.
    cbn [firstn read_ids].
    destruct (extractQuackID (nth (Z.to_nat (i - 1)) feed EmptyString)) as [id|e];
      [|reflexivity].
    cbn [bind]. unwrap.
    replace (i + 1 - 1) with i by lia.
    replace (Z.to_nat (i + 1 - 2)) with (Z.to_nat (i - 1)) by lia.
    replace (S (Z.to_nat (i - 1))) with (Z.to_nat (i + 1 - 1)) by lia.
    destruct (bound - 5 >=? i) eqn:Hskip.
    + rewrite IH by lia.
      destruct (read_ids _) as [new|e]; [|reflexivity]. cbn [bind].
      rewrite <- app_assoc. cbn [app].
      replace (Z.max (i + 1 - 1) (bound - 5)) with (Z.max (i - 1) (bound - 5)) by lia.
      reflexivity.
    + rewrite IH by lia.
      destruct (read_ids _) as [new|e]; [|reflexivity]. cbn [bind].
      rewrite <- !app_assoc. cbn [app].
      replace (Z.max (i - 1) (bound - 5)) with (i - 1) by lia.
      replace (Z.max (i + 1 - 1) (bound - 5)) with (i - 1 + 1) by lia.
      rewrite (blocks_between_cons feed (i - 1) bound) by lia.
      replace (i - 1 + 1) with i by lia. reflexivity.
Qed.

Lemma run_feed_loop_eq (feed : list string) (bound : Z) :
  0 <= bound <= Z.of_nat (List.length feed) ->
  bound + 1 <= INT32_MAX ->
  run_feed_loop feed bound
  = (new <- read_ids (firstn (Z.to_nat bound) feed) ;;
     Ok (bound + 1, new, blocks_between feed (bound - 5) bound)).
Proof.
  intros Hb Hmax. unfold run_feed_loop.
  rewrite feed_loop_eq by lia. cbn [Z.to_nat Z.sub Z.add Z.opp Z.pos_sub skipn app].
  destruct (read_ids _) as [new|e]; [|reflexivity]. cbn [bind app].
  do 2 f_equal. unfold blocks_between. f_equal; [|f_equal; lia].
  replace (Z.max (Z.max 0 (bound - 5)) 0) with (Z.max (bound - 5) 0) by lia.
  reflexivity.
Qed.

(** *** [processFeed] in closed form *)

Lemma processFeed_eq (feed : list string) (FeedDisplayCount : Z) (error : string) :
  fits_int32 feed -> in_range FeedDisplayCount ->
  processFeed feed FeedDisplayCount error
  = let n := Z.of_nat (List.length feed) in
    if FeedDisplayCount >=? n + 5 then
      new <- read_ids feed ;;
      Ok (mk_view (FeedDisplayCount - 5) no_more_quacks (n + 1) new
                  (blocks_between feed (n - 5) n))
    else if FeedDisplayCount <=? 0 then
      Ok (mk_view 0 (if FeedDisplayCount =? 0 then error else already_no_quacks) 1 [] [])
    else
      let b := Z.min FeedDisplayCount n in
      new <- read_ids (firstn (Z.to_nat b) feed) ;;
      Ok (mk_view FeedDisplayCount error (b + 1) new (blocks_between feed (b - 5) b)).
Proof.
  unfold fits_int32. intros Hfit Hr. unfold processFeed.
  set (n := Z.of_nat (List.length feed)) in *.
  assert (Hn : 0 <= n) by (subst n; lia).
  cbv zeta. unwrap. rewrite !Z.geb_leb, !Z.gtb_ltb.
  destruct (Z.leb_spec (n + 5) FeedDisplayCount) as [H1|H1].
  - unwrap. rewrite Z.max_r by lia.
    rewrite run_feed_loop_eq by in32.
    unfold n at 1. rewrite Nat2Z.id, firstn_all.
    destruct (read_ids feed) as [new|e]; reflexivity.
  - destruct (Z.leb_spec FeedDisplayCount 0) as [H2|H2].
    + destruct (Z.leb_spec n FeedDisplayCount) as [H3|H3]; cbn [andb].
      * destruct (Z.leb_spec FeedDisplayCount (n + 4)) as [H4|H4]; [|lia].
        assert (FeedDisplayCount = 0) by lia. assert (n = 0) by lia.
        rewrite run_feed_loop_eq by in32.
        replace (Z.min FeedDisplayCount n) with 0 by lia.
        cbn [Z.to_nat firstn read_ids bind].
        rewrite blocks_between_empty by lia. subst FeedDisplayCount. reflexivity.
      * destruct (Z.ltb_spec FeedDisplayCount n) as [H4|H4]; [|lia].
        destruct (Z.ltb_spec 0 FeedDisplayCount) as [H5|H5]; [lia|]. reflexivity.
    + assert (Hgo :
        (st <- run_feed_loop feed (Z.min FeedDisplayCount n) ;;
         (let '(i, ids, oss) := st in Ok (mk_view FeedDisplayCount error i ids oss)))
        = (new <- read_ids (firstn (Z.to_nat (Z.min FeedDisplayCount n)) feed) ;;
           Ok (mk_view FeedDisplayCount error (Z.min FeedDisplayCount n + 1) new
                 (blocks_between feed (Z.min FeedDisplayCount n - 5)
                                 (Z.min FeedDisplayCount n))))).
      { rewrite run_feed_loop_eq by in32.
        destruct (read_ids _) as [new|e]; reflexivity. }
      destruct (Z.leb_spec n FeedDisplayCount) as [H3|H3]; cbn [andb].
      * destruct (Z.leb_spec FeedDisplayCount (n + 4)) as [H4|H4]; [exact Hgo|lia].
      * destruct (Z.ltb_spec FeedDisplayCount n) as [H4|H4]; [|lia].
        destruct (Z.ltb_spec 0 FeedDisplayCount) as [H5|H5]; [exact Hgo|lia].
Qed.

(** What every returned view looks like: the loop ran over the first [b]
    feed strings, recorded their identifiers, and printed the last five of
    them at most. *)
Lemma view_shape (feed : list string) (FeedDisplayCount : Z) (error : string)
    (v : feed_view) :
  fits_int32 feed -> in_range FeedDisplayCount ->
  processFeed feed FeedDisplayCount error = Ok v ->
  exists b,
    0 <= b <= Z.of_nat (List.length feed)
    /\ out_i v = b + 1
    /\ read_ids (firstn (Z.to_nat b) feed) = Ok (feed_quack_ids v)
    /\ out_oss v = blocks_between feed (b - 5) b
    /\ (0 < out_FeedDisplayCount v ->
        b = Z.min (out_FeedDisplayCount v) (Z.of_nat (List.length feed))).
Proof.
  intros Hfit Hr H. rewrite processFeed_eq in H by assumption. cbv zeta in H.
  rewrite !Z.geb_leb in H.
  set (n := Z.of_nat (List.length feed)) in *.
  destruct (Z.leb_spec (n + 5) FeedDisplayCount) as [H1|H1].
  - destruct (read_ids feed) as [new|e] eqn:Hnew; [|discriminate].
    inversion H; subst v; clear H. exists n. cbn.
    repeat split; try lia;
      try (unfold n; now rewrite Nat2Z.id, firstn_all).
  - destruct (Z.leb_spec FeedDisplayCount 0) as [H2|H2].
    + inversion H; subst v; clear H. exists 0. cbn.
      repeat split; try lia; try (now rewrite blocks_between_empty by lia).
    + destruct (read_ids _) as [new|e] eqn:Hnew; [|discriminate].
      inversion H; subst v; clear H. exists (Z.min FeedDisplayCount n). cbn.
      repeat split; try lia; try exact Hnew.
Qed.

(** *** The selection prompt *)

Lemma is_digit_value (c : ascii) : is_digit c = true -> 0 <= digit_value c <= 9.
Proof.
  unfold is_digit, digit_value. cbv zeta.
  rewrite andb_true_iff, !Nat.leb_le. lia.
Qed.

Lemma is_nonzero_digit_value (c : ascii) :
  is_nonzero_digit c = true -> 1 <= digit_value c <= 9.
Proof.
  unfold is_nonzero_digit, digit_value. cbv zeta.
  rewrite andb_true_iff, !Nat.leb_le. lia.
Qed.

Lemma decimal_ge (s : string) :
  forall acc, 0 <= acc -> all_digits s = true -> acc <= decimal acc s.
Proof.
  induction s as [|c s IH]; intros acc Hacc H; cbn [decimal all_digits] in *; [lia|].
  apply andb_true_iff in H. destruct H as [Hc Hs].
  apply is_digit_value in Hc.
  specialize (IH (10 * acc + digit_value c) ltac:(lia) Hs). lia.
Qed.

Lemma positive_integer_ge_1 (input : string) :
  positive_integer_regex input = true -> 1 <= decimal 0 input.
Proof.
  destruct input as [|c rest]; cbn [positive_integer_regex decimal]; [discriminate|].
  intros H. apply andb_true_iff in H. destruct H as [Hc Hs].
  apply is_nonzero_digit_value in Hc.
  pose proof (decimal_ge rest (10 * 0 + digit_value c) ltac:(lia) Hs). lia.
Qed.

Lemma stoi_ok (input : string) (r : Z) :
  stoi input = Ok r -> r = decimal 0 input /\ r <= INT32_MAX.
Proof.
  unfold stoi. cbv zeta. rewrite Z.gtb_ltb.
  destruct (Z.ltb_spec INT32_MAX (decimal 0 input)) as [Hgt|Hle]; [discriminate|].
  intros Heq; inversion Heq; subst. split; [reflexivity|lia].
Qed.

(** The prompt accepts the number [r] exactly when it lies among the last
    five of the [b] rows the loop went through, and then hands out the
    identifier recorded for row [r]. *)
Lemma select_from_feed_eq (v : feed_view) (input : string) (r b : Z) (ids : list Z) :
  positive_integer_regex input = true ->
  stoi input = Ok r ->
  0 <= b -> b + 10 <= INT32_MAX ->
  out_i v = b + 1 ->
  feed_quack_ids v = ids -> List.length ids = Z.to_nat b ->
  select_from_feed v input
  = if (b - 5 <? r) && (r <=? b)
    then match nth_error ids (Z.to_nat (r - 1)) with
         | Some id => Ok (open_quack id)
         | None => Ok outside_vector
         end
    else Ok input_is_invalid.
Proof.
  intros Hre Hst Hb Hmax Hi Hids Hlen.
  pose proof (positive_integer_ge_1 input Hre) as H1.
  destruct (stoi_ok input r Hst) as [Hr Hrmax]. rewrite <- Hr in H1.
  unfold select_from_feed. destruct input as [|c rest]; [discriminate|].
  rewrite Hre, Hst. cbn [negb bind]. rewrite Hi, Hids.
  unwrap. rewrite !Z.gtb_ltb.
  destruct (Z.ltb_spec (b + 1 - 2) (r - 1)) as [H2|H2]; cbn [orb].
  - destruct (Z.ltb_spec (b - 5) r); cbn [andb]; [|reflexivity].
    destruct (Z.leb_spec r b); [lia|reflexivity].
  - destruct (Z.ltb_spec (r - 1) (b + 1 - 6)) as [H3|H3].
    + destruct (Z.ltb_spec (b - 5) r); [lia|reflexivity].
    + destruct (Z.ltb_spec (b - 5) r); [|lia]. cbn [andb].
      destruct (Z.leb_spec r b); [|lia].
      destruct (nth_error ids (Z.to_nat (r - 1))); [|reflexivity].
      destruct (Z.ltb_spec (r - 1) 0); [lia|reflexivity].
Qed.

(** *** The counter and the message after a call *)

Lemma processFeed_returns (feed : list string) (FeedDisplayCount : Z) (error : string) :
  fits_int32 feed -> in_range FeedDisplayCount -> ids_readable feed ->
  exists v, processFeed feed FeedDisplayCount error = Ok v.
Proof.
  intros Hfit Hr Hids. rewrite processFeed_eq by assumption. cbv zeta.
  destruct (_ >=? _).
  - destruct (read_ids_total feed Hids) as [ids ->]. cbn. eauto.
  - destruct (_ <=? _); [eauto|].
    destruct (ids_readable_firstn feed
                (Z.to_nat (Z.min FeedDisplayCount (Z.of_nat (List.length feed)))) Hids)
      as [ids ->].
    cbn. eauto.
Qed.

Lemma processFeed_count (feed : list string) (FeedDisplayCount : Z) (error : string)
    (v : feed_view) :
  fits_int32 feed -> in_range FeedDisplayCount ->
  processFeed feed FeedDisplayCount error = Ok v ->
  let n := Z.of_nat (List.length feed) in
  (n + 5 <= FeedDisplayCount ->
     out_FeedDisplayCount v = FeedDisplayCount - 5 /\ out_error v = no_more_quacks)
  /\ (FeedDisplayCount < n + 5 -> FeedDisplayCount <= 0 ->
        out_FeedDisplayCount v = 0
        /\ out_error v = if FeedDisplayCount =? 0 then error else already_no_quacks)
  /\ (FeedDisplayCount < n + 5 -> 0 < FeedDisplayCount ->
        out_FeedDisplayCount v = FeedDisplayCount /\ out_error v = error).
Proof.
  intros Hfit Hr H. rewrite processFeed_eq in H by assumption. cbv zeta in *.
  rewrite Z.geb_leb in H.
  destruct (Z.leb_spec (Z.of_nat (List.length feed) + 5) FeedDisplayCount) as [H1|H1].
  - destruct (read_ids feed); [|discriminate]. inversion H; subst v. cbn.
    repeat split; lia.
  - destruct (Z.leb_spec FeedDisplayCount 0) as [H2|H2].
    + inversion H; subst v. cbn. repeat split; lia.
    + destruct (read_ids _); [|discriminate]. inversion H; subst v. cbn.
      repeat split; lia.
Qed.

Lemma already_no_quacks_not_empty : EmptyString <> already_no_quacks.
Proof. intros H. vm_compute in H. discriminate H. Qed.

Lemma fits_int32_shorter (feed feed' : list string) :
  (List.length feed <= List.length feed')%nat -> fits_int32 feed' -> fits_int32 feed.
Proof. unfold fits_int32. lia. Qed.

(** The window the menu loop keeps: a non-negative multiple of five, less
    than a page beyond the end of the feed. *)
Lemma reachable_window (feed : list string) (v : feed_view) :
  reachable feed v -> fits_int32 feed ->
  0 <= out_FeedDisplayCount v
  /\ out_FeedDisplayCount v mod 5 = 0
  /\ out_FeedDisplayCount v < Z.of_nat (List.length feed) + 5.
Proof.
  induction 1 as [feed v H | feed v feed' v' Hv IH Hlen H
                 | feed v feed' v' Hv IH Hlen H | feed v feed' error v' Hv IH Hlen H];
    intros Hfit.
  - destruct (processFeed_count feed 5 EmptyString v Hfit ltac:(in32) H) as [C1 [C2 C3]].
    unfold fits_int32 in Hfit.
    destruct (Z.le_gt_cases (Z.of_nat (List.length feed) + 5) 5) as [Hc|Hc].
    + destruct (C1 Hc) as [-> _]. cbn. lia.
    + destruct (C3 Hc ltac:(lia)) as [-> _]. cbn. lia.
  - specialize (IH (fits_int32_shorter _ _ Hlen Hfit)).
    destruct IH as [I1 [I2 I3]]. unfold see_more in H. unfold fits_int32 in Hfit.
    rewrite add_small in H by in32.
    destruct (processFeed_count feed' (out_FeedDisplayCount v + 5) EmptyString v'
                Hfit ltac:(in32) H) as [C1 [C2 C3]].
    destruct (Z.le_gt_cases (Z.of_nat (List.length feed') + 5)
                            (out_FeedDisplayCount v + 5)) as [Hc|Hc].
    + destruct (C1 Hc) as [-> _]. Z.div_mod_to_equations. lia.
    + destruct (C3 Hc ltac:(lia)) as [-> _]. Z.div_mod_to_equations. lia.
  - specialize (IH (fits_int32_shorter _ _ Hlen Hfit)).
    destruct IH as [I1 [I2 I3]]. unfold see_less in H. unfold fits_int32 in Hfit.
    rewrite sub_small in H by in32.
    destruct (processFeed_count feed' (out_FeedDisplayCount v - 5) EmptyString v'
                Hfit ltac:(in32) H) as [C1 [C2 C3]].
    destruct (Z.le_gt_cases (out_FeedDisplayCount v - 5) 0) as [Hc|Hc].
    + destruct (C2 ltac:(lia) Hc) as [-> _]. cbn. lia.
    + destruct (C3 ltac:(lia) Hc) as [-> _]. Z.div_mod_to_equations. lia.
  - specialize (IH (fits_int32_shorter _ _ Hlen Hfit)).
    destruct IH as [I1 [I2 I3]]. unfold fits_int32 in Hfit.
    destruct (processFeed_count feed' (out_FeedDisplayCount v) error v'
                Hfit ltac:(in32) H) as [C1 [C2 C3]].
    destruct (Z.le_gt_cases (out_FeedDisplayCount v) 0) as [Hc|Hc].
    + destruct (C2 ltac:(lia) Hc) as [-> _]. cbn. lia.
    + destruct (C3 ltac:(lia) Hc) as [-> _]. Z.div_mod_to_equations. lia.
Qed.

(** *** The claims on the window *)

(** After [processFeed] has returned a view, for a number [r] that
    [std::stoi] returns: when [r] is the number of a printed row, the prompt
    opens the quack with the identifier that [extractQuackID] read off the
    feed string printed at row [r], the string at position [r] of the feed;
    when it is not, the answer is "Input Is Invalid", as it is to any input
    that is not a positive number.  [feed_quack_ids] is never read past its
    end. *)
Lemma selection_reads_printed_string
    (feed : list string) (FeedDisplayCount : Z) (error : string) (v : feed_view) :
  fits_int32 feed -> in_range FeedDisplayCount ->
  processFeed feed FeedDisplayCount error = Ok v ->
  (forall (input : string) (r : Z),
     positive_integer_regex input = true -> stoi input = Ok r ->
     (forall s, In (r, s) (out_oss v) ->
        nth_error feed (Z.to_nat (r - 1)) = Some s
        /\ exists id, extractQuackID s = Ok id
                      /\ select_from_feed v input = Ok (open_quack id))
     /\ ((forall s, ~ In (r, s) (out_oss v)) ->
         select_from_feed v input = Ok input_is_invalid))
  /\ (forall input : string,
        input <> EmptyString -> positive_integer_regex input = false ->
        select_from_feed v input = Ok input_is_invalid)
  /\ (forall (input : string) (id : Z),
        select_from_feed v input = Ok (open_quack id) ->
        exists r s, stoi input = Ok r /\ In (r, s) (out_oss v)
                    /\ extractQuackID s = Ok id)
  /\ (forall input : string, select_from_feed v input <> Ok outside_vector).
Proof.
  intros Hfit Hr Hv.
  destruct (view_shape feed FeedDisplayCount error v Hfit Hr Hv)
    as [b [Hb [Hi [Hids [Hoss _]]]]].
  destruct (read_ids_nth _ _ Hids) as [Hlen Hnth].
  rewrite length_firstn in Hlen, Hnth.
  replace (Nat.min (Z.to_nat b) (List.length feed)) with (Z.to_nat b) in Hlen, Hnth by lia.
  unfold fits_int32 in Hfit.
  assert (Hsel : forall input r,
            positive_integer_regex input = true -> stoi input = Ok r ->
            1 <= r
            /\ select_from_feed v input
               = if (b - 5 <? r) && (r <=? b)
                 then match nth_error (feed_quack_ids v) (Z.to_nat (r - 1)) with
                      | Some id => Ok (open_quack id)
                      | None => Ok outside_vector
                      end
                 else Ok input_is_invalid).
  { intros input r Hre Hst.
    pose proof (positive_integer_ge_1 input Hre) as H1.
    destruct (stoi_ok input r Hst) as [Hrv Hrmax]. rewrite <- Hrv in H1.
    split; [exact H1|].
    apply (select_from_feed_eq v input r b (feed_quack_ids v));
      try assumption; try reflexivity; lia. }
  assert (Hrow : forall r, b - 5 < r -> r <= b -> 1 <= r ->
            exists id, nth_error (feed_quack_ids v) (Z.to_nat (r - 1)) = Some id
                       /\ extractQuackID (nth (Z.to_nat (r - 1)) feed EmptyString) = Ok id
                       /\ In (r, nth (Z.to_nat (r - 1)) feed EmptyString) (out_oss v)).
  { intros r Hlo Hhi H1.
    destruct (Hnth (Z.to_nat (r - 1)) ltac:(lia)) as [id [Hn He]].
    rewrite nth_firstn_lt in He by lia.
    exists id. repeat split; try assumption.
    rewrite Hoss. apply in_blocks_between. split; [lia|reflexivity]. }
  refine (conj _ (conj _ (conj _ _))).
  - intros input r Hre Hst.
    destruct (Hsel input r Hre Hst) as [H1 ->].
    split.
    + intros s Hin. rewrite Hoss in Hin. apply in_blocks_between in Hin.
      destruct Hin as [Hp ->]. split; [apply nth_error_nth'; lia|].
      destruct (Hrow r ltac:(lia) ltac:(lia) H1) as [id [Hn [He _]]].
      exists id. split; [exact He|].
      destruct (Z.ltb_spec (b - 5) r); [|lia].
      destruct (Z.leb_spec r b); [|lia].
      cbn [andb]. now rewrite Hn.
    + intros Hno.
      destruct (Z.ltb_spec (b - 5) r) as [Hlo|]; [|reflexivity].
      destruct (Z.leb_spec r b) as [Hhi|]; [|reflexivity].
      destruct (Hrow r Hlo Hhi H1) as [id [_ [_ Hin]]].
      exfalso. exact (Hno _ Hin).
  - intros input Hne Hre. unfold select_from_feed.
    destruct input as [|c rest]; [congruence|]. now rewrite Hre.
  - intros input id Hopen.
    destruct input as [|c rest]; [discriminate Hopen|].
    destruct (positive_integer_regex (String c rest)) eqn:Hre;
      [|unfold select_from_feed in Hopen; rewrite Hre in Hopen; discriminate Hopen].
    destruct (stoi (String c rest)) as [r|e] eqn:Hst;
      [|unfold select_from_feed in Hopen; rewrite Hre, Hst in Hopen;
        discriminate Hopen].
    destruct (Hsel _ r Hre Hst) as [H1 Heq]. rewrite Heq in Hopen.
    destruct (Z.ltb_spec (b - 5) r) as [Hlo|]; [|discriminate Hopen].
    destruct (Z.leb_spec r b) as [Hhi|]; [|discriminate Hopen].
    destruct (Hrow r Hlo Hhi H1) as [id' [Hn [He Hin]]].
    cbn [andb] in Hopen. rewrite Hn in Hopen. inversion Hopen; subst id'.
    exists r, (nth (Z.to_nat (r - 1)) feed EmptyString). now repeat split.
  - intros input Hout.
    destruct input as [|c rest]; [discriminate Hout|].
    destruct (positive_integer_regex (String c rest)) eqn:Hre;
      [|unfold select_from_feed in Hout; rewrite Hre in Hout; discriminate Hout].
    destruct (stoi (String c rest)) as [r|e] eqn:Hst;
      [|unfold select_from_feed in Hout; rewrite Hre, Hst in Hout;
        discriminate Hout].
    destruct (Hsel _ r Hre Hst) as [H1 Heq]. rewrite Heq in Hout.
    destruct (Z.ltb_spec (b - 5) r) as [Hlo|]; [|discriminate Hout].
    destruct (Z.leb_spec r b) as [Hhi|]; [|discriminate Hout].
    destruct (Hrow r Hlo Hhi H1) as [id' [Hn _]].
    cbn [andb] in Hout. rewrite Hn in Hout. discriminate Hout.
Qed.

(** Row 3 of [example_view] is the third feed string, and typing 3 opens the
    quack 103; row 2 is no longer on screen, and typing 2 is refused. *)
Example select_3_of_example_view :
  In (3, "Quack Id: 103, Author: cat"%string) (out_oss example_view)
  /\ select_from_feed example_view "3" = Ok (open_quack 103)
  /\ select_from_feed example_view "2" = Ok input_is_invalid
  /\ select_from_feed example_view "8" = Ok input_is_invalid.
Proof. vm_compute. intuition. Qed.

(** C2, as amended: whenever the count left by [processFeed] is positive, the
    printed rows are exactly the feed positions in
    [(hi - 5, hi]] for [hi = min(FeedDisplayCount, feed.size())], in order,
    so there are at most five of them. *)
Theorem visible_slice_is_last_page
    (feed : list string) (FeedDisplayCount : Z) (error : string) :
  fits_int32 feed -> in_range FeedDisplayCount -> ids_readable feed ->
  exists v,
    processFeed feed FeedDisplayCount error = Ok v
    /\ (0 < out_FeedDisplayCount v ->
        let hi := Z.min (out_FeedDisplayCount v) (Z.of_nat (List.length feed)) in
        out_oss v = blocks_between feed (hi - 5) hi
        /\ (forall p s, In (p, s) (out_oss v)
                        <-> hi - 5 < p <= hi /\ 1 <= p
                            /\ nth_error feed (Z.to_nat (p - 1)) = Some s)
        /\ (List.length (out_oss v) <= 5)%nat).
Proof.
  intros Hfit Hr Hids.
  destruct (processFeed_returns feed FeedDisplayCount error Hfit Hr Hids) as [v Hv].
  exists v. split; [exact Hv|]. intros Hpos.
  destruct (view_shape feed FeedDisplayCount error v Hfit Hr Hv)
    as [b [Hb [_ [_ [Hoss Hmin]]]]].
  specialize (Hmin Hpos). cbv zeta. rewrite <- Hmin.
  split; [exact Hoss|]. split.
  - intros p s. rewrite Hoss, in_blocks_between. split.
    + intros [Hp ->]. repeat split; try lia. apply nth_error_nth'. lia.
    + intros [Hp [H1 Hn]]. split; [lia|].
      symmetry. apply nth_error_nth. exact Hn.
  - rewrite Hoss, blocks_between_length. lia.
Qed.

Lemma visible_slice_is_last_page_witness :
  exists v,
    processFeed example_feed 10 EmptyString = Ok v
    /\ (0 < out_FeedDisplayCount v ->
        let hi := Z.min (out_FeedDisplayCount v) (Z.of_nat (List.length example_feed)) in
        out_oss v = blocks_between example_feed (hi - 5) hi
        /\ (forall p s, In (p, s) (out_oss v)
                        <-> hi - 5 < p <= hi /\ 1 <= p
                            /\ nth_error example_feed (Z.to_nat (p - 1)) = Some s)
        /\ (List.length (out_oss v) <= 5)%nat).
Proof.
  apply (visible_slice_is_last_page example_feed 10 EmptyString).
  - unfold fits_int32, INT32_MAX. simpl. lia.
  - unfold in_range, INT32_MIN, INT32_MAX. lia.
  - unfold ids_readable, example_feed.
    repeat constructor; eexists; vm_compute; reflexivity.
Defined.

(** C2, as the specification states it, fails: with seven entries and a count
    of ten the rows 3 to 7 are printed, not only the positions in
    [(10 - 5, min(10, 7)]]. *)
Lemma visible_slice_counterexample :
  ~ (forall (feed : list string) (FeedDisplayCount : Z) (error : string) (v : feed_view),
       processFeed feed FeedDisplayCount error = Ok v ->
       0 < out_FeedDisplayCount v ->
       forall p,
         (exists s, In (p, s) (out_oss v))
         <-> out_FeedDisplayCount v - 5 < p
             <= Z.min (out_FeedDisplayCount v) (Z.of_nat (List.length feed))).
Proof.
  intros H.
  specialize (H example_feed 10 EmptyString example_view eq_refl eq_refl 3).
  destruct H as [H _].
  assert (Hin : exists s, In (3, s) (out_oss example_view)).
  { exists "Quack Id: 103, Author: cat"%string. vm_compute. tauto. }
  specialize (H Hin). vm_compute in H. destruct H as [H _]. discriminate H.
Qed.



(** The run of the specification: twelve entries, from 5 to 10, to 15, and
    the third "see more" is refused. *)
Example see_more_three_times :
  exists v1 v2 v3,
    see_more example_feed_12 5 = Ok v1 /\ out_FeedDisplayCount v1 = 10
    /\ see_more example_feed_12 10 = Ok v2 /\ out_FeedDisplayCount v2 = 15
    /\ see_more example_feed_12 15 = Ok v3 /\ out_FeedDisplayCount v3 = 15
    /\ out_error v3 = no_more_quacks.
Proof. vm_compute. do 3 eexists. repeat split; reflexivity. Qed.

(** C4: from every view the menu loop can show, "see more" and "see less"
    return with a count that is a non-negative multiple of five; "see less"
    leaves the count five lower but not below zero, and gives the message
    "You Are Already Not Displaying Any Quacks" exactly when the count was
    zero before. *)
Theorem window_stays_multiple_of_five
    (feed : list string) (v : feed_view) (feed' : list string) :
  reachable feed v ->
  (List.length feed <= List.length feed')%nat ->
  fits_int32 feed' -> ids_readable feed' ->
  (exists v',
     see_more feed' (out_FeedDisplayCount v) = Ok v'
     /\ 0 <= out_FeedDisplayCount v' /\ out_FeedDisplayCount v' mod 5 = 0)
  /\ (exists v',
        see_less feed' (out_FeedDisplayCount v) = Ok v'
        /\ 0 <= out_FeedDisplayCount v' /\ out_FeedDisplayCount v' mod 5 = 0
        /\ out_FeedDisplayCount v' = Z.max 0 (out_FeedDisplayCount v - 5)
        /\ (out_error v' = already_no_quacks <-> out_FeedDisplayCount v = 0)).
Proof.
  intros Hreach Hlen Hfit Hids.
  destruct (reachable_window feed v Hreach (fits_int32_shorter _ _ Hlen Hfit))
    as [I1 [I2 I3]].
  assert (Hfit' := Hfit). unfold fits_int32 in Hfit'.
  split.
  - destruct (processFeed_returns feed' (out_FeedDisplayCount v + 5) EmptyString
                Hfit ltac:(in32) Hids) as [v' Hv'].
    exists v'. unfold see_more. rewrite add_small by in32. split; [exact Hv'|].
    assert (Hreach' : reachable feed' v').
    { apply (reach_more feed v feed' v' Hreach Hlen).
      unfold see_more. now rewrite add_small by in32. }
    destruct (reachable_window feed' v' Hreach' Hfit) as [J1 [J2 _]].
    split; assumption.
  - destruct (processFeed_returns feed' (out_FeedDisplayCount v - 5) EmptyString
                Hfit ltac:(in32) Hids) as [v' Hv'].
    exists v'. unfold see_less. rewrite sub_small by in32. split; [exact Hv'|].
    destruct (processFeed_count feed' (out_FeedDisplayCount v - 5) EmptyString v'
                Hfit ltac:(in32) Hv') as [_ [C2 C3]].
    destruct (Z.le_gt_cases (out_FeedDisplayCount v - 5) 0) as [Hc|Hc].
    + destruct (C2 ltac:(lia) Hc) as [-> ->].
      repeat split; try reflexivity; try lia.
      * destruct (Z.eqb_spec (out_FeedDisplayCount v - 5) 0) as [He|He].
        -- intros Hmsg. now apply already_no_quacks_not_empty in Hmsg.
        -- intros _. Z.div_mod_to_equations. lia.
      * intros H0. rewrite H0. reflexivity.
    + destruct (C3 ltac:(lia) Hc) as [-> ->].
      repeat split; try lia.
      * Z.div_mod_to_equations. lia.
      * intros Hmsg. now apply already_no_quacks_not_empty in Hmsg.
Qed.

Lemma window_stays_multiple_of_five_witness :
  (exists v',
     see_more example_feed (out_FeedDisplayCount example_view) = Ok v'
     /\ 0 <= out_FeedDisplayCount v' /\ out_FeedDisplayCount v' mod 5 = 0)
  /\ (exists v',
        see_less example_feed (out_FeedDisplayCount example_view) = Ok v'
        /\ 0 <= out_FeedDisplayCount v' /\ out_FeedDisplayCount v' mod 5 = 0
        /\ out_FeedDisplayCount v' = Z.max 0 (out_FeedDisplayCount example_view - 5)
        /\ (out_error v' = already_no_quacks
            <-> out_FeedDisplayCount example_view = 0)).
Proof.
  apply (window_stays_multiple_of_five example_feed example_view example_feed).
  - apply (reach_more example_feed
             (mk_view 5 EmptyString 6 [101; 102; 103; 104; 105]
                (blocks_between example_feed 0 5))
             example_feed example_view).
    + apply reach_login. vm_compute. reflexivity.
    + simpl. lia.
    + vm_compute. reflexivity.
  - simpl. lia.
  - unfold fits_int32, INT32_MAX. simpl. lia.
  - unfold ids_readable, example_feed.
    repeat constructor; eexists; vm_compute; reflexivity.
Defined.

(** The strings of [Pond::getFeed] as this [Pond.cc] builds them start with
    the user name, not with ["Quack Id: "]: [extractQuackID] records -1 for
    each of them, and that is the identifier a selection hands to
    [getQuackFromID]. *)
Example ids_of_pond_feed :
  match Feed.getFeed Feed.example_db true 30 with
  | Ok feed =>
      read_ids feed = Ok [-1; -1]
      /\ match processFeed feed 5 EmptyString with
         | Ok v => select_from_feed v "1" = Ok (open_quack (-1))
         | Throw _ => False
         end
  | Throw _ => False
  end.
Proof. vm_compute. split; reflexivity. Qed.

(** "See less" at zero: the count stays zero and the message is given. *)
Example see_less_at_zero :
  exists v, see_less example_feed 0 = Ok v
            /\ out_FeedDisplayCount v = 0 /\ out_error v = already_no_quacks.
Proof. vm_compute. eexists. repeat split; reflexivity. Qed.

End PaginationFacts.

(* ================================================================= *)
(** ** The feed query *)

Module FeedFacts.

Import Feed.

(** *** The order on the sort key *)

Lemma string_compare_refl (s : string) : String.compare s s = Eq.
Proof.
  induction s as [|c s IH]; [reflexivity|]. simpl.
  unfold Ascii.compare. now rewrite N.compare_refl.
Qed.

Lemma string_compare_lt_trans (a : string) :
  forall b c, String.compare a b = Lt -> String.compare b c = Lt ->
              String.compare a c = Lt.
Proof.
  induction a as [|x a IH]; intros [|y b] [|z c]; simpl; try discriminate; auto.
  unfold Ascii.compare.
  destruct (N.compare_spec (N_of_ascii x) (N_of_ascii y)) as [Exy|Lxy|Gxy];
    try discriminate;
    destruct (N.compare_spec (N_of_ascii y) (N_of_ascii z)) as [Eyz|Lyz|Gyz];
    try discriminate;
    destruct (N.compare_spec (N_of_ascii x) (N_of_ascii z)) as [Exz|Lxz|Gxz];
    try lia; auto.
  apply IH.
Qed.

Lemma compare_text_refl (a : option string) : compare_text a a = Eq.
Proof. destruct a; [apply string_compare_refl|reflexivity]. Qed.

Lemma compare_text_antisym (a b : option string) :
  compare_text a b = CompOpp (compare_text b a).
Proof. destruct a, b; try reflexivity. apply String.compare_antisym. Qed.

Lemma compare_text_eq (a b : option string) : compare_text a b = Eq -> a = b.
Proof.
  destruct a, b; simpl; try discriminate; [|reflexivity].
  intros H. f_equal. now apply String.compare_eq_iff.
Qed.

Lemma compare_text_lt_trans (a b c : option string) :
  compare_text a b = Lt -> compare_text b c = Lt -> compare_text a c = Lt.
Proof.
  destruct a, b, c; simpl; try discriminate; auto.
  apply string_compare_lt_trans.
Qed.

Lemma compare_key_refl (a : feed_row) : compare_key a a = Eq.
Proof. unfold compare_key. now rewrite !compare_text_refl. Qed.

Lemma compare_key_antisym (a b : feed_row) :
  compare_key a b = CompOpp (compare_key b a).
Proof.
  unfold compare_key.
  rewrite (compare_text_antisym (row_date a) (row_date b)).
  destruct (compare_text (row_date b) (row_date a)); simpl; try reflexivity.
  apply compare_text_antisym.
Qed.

Lemma compare_key_eq (a b : feed_row) :
  compare_key a b = Eq -> row_date a = row_date b /\ row_time a = row_time b.
Proof.
  unfold compare_key.
  destruct (compare_text (row_date a) (row_date b)) eqn:Hd; try discriminate.
  intros Ht. split; now apply compare_text_eq.
Qed.

Lemma compare_key_lt_trans (a b c : feed_row) :
  compare_key a b = Lt -> compare_key b c = Lt -> compare_key a c = Lt.
Proof.
  unfold compare_key.
  destruct (compare_text (row_date a) (row_date b)) eqn:Hab; try discriminate;
    destruct (compare_text (row_date b) (row_date c)) eqn:Hbc; try discriminate;
    intros H1 H2.
  - apply compare_text_eq in Hab, Hbc. rewrite Hab, Hbc, compare_text_refl.
    eapply compare_text_lt_trans; eassumption.
  - apply compare_text_eq in Hab. rewrite Hab, Hbc. reflexivity.
  - apply compare_text_eq in Hbc. rewrite <- Hbc, Hab. reflexivity.
  - now rewrite (compare_text_lt_trans _ _ _ Hab Hbc).
Qed.

Lemma key_ge_iff (a b : feed_row) : key_ge a b <-> compare_key a b <> Lt.
Proof.
  unfold key_ge, key_geb. destruct (compare_key a b); split; congruence.
Qed.

Lemma key_ge_total (a b : feed_row) : key_geb a b = false -> key_ge b a.
Proof.
  unfold key_ge, key_geb. rewrite (compare_key_antisym b a).
  destruct (compare_key a b); simpl; congruence.
Qed.

Lemma key_ge_trans (a b c : feed_row) : key_ge a b -> key_ge b c -> key_ge a c.
Proof.
  rewrite !key_ge_iff. intros Hab Hbc Hac.
  destruct (compare_key a b) eqn:Eab; [| congruence |].
  - apply compare_key_eq in Eab. destruct Eab as [Hd Ht].
    apply Hbc. unfold compare_key in *. now rewrite <- Hd, <- Ht.
  - destruct (compare_key b c) eqn:Ebc; [| congruence |].
    + apply compare_key_eq in Ebc. destruct Ebc as [Hd Ht].
      unfold compare_key in Hac, Eab. rewrite <- Hd, <- Ht in Hac. congruence.
    + assert (Hba : compare_key b a = Lt)
        by (rewrite compare_key_antisym, Eab; reflexivity).
      assert (Hcb : compare_key c b = Lt)
        by (rewrite compare_key_antisym, Ebc; reflexivity).
      pose proof (compare_key_lt_trans c b a Hcb Hba) as Hca.
      rewrite compare_key_antisym, Hca in Hac. discriminate Hac.
Qed.

(** *** The sort *)

(** *** The order of the rows *)

Lemma ordering_eq_r {A : Type} (c : A -> A -> comparison) :
  ordering c -> forall a b d, c b d = Eq -> c a b = c a d.
Proof.
  intros (Hanti & _ & Heq) a b d H.
  assert (Hdb : c d b = Eq) by (rewrite Hanti, H; reflexivity).
  rewrite (Hanti b a), (Hanti d a). f_equal. symmetry. now apply Heq.
Qed.

Lemma ordering_then_by {A : Type} (c1 c2 : A -> A -> comparison) :
  ordering c1 -> ordering c2 ->
  ordering (fun a b => then_by (c1 a b) (c2 a b)).
Proof.
  intros H1 H2. pose proof (ordering_eq_r c1 H1) as Hr1.
  destruct H1 as (Ha1 & Ht1 & He1). destruct H2 as (Ha2 & Ht2 & He2).
  split; [|split].
  - intros a b. rewrite (Ha1 a b). destruct (c1 a b); cbn; auto.
  - intros a b d Hab Hbd.
    destruct (c1 a b) eqn:E1; cbn in Hab; try discriminate Hab;
      destruct (c1 b d) eqn:E2; cbn in Hbd; try discriminate Hbd.
    + rewrite (He1 a b d E1), E2. cbn. now apply (Ht2 a b d).
    + rewrite (He1 a b d E1), E2. reflexivity.
    + rewrite <- (Hr1 a b d E2), E1. reflexivity.
    + rewrite (Ht1 a b d E1 E2). reflexivity.
  - intros a b d Hab.
    destruct (c1 a b) eqn:E1; cbn in Hab; try discriminate Hab.
    rewrite (He1 a b d E1), (He2 a b d Hab). reflexivity.
Qed.

Lemma ordering_on {A B : Type} (f : A -> B) (c : B -> B -> comparison) :
  ordering c -> ordering (fun a b => c (f a) (f b)).
Proof.
  intros (Ha & Ht & He). split; [|split].
  - intros a b. apply Ha.
  - intros a b d. apply Ht.
  - intros a b d. apply He.
Qed.

Lemma ordering_flip {A : Type} (c : A -> A -> comparison) :
  ordering c -> ordering (fun a b => c b a).
Proof.
  intros H. pose proof (ordering_eq_r c H) as Hr.
  destruct H as (Ha & Ht & He). split; [|split].
  - intros a b. apply Ha.
  - intros a b d Hab Hbd. now apply (Ht d b a).
  - intros a b d Hab. symmetry. apply Hr. exact Hab.
Qed.

Lemma ordering_compare_text : ordering compare_text.
Proof.
  split; [|split].
  - intros a b. apply compare_text_antisym.
  - apply compare_text_lt_trans.
  - intros a b d H. now rewrite (compare_text_eq a b H).
Qed.

Lemma ordering_Z_compare : ordering Z.compare.
Proof.
  split; [|split].
  - intros a b. apply Z.compare_antisym.
  - intros a b d. rewrite !Z.compare_lt_iff. lia.
  - intros a b d H. now rewrite (Z.compare_eq a b H).
Qed.

Lemma ordering_compare_type : ordering compare_type.
Proof.
  split; [|split].
  - intros [] []; reflexivity.
  - intros [] [] []; cbn; congruence.
  - intros [] [] []; cbn; congruence.
Qed.

Lemma ordering_compare_rows : ordering compare_rows.
Proof.
  unfold compare_rows.
  apply ordering_then_by;
    [apply ordering_flip, (ordering_on row_date), ordering_compare_text|].
  apply ordering_then_by;
    [apply ordering_flip, (ordering_on row_time), ordering_compare_text|].
  apply ordering_then_by;
    [apply (ordering_on row_type_of), ordering_compare_type|].
  apply ordering_then_by; [apply (ordering_on row_tid), ordering_Z_compare|].
  apply ordering_then_by;
    [apply (ordering_on row_name), ordering_compare_text|].
  apply ordering_then_by;
    [apply (ordering_on row_writer_id), ordering_Z_compare|].
  apply (ordering_on row_text), ordering_compare_text.
Qed.

Lemma row_le_iff (a b : feed_row) : row_le a b <-> compare_rows a b <> Gt.
Proof.
  unfold row_le, comes_before. destruct (compare_rows a b); split; congruence.
Qed.

Lemma row_le_total (a b : feed_row) : comes_before a b = false -> row_le b a.
Proof.
  destruct ordering_compare_rows as (Hanti & _).
  unfold row_le, comes_before. rewrite (Hanti a b).
  destruct (compare_rows a b); cbn; congruence.
Qed.

Lemma row_le_trans (a b c : feed_row) : row_le a b -> row_le b c -> row_le a c.
Proof.
  pose proof (ordering_eq_r _ ordering_compare_rows) as Hr.
  destruct ordering_compare_rows as (Hanti & Htrans & Heq).
  rewrite !row_le_iff. intros Hab Hbc.
  destruct (compare_rows a b) eqn:Eab; [| |congruence].
  - now rewrite (Heq a b c Eab).
  - destruct (compare_rows b c) eqn:Ebc; [| |congruence].
    + rewrite <- (Hr a b c Ebc), Eab. discriminate.
    + rewrite (Htrans a b c Eab Ebc). discriminate.
Qed.

(** The order of the rows is an order by date and time, descending. *)
Lemma row_le_key_ge (a b : feed_row) : row_le a b -> key_ge a b.
Proof.
  rewrite row_le_iff, key_ge_iff. unfold compare_rows, compare_key.
  rewrite (compare_text_antisym (row_date b) (row_date a)).
  rewrite (compare_text_antisym (row_time b) (row_time a)).
  destruct (compare_text (row_date a) (row_date b)); cbn; try congruence.
  destruct (compare_text (row_time a) (row_time b)); cbn; congruence.
Qed.

Lemma insert_desc_perm (x : feed_row) (l : list feed_row) :
  Permutation (x :: l) (insert_desc x l).
Proof.
  induction l as [|y l IH]; simpl; [reflexivity|].
  destruct (comes_before x y); [reflexivity|].
  rewrite perm_swap. now apply perm_skip.
Qed.

Lemma order_by_perm (l : list feed_row) :
  Permutation l (order_by_date_time_desc l).
Proof.
  induction l as [|x l IH]; simpl; [reflexivity|].
  rewrite <- insert_desc_perm. now apply perm_skip.
Qed.

Lemma insert_desc_sorted (x : feed_row) (l : list feed_row) :
  StronglySorted row_le l -> StronglySorted row_le (insert_desc x l).
Proof.
  induction 1 as [|y l Hs IH Hall]; simpl.
  - repeat constructor.
  - destruct (comes_before x y) eqn:Hxy.
    + constructor; [now constructor|].
      constructor; [exact Hxy|].
      rewrite Forall_forall in *. intros z Hz.
      apply (row_le_trans x y z); [exact Hxy|now apply Hall].
    + constructor; [exact IH|].
      rewrite Forall_forall in *. intros z Hz.
      apply (Permutation_in _ (Permutation_sym (insert_desc_perm x l))) in Hz.
      destruct Hz as [<-|Hz]; [now apply row_le_total|now apply Hall].
Qed.

Lemma order_by_sorted_rows (l : list feed_row) :
  StronglySorted row_le (order_by_date_time_desc l).
Proof.
  induction l as [|x l IH]; simpl; [constructor|].
  now apply insert_desc_sorted.
Qed.

Lemma sorted_rows_by_key (l : list feed_row) :
  StronglySorted row_le l -> StronglySorted key_ge l.
Proof.
  induction 1 as [|x l Hs IH Hall]; constructor; [exact IH|].
  rewrite Forall_forall in *. intros z Hz. now apply row_le_key_ge, Hall.
Qed.

Lemma order_by_sorted (l : list feed_row) :
  StronglySorted key_ge (order_by_date_time_desc l).
Proof. apply sorted_rows_by_key, order_by_sorted_rows. Qed.

Lemma sorted_before (l1 : list feed_row) :
  forall a l2, StronglySorted key_ge (l1 ++ a :: l2) ->
               forall x, In x l1 -> key_ge x a.
Proof.
  induction l1 as [|y l1 IH]; intros a l2 Hs x Hx; [destruct Hx|].
  simpl in Hs. inversion Hs as [|? ? Hs' Hall]; subst.
  destruct Hx as [<-|Hx].
  - rewrite Forall_forall in Hall. apply Hall, in_or_app. right. now left.
  - now apply (IH a l2 Hs').
Qed.

(** In a sorted feed an entry with a strictly greater key stands before one
    with a smaller key. *)
Lemma sorted_precedes (l : list feed_row) (a b : feed_row) :
  StronglySorted key_ge l -> In a l -> In b l ->
  compare_key b a = Lt -> precedes a b l.
Proof.
  intros Hs Ha Hb Hlt.
  destruct (in_split _ _ Ha) as [l1 [l2 ->]].
  apply in_app_or in Hb. destruct Hb as [Hb|[Hb|Hb]].
  - pose proof (sorted_before l1 a l2 Hs b Hb) as Hge.
    apply key_ge_iff in Hge. contradiction.
  - subst b. rewrite compare_key_refl in Hlt. discriminate Hlt.
  - destruct (in_split _ _ Hb) as [l3 [l4 ->]].
    exists l1, l3, l4. reflexivity.
Qed.

Lemma in_feed_rows (db : database) (user_id : Z) (e : feed_row) :
  In e (feed_rows db user_id)
  <-> In e (select_tweets db user_id ++ select_retweets db user_id).
Proof.
  unfold feed_rows, union. split; intros H.
  - apply (Permutation_in _ (Permutation_sym (order_by_perm _))) in H.
    now apply nodup_In in H.
  - apply (Permutation_in _ (order_by_perm _)). now apply nodup_In.
Qed.

(** *** The rows of the two SELECTs *)

Lemma in_select_retweets (db : database) (user_id : Z) (e : feed_row) :
  In e (select_retweets db user_id)
  <-> exists r t2 f2 u2,
        In r (retweets db) /\ In t2 (tweets db)
        /\ In f2 (follows db) /\ In u2 (users db)
        /\ t_tid t2 = r_tid r
        /\ r_retweeter_id r = flwee f2
        /\ r_retweeter_id r = usr u2
        /\ flwer f2 = user_id
        /\ r_spam r = 0
        /\ e = mk_row type_retweet (t_tid t2) (u_name u2) (r_retweeter_id r)
                      (r_rdate r) (t_ttime t2) (t_text t2).
Proof.
  unfold select_retweets. split.
  - intros H.
    apply in_flat_map in H. destruct H as [r [Hr H]].
    apply in_flat_map in H. destruct H as [t2 [Ht2 H]].
    destruct (Z.eqb_spec (t_tid t2) (r_tid r)) as [E1|]; [|destruct H].
    apply in_flat_map in H. destruct H as [f2 [Hf2 H]].
    destruct (Z.eqb_spec (r_retweeter_id r) (flwee f2)) as [E2|]; [|destruct H].
    apply in_flat_map in H. destruct H as [u2 [Hu2 H]].
    destruct (Z.eqb_spec (r_retweeter_id r) (usr u2)) as [E3|]; [|destruct H].
    destruct (Z.eqb_spec (flwer f2) user_id) as [E4|]; [|destruct H].
    destruct (Z.eqb_spec (r_spam r) 0) as [E5|]; [|destruct H].
    destruct H as [<-|[]].
    exists r, t2, f2, u2. repeat split; assumption.
  - intros (r & t2 & f2 & u2 & Hr & Ht2 & Hf2 & Hu2 & E1 & E2 & E3 & E4 & E5 & ->).
    apply in_flat_map. exists r. split; [exact Hr|].
    apply in_flat_map. exists t2. split; [exact Ht2|].
    rewrite (proj2 (Z.eqb_eq _ _) E1).
    apply in_flat_map. exists f2. split; [exact Hf2|].
    rewrite (proj2 (Z.eqb_eq _ _) E2).
    apply in_flat_map. exists u2. split; [exact Hu2|].
    rewrite (proj2 (Z.eqb_eq _ _) E3), (proj2 (Z.eqb_eq _ _) E4),
            (proj2 (Z.eqb_eq _ _) E5).
    now left.
Qed.

Lemma select_tweets_type (db : database) (user_id : Z) (e : feed_row) :
  In e (select_tweets db user_id) -> row_type_of e = type_tweet.
Proof.
  unfold select_tweets. intros H.
  apply in_flat_map in H. destruct H as [t1 [_ H]].
  apply in_flat_map in H. destruct H as [f1 [_ H]].
  destruct (t_writer_id t1 =? flwee f1); [|destruct H].
  apply in_flat_map in H. destruct H as [u1 [_ H]].
  destruct ((t_writer_id t1 =? usr u1) && (flwer f1 =? user_id)); [|destruct H].
  destruct H as [<-|[]]. reflexivity.
Qed.

Lemma in_feed_retweet (db : database) (user_id : Z) (e : feed_row) :
  In e (feed_rows db user_id) /\ row_type_of e = type_retweet
  <-> In e (select_retweets db user_id).
Proof.
  rewrite in_feed_rows, in_app_iff. split.
  - intros [[H|H] Ht]; [|exact H].
    apply select_tweets_type in H. congruence.
  - intros H. split; [now right|].
    apply in_select_retweets in H.
    destruct H as (r & t2 & f2 & u2 & _ & _ & _ & _ & _ & _ & _ & _ & _ & ->).
    reflexivity.
Qed.

Lemma flat_map_filter {A B : Type} (p : A -> bool) (f : A -> list B) (l : list A) :
  (forall x, p x = false -> f x = []) ->
  flat_map f (filter p l) = flat_map f l.
Proof.
  intros H. induction l as [|x l IH]; simpl; [reflexivity|].
  destruct (p x) eqn:Hp; simpl; rewrite IH; [reflexivity|].
  now rewrite (H x Hp).
Qed.

Lemma flat_map_nil {A B : Type} (f : A -> list B) (l : list A) :
  (forall x, f x = []) -> flat_map f l = [].
Proof.
  intros H. induction l as [|x l IH]; simpl; [reflexivity|].
  now rewrite H, IH.
Qed.

Lemma select_retweets_remove_spam (db : database) (user_id : Z) :
  select_retweets (remove_spam db) user_id = select_retweets db user_id.
Proof.
  unfold select_retweets, remove_spam. cbn [retweets tweets follows users].
  apply flat_map_filter. intros r Hspam.
  apply flat_map_nil. intros t2. destruct (t_tid t2 =? r_tid r); [|reflexivity].
  apply flat_map_nil. intros f2.
  destruct (r_retweeter_id r =? flwee f2); [|reflexivity].
  apply flat_map_nil. intros u2. now rewrite Hspam, andb_false_r.
Qed.

(** *** The claims on the feed *)

(** C7, as amended: the feed entries of type ['retweet'] are exactly the rows
    built from a re-share [r] that is not spam, made by an account the viewer
    follows, and the quack [t2] it re-shares: they carry the text of [t2],
    the identifier and the name of the re-sharer, the date of the re-share,
    and the time of day of [t2], the original quack. *)
Theorem repost_entry_fields (db : database) (user_id : Z) (e : feed_row) :
  In e (feed_rows db user_id) /\ row_type_of e = type_retweet
  <-> exists r t2 f2 u2,
        In r (retweets db) /\ In t2 (tweets db)
        /\ In f2 (follows db) /\ In u2 (users db)
        /\ t_tid t2 = r_tid r
        /\ r_retweeter_id r = flwee f2
        /\ r_retweeter_id r = usr u2
        /\ flwer f2 = user_id
        /\ r_spam r = 0
        /\ e = mk_row type_retweet (t_tid t2) (u_name u2) (r_retweeter_id r)
                      (r_rdate r) (t_ttime t2) (t_text t2).
Proof. rewrite in_feed_retweet. apply in_select_retweets. Qed.

Lemma repost_entry_fields_witness :
  In example_repost (feed_rows example_db 30)
  /\ row_type_of example_repost = type_retweet.
Proof.
  apply (repost_entry_fields example_db 30 example_repost).
  exists (mk_retweet 1 20 (Some "2024-01-03"%string) 0), example_tweet,
         (mk_follows 30 20), (mk_user 20 (Some "bob"%string)).
  simpl. repeat split; auto.
Defined.

(** C7, as the specification states it, fails: were the date and the time of
    a re-share entry both taken from the re-share, the re-share entries of a
    feed would stay the same when only the dates and times of the quacks in
    the store change; they do not, since the entry shows the time of the
    original quack. *)
Lemma repost_time_counterexample :
  ~ (forall (db db' : database) (user_id : Z) (e : feed_row),
       retweets db = retweets db' -> follows db = follows db' ->
       users db = users db' ->
       map (fun t => (t_tid t, t_writer_id t, t_text t)) (tweets db)
       = map (fun t => (t_tid t, t_writer_id t, t_text t)) (tweets db') ->
       In e (feed_rows db user_id) -> row_type_of e = type_retweet ->
       In e (feed_rows db' user_id)).
Proof.
  intros H.
  assert (Hin : In example_repost (feed_rows example_db 30))
    by (vm_compute; tauto).
  specialize (H example_db example_db_other_time 30 example_repost
                eq_refl eq_refl eq_refl eq_refl Hin eq_refl).
  vm_compute in H. destruct H as [H|[H|[]]]; discriminate H.
Qed.

(** C8: the feed is sorted by date, then time, both descending; it holds the
    rows of the two SELECTs and no other; and of two entries the one with the
    later date stands first. *)
Theorem feed_sorted_desc (db : database) (user_id : Z) :
  StronglySorted key_ge (feed_rows db user_id)
  /\ (forall e, In e (feed_rows db user_id)
                <-> In e (select_tweets db user_id ++ select_retweets db user_id))
  /\ (forall a b,
        In a (feed_rows db user_id) -> In b (feed_rows db user_id) ->
        compare_text (row_date b) (row_date a) = Lt ->
        precedes a b (feed_rows db user_id)).
Proof.
  split; [apply order_by_sorted|]. split; [apply in_feed_rows|].
  intros a b Ha Hb Hlt.
  apply sorted_precedes; try assumption; [apply order_by_sorted|].
  unfold compare_key. now rewrite Hlt.
Qed.

Lemma feed_sorted_desc_witness :
  StronglySorted key_ge (feed_rows example_db 30)
  /\ (forall e, In e (feed_rows example_db 30)
                <-> In e (select_tweets example_db 30 ++ select_retweets example_db 30))
  /\ (forall a b,
        In a (feed_rows example_db 30) -> In b (feed_rows example_db 30) ->
        compare_text (row_date b) (row_date a) = Lt ->
        precedes a b (feed_rows example_db 30)).
Proof. apply (feed_sorted_desc example_db 30). Defined.

(** The re-share of 3 January stands before the quack of 2 January. *)
Example feed_of_example_db :
  feed_rows example_db 30 = [example_repost; example_post].
Proof. vm_compute. reflexivity. Qed.

(** Rows with the same date and time: ann re-shared her quack on the day she
    posted it.  The re-share stands before the quack, as ['retweet'] sorts
    before ['tweet']. *)
Example feed_of_a_tie :
  feed_rows (mk_database [example_tweet]
               [mk_retweet 1 10 (Some "2024-01-02"%string) 0]
               [mk_follows 30 10] [mk_user 10 (Some "ann"%string)]) 30
  = [mk_row type_retweet 1 (Some "ann"%string) 10 (Some "2024-01-02"%string)
            (Some "10:00:00"%string) (Some "hello"%string);
     mk_row type_tweet 1 (Some "ann"%string) 10 (Some "2024-01-02"%string)
            (Some "10:00:00"%string) (Some "hello"%string)].
Proof. vm_compute. reflexivity. Qed.

(** C9: every feed entry of type ['retweet'] comes from a re-share whose spam
    flag is 0, and the feed is the one the store gives once all re-shares with
    another flag are removed from it. *)
Theorem spam_reshares_excluded (db : database) (user_id : Z) :
  (forall e, In e (feed_rows db user_id) -> row_type_of e = type_retweet ->
     exists r, In r (retweets db) /\ r_spam r = 0
               /\ r_tid r = row_tid e
               /\ r_retweeter_id r = row_writer_id e
               /\ r_rdate r = row_date e)
  /\ feed_rows db user_id = feed_rows (remove_spam db) user_id.
Proof.
  split.
  - intros e He Ht.
    pose proof (proj1 (in_feed_retweet db user_id e) (conj He Ht)) as H.
    apply in_select_retweets in H.
    destruct H as (r & t2 & f2 & u2 & Hr & _ & _ & _ & E1 & _ & _ & _ & E5 & ->).
    exists r. cbn. repeat split; auto.
  - unfold feed_rows. now rewrite select_retweets_remove_spam.
Qed.

Lemma spam_reshares_excluded_witness :
  (forall e, In e (feed_rows example_db 30) -> row_type_of e = type_retweet ->
     exists r, In r (retweets example_db) /\ r_spam r = 0
               /\ r_tid r = row_tid e
               /\ r_retweeter_id r = row_writer_id e
               /\ r_rdate r = row_date e)
  /\ feed_rows example_db 30 = feed_rows (remove_spam example_db) 30.
Proof. apply (spam_reshares_excluded example_db 30). Defined.

End FeedFacts.

(* ================================================================= *)
(** ** The time stamps *)

Module ClockFacts.

Import Clock.

Lemma length_append (a b : string) :
  String.length (a ++ b) = (String.length a + String.length b)%nat.
Proof. induction a as [|c a IH]; simpl; [reflexivity|now rewrite IH]. Qed.

Lemma two_digits_length (n : Z) : String.length (two_digits n) = 2%nat.
Proof. reflexivity. Qed.

Lemma format_HMS_length (t : tm) : String.length (format_HMS t) = 8%nat.
Proof. reflexivity. Qed.

Lemma decimal_string_one_digit (k : nat) (n : Z) :
  n < 10 -> String.length (decimal_string (S k) n) = 1%nat.
Proof.
  intros H. cbn [decimal_string].
  destruct (Z.ltb_spec n 10); [reflexivity|lia].
Qed.

Lemma decimal_string_more_digits (k : nat) (n : Z) :
  10 <= n ->
  String.length (decimal_string (S k) n)
  = (String.length (decimal_string k (n / 10)) + 1)%nat.
Proof.
  intros H. cbn [decimal_string].
  destruct (Z.ltb_spec n 10); [lia|].
  now rewrite length_append.
Qed.

Lemma four_digit_year (n : Z) :
  1000 <= n <= 9999 -> String.length (decimal_string 20 n) = 4%nat.
Proof.
  intros H.
  assert (H1 : 100 <= n / 10 <= 999) by (Z.div_mod_to_equations; lia).
  assert (H2 : 10 <= n / 10 / 10 <= 99) by (Z.div_mod_to_equations; lia).
  assert (H3 : 1 <= n / 10 / 10 / 10 <= 9) by (Z.div_mod_to_equations; lia).
  rewrite !decimal_string_more_digits by lia.
  rewrite decimal_string_one_digit by lia. reflexivity.
Qed.

Lemma format_F_length (t : tm) :
  calendar_time t -> String.length (format_F t) = 10%nat.
Proof.
  intros (_ & _ & _ & _ & _ & Hy). unfold format_F.
  rewrite !length_append, four_digit_year by exact Hy. reflexivity.
Qed.

Lemma strftime_too_small (maxsize : nat) (expansion : string) :
  (maxsize < String.length expansion + 1)%nat ->
  strftime maxsize expansion = (O, None).
Proof.
  intros H. unfold strftime.
  destruct (Nat.leb_spec (String.length expansion + 1) maxsize); [lia|reflexivity].
Qed.

Lemma strftime_fits (maxsize : nat) (expansion : string) :
  (String.length expansion + 1 <= maxsize)%nat ->
  strftime maxsize expansion = (String.length expansion, Some expansion).
Proof.
  intros H. unfold strftime.
  destruct (Nat.leb_spec (String.length expansion + 1) maxsize); [reflexivity|lia].
Qed.

(** C10: the two formatters hand [strftime] the size of a pointer.  With a
    pointer of at most 8 bytes, the 9 bytes of ["HH:MM:SS"] and the 11 bytes
    of ["YYYY-MM-DD"] (terminating null included) do not fit: [strftime]
    returns 0 and the buffer never holds the documented text, whatever the
    time; [addPost] and [follow] bind these buffers to the date and time
    columns.  The sizes of the allocated buffers, 9 and 11, would do. *)
Theorem formatters_buffer_too_small
    (sizeof_char_ptr : nat) (date_now time_now : tm) :
  (sizeof_char_ptr <= 8)%nat -> calendar_time date_now ->
  (String.length (format_HMS time_now) + 1 = 9)%nat
  /\ (String.length (format_F date_now) + 1 = 11)%nat
  /\ _getTime sizeof_char_ptr time_now = None
  /\ _getDate sizeof_char_ptr date_now = None
  /\ (forall rc tweet_id user_id text,
        exists row,
          fst (addPost sizeof_char_ptr true rc date_now time_now tweet_id user_id text)
          = Some row
          /\ p_tdate row = None /\ p_ttime row = None)
  /\ (forall rc user_id follow_id,
        exists row,
          fst (follow sizeof_char_ptr true rc date_now user_id follow_id) = Some row
          /\ fi_start_date row = None)
  /\ _getTime 9 time_now = Some (format_HMS time_now)
  /\ _getDate 11 date_now = Some (format_F date_now).
Proof.
  intros Hsize Hcal.
  pose proof (format_HMS_length time_now) as Ht.
  pose proof (format_F_length date_now Hcal) as Hd.
  assert (Htime : _getTime sizeof_char_ptr time_now = None).
  { unfold _getTime. now rewrite strftime_too_small by lia. }
  assert (Hdate : _getDate sizeof_char_ptr date_now = None).
  { unfold _getDate. now rewrite strftime_too_small by lia. }
  refine (conj _ (conj _ (conj Htime (conj Hdate (conj _ (conj _ (conj _ _))))))).
  - lia.
  - lia.
  - intros rc tweet_id user_id text. eexists. cbn [addPost fst].
    split; [reflexivity|]. cbn [p_tdate p_ttime]. now split.
  - intros rc user_id follow_id. eexists. cbn [follow fst].
    split; [reflexivity|]. exact Hdate.
  - unfold _getTime. now rewrite strftime_fits by lia.
  - unfold _getDate. now rewrite strftime_fits by lia.
Qed.

Lemma formatters_buffer_too_small_witness :
  _getTime 8 example_time = None /\ _getDate 8 example_time = None.
Proof.
  destruct (formatters_buffer_too_small 8 example_time example_time)
    as (_ & _ & Ht & Hd & _).
  - lia.
  - unfold calendar_time, example_time. simpl. lia.
  - split; [exact Ht|exact Hd].
Defined.

(** The texts the documentation promises for [example_time]. *)
Example documented_formats :
  format_HMS example_time = "12:34:56"%string
  /\ format_F example_time = "2024-11-03"%string.
Proof. split; reflexivity. Qed.

End ClockFacts.

(* ================================================================= *)
(** ** Input checks *)

Module InputFacts.

Import Input.

(** *** White space at the two ends *)

Lemma find_decompose (l : list ascii) :
  exists sp rest,
    l = sp ++ rest /\ List.length sp = find_if_not_space l /\ white sp
    /\ (rest = [] \/ exists c m, rest = c :: m /\ is_space c = false).
Proof.
  induction l as [|c l IH].
  - exists [], []. repeat split; [constructor|now left].
  - simpl. destruct (is_space c) eqn:Hc.
    + destruct IH as (sp & rest & -> & Hlen & Hsp & Hrest).
      exists (c :: sp), rest. repeat split; simpl; auto.
      now constructor.
    + exists [], (c :: l). repeat split; [constructor|].
      right. now exists c, l.
Qed.

Lemma find_white (l : list ascii) : white l -> find_if_not_space l = List.length l.
Proof.
  induction 1 as [|c l Hc _ IH]; simpl; [reflexivity|]. now rewrite Hc, IH.
Qed.

Lemma find_stops (a b : list ascii) :
  Exists (fun c => is_space c = false) a ->
  find_if_not_space (a ++ b) = find_if_not_space a.
Proof.
  induction 1 as [c a Hc | c a _ IH]; simpl.
  - now rewrite Hc.
  - destruct (is_space c); [now rewrite IH|reflexivity].
Qed.

Lemma find_head (c : ascii) (l : list ascii) :
  is_space c = false -> find_if_not_space (c :: l) = O.
Proof. intros H. simpl. now rewrite H. Qed.

(** The shape of [trim_bytes]: either all is white space and nothing is
    left, or the result runs from the first to the last byte that is not
    white space. *)
Lemma trim_bytes_shape (l : list ascii) :
  (white l /\ trim_bytes l = [])
  \/ exists lead c mid c' trail,
       white lead /\ white trail
       /\ is_space c = false /\ is_space c' = false
       /\ l = lead ++ trim_bytes l ++ trail
       /\ (trim_bytes l = [c] /\ c = c' \/ trim_bytes l = c :: mid ++ [c']).
Proof.
  destruct (find_decompose l) as (lead & d & Hl & Hlead & Wlead & [->|(c & m & -> & Hc)]).
  - left. rewrite app_nil_r in Hl. subst l. split; [exact Wlead|].
    unfold trim_bytes. rewrite (find_white lead Wlead).
    rewrite (find_white (rev lead)) by (apply Forall_rev; exact Wlead).
    rewrite length_rev, Nat.sub_diag. reflexivity.
  - right.
    destruct (find_decompose (rev (c :: m)))
      as (tr & e & Hrev & Htr & Wtr & [->|(c' & m' & -> & Hc')]).
    + rewrite app_nil_r in Hrev. exfalso.
      assert (Hin : In c tr)
        by (rewrite <- Hrev; apply (proj1 (in_rev (c :: m) c)); now left).
      unfold white in Wtr. rewrite Forall_forall in Wtr.
      specialize (Wtr c Hin). congruence.
    + assert (Hd : c :: m = rev (c' :: m') ++ rev tr).
      { rewrite <- rev_app_distr, <- Hrev. now rewrite rev_involutive. }
      assert (Ht : find_if_not_space (rev l) = List.length tr).
      { subst l. rewrite rev_app_distr, find_stops.
        - now rewrite Htr.
        - apply Exists_exists. exists c. split; [|exact Hc].
          apply (proj1 (in_rev (c :: m) c)). now left. }
      assert (Htrim : trim_bytes l = rev (c' :: m')).
      { unfold trim_bytes. rewrite Ht, <- Hlead. subst l.
        rewrite Hd, !length_app, !length_rev.
        replace (List.length lead + (List.length (c' :: m') + List.length tr)
                 - List.length tr - List.length lead)%nat
          with (List.length (c' :: m')) by lia.
        destruct (Nat.ltb_spec (List.length lead)
                    (List.length lead + (List.length (c' :: m') + List.length tr)
                     - List.length tr)) as [_|Hbad]; [|simpl in Hbad; lia].
        rewrite skipn_app, skipn_all, Nat.sub_diag. cbn [skipn app].
        rewrite firstn_app, length_rev, Nat.sub_diag, firstn_O, app_nil_r.
        rewrite <- (length_rev (c' :: m')). apply firstn_all. }
      assert (Wtr' : white (rev tr)) by (apply Forall_rev; exact Wtr).
      assert (Hsplit : l = lead ++ trim_bytes l ++ rev tr)
        by (rewrite Htrim, Hl, Hd; reflexivity).
      rewrite Htrim in Hsplit |- *. cbn [rev] in Hd, Hsplit |- *.
      destruct (rev m') as [|x r].
      * exists lead, c, [], c', (rev tr). cbn in Hd. inversion Hd; subst c'.
        repeat (split; [assumption|]). now left.
      * exists lead, c, r, c', (rev tr). cbn in Hd. inversion Hd; subst x.
        repeat (split; [assumption|]). now right.
Qed.

Lemma trim_bytes_keeps (t : list ascii) (c c' : ascii) (mid : list ascii) :
  is_space c = false -> is_space c' = false ->
  (t = [c] /\ c = c' \/ t = c :: mid ++ [c']) ->
  trim_bytes t = t.
Proof.
  intros Hc Hc' Ht.
  assert (H0 : find_if_not_space t = O)
    by (destruct Ht as [[-> _]| ->]; now apply find_head).
  assert (H1 : find_if_not_space (rev t) = O).
  { destruct Ht as [[-> _]| ->]; [now apply find_head|].
    change (c :: mid ++ [c']) with ((c :: mid) ++ [c']).
    rewrite rev_app_distr. now apply find_head. }
  assert (Hlen : (0 < List.length t)%nat)
    by (destruct Ht as [[-> _]| ->]; simpl; lia).
  unfold trim_bytes. rewrite H0, H1, !Nat.sub_0_r.
  destruct (Nat.ltb_spec 0 (List.length t)); [|lia].
  apply firstn_all.
Qed.

Lemma trim_bytes_idempotent (l : list ascii) :
  trim_bytes (trim_bytes l) = trim_bytes l.
Proof.
  destruct (trim_bytes_shape l)
    as [[_ ->]|(lead & c & mid & c' & trail & _ & _ & Hc & Hc' & _ & Ht)].
  - reflexivity.
  - now apply (trim_bytes_keeps _ c c' mid).
Qed.

Lemma list_of_trim (str : string) :
  list_ascii_of_string (trim str) = trim_bytes (list_ascii_of_string str).
Proof. unfold trim. apply list_ascii_of_string_of_list_ascii. Qed.

(** X1: [trim] cuts white space, and only white space, off the two ends:
    the string is some white space, the result, some white space; the result
    neither starts nor ends with white space, and it is empty exactly when
    the string holds nothing but white space. *)
Theorem trim_cuts_white_space (str : string) :
  exists lead trail,
    list_ascii_of_string str = lead ++ list_ascii_of_string (trim str) ++ trail
    /\ white lead /\ white trail
    /\ (forall c rest, list_ascii_of_string (trim str) = c :: rest -> is_space c = false)
    /\ (forall m c, list_ascii_of_string (trim str) = m ++ [c] -> is_space c = false)
    /\ (trim str = EmptyString <-> white (list_ascii_of_string str)).
Proof.
  rewrite list_of_trim.
  assert (Hempty : trim str = EmptyString <-> trim_bytes (list_ascii_of_string str) = []).
  { rewrite <- list_of_trim. split; [now intros ->|].
    intros H. rewrite <- (string_of_list_ascii_of_string (trim str)), H. reflexivity. }
  destruct (trim_bytes_shape (list_ascii_of_string str))
    as [[Hw Ht]|(lead & c & mid & c' & trail & Wl & Wt & Hc & Hc' & Hsplit & Ht)].
  - exists (list_ascii_of_string str), []. rewrite Hempty, Ht.
    split; [now rewrite !app_nil_r|].
    split; [exact Hw|]. split; [constructor|].
    split; [discriminate|]. split; [|tauto].
    intros m x H. now destruct m.
  - exists lead, trail. rewrite Hempty. split; [exact Hsplit|].
    split; [exact Wl|]. split; [exact Wt|].
    split; [|split; [|split]].
    + intros x rest H. destruct Ht as [[Ht _]|Ht]; rewrite Ht in H;
        inversion H; now subst.
    + intros m x H. destruct Ht as [[Ht <-]|Ht]; rewrite Ht in H.
      * change [c] with ([] ++ [c]) in H. apply app_inj_tail in H.
        destruct H as [_ <-]. exact Hc.
      * change (c :: mid ++ [c']) with ((c :: mid) ++ [c']) in H.
        apply app_inj_tail in H. destruct H as [_ <-]. exact Hc'.
    + intros H. destruct Ht as [[Ht _]|Ht]; rewrite Ht in H; discriminate H.
    + intros Hw. exfalso.
      assert (Hin : In c (list_ascii_of_string str)).
      { rewrite Hsplit. apply in_or_app. right. apply in_or_app. left.
        destruct Ht as [[-> _]| ->]; now left. }
      unfold white in Hw. rewrite Forall_forall in Hw.
      specialize (Hw c Hin). congruence.
Qed.

(** X2: trimming twice is trimming once. *)
Theorem trim_idempotent (str : string) : trim (trim str) = trim str.
Proof.
  unfold trim at 1. rewrite list_of_trim, trim_bytes_idempotent. reflexivity.
Qed.

Example trim_examples :
  trim "  hello  world " = "hello  world"%string
  /\ trim "   " = EmptyString /\ trim "" = EmptyString.
Proof. repeat split; reflexivity. Qed.

(** *** Decimal digits *)

Lemma decimal_split (s : string) :
  forall acc, decimal acc s = acc * 10 ^ Z.of_nat (String.length s) + decimal 0 s.
Proof.
  induction s as [|c s IH]; intros acc; cbn [decimal String.length].
  - rewrite Z.pow_0_r. lia.
  - rewrite (IH (10 * acc + digit_value c)), (IH (10 * 0 + digit_value c)).
    rewrite Nat2Z.inj_succ, Z.pow_succ_r by lia. ring.
Qed.

Lemma decimal_lt (s : string) :
  all_digits s = true -> 0 <= decimal 0 s < 10 ^ Z.of_nat (String.length s).
Proof.
  induction s as [|c s IH]; cbn [decimal String.length all_digits]; intros H.
  - rewrite Z.pow_0_r. lia.
  - apply andb_true_iff in H. destruct H as [Hc Hs].
    apply PaginationFacts.is_digit_value in Hc. specialize (IH Hs).
    rewrite decimal_split, Nat2Z.inj_succ, Z.pow_succ_r by lia. nia.
Qed.

Lemma all_digits_digits_of (l : list ascii) :
  all_digits (string_of_list_ascii (digits_of l)) = true.
Proof.
  induction l as [|c l IH]; [reflexivity|]. unfold digits_of in *. simpl.
  destruct (is_digit c) eqn:Hc; [|exact IH]. simpl. now rewrite Hc.
Qed.

Lemma length_string_of_list (l : list ascii) :
  String.length (string_of_list_ascii l) = List.length l.
Proof. induction l as [|c l IH]; simpl; [reflexivity|now rewrite IH]. Qed.

Lemma isValidPhoneNumber_bounds (input : string) :
  isValidPhoneNumber input = -1 \/ 0 <= isValidPhoneNumber input < 10 ^ 11.
Proof.
  unfold isValidPhoneNumber, isValidPhoneNumber_bytes.
  set (bytes := list_ascii_of_string input).
  destruct (contains LF bytes || contains CR bytes); [now left|].
  destruct (Nat.ltb_spec (List.length (digits_of bytes)) 10) as [Hlo|Hlo]; cbn [orb];
    [now left|].
  destruct (Nat.ltb_spec 11 (List.length (digits_of bytes))) as [Hhi|Hhi]; [now left|].
  pose proof (decimal_lt _ (all_digits_digits_of bytes)) as Hv.
  rewrite length_string_of_list in Hv.
  assert (Hpow : 10 ^ Z.of_nat (List.length (digits_of bytes)) <= 10 ^ 11)
    by (apply Z.pow_le_mono_r; lia).
  unfold stoll. cbv zeta. destruct (_ >? INT64_MAX); [now left|right; lia].
Qed.

(** X3: [isValidPhoneNumber] returns -1 or a number from 0 up to
    99999999999, and never leaves through the exception of [std::stoll]; it
    returns a number exactly when the input has no line feed and no carriage
    return and holds ten or eleven digits, and the number is the one these
    digits spell, whatever stands between them. *)
Theorem isValidPhoneNumber_range (input : string) :
  let bytes := list_ascii_of_string input in
  let digits := digits_of bytes in
  (isValidPhoneNumber input = -1 \/ 0 <= isValidPhoneNumber input < 10 ^ 11)
  /\ (isValidPhoneNumber input <> -1
      <-> contains LF bytes = false /\ contains CR bytes = false
          /\ (10 <= List.length digits <= 11)%nat)
  /\ (isValidPhoneNumber input <> -1 ->
      isValidPhoneNumber input = decimal 0 (string_of_list_ascii digits)).
Proof.
  cbv zeta. unfold isValidPhoneNumber, isValidPhoneNumber_bytes.
  set (bytes := list_ascii_of_string input).
  destruct (contains LF bytes); cbn [orb];
    [split; [now left|]; split; [split; [congruence|intros [H _]; discriminate H]|congruence]|].
  destruct (contains CR bytes);
    [split; [now left|]; split; [split; [congruence|intros [_ [H _]]; discriminate H]|congruence]|].
  destruct (Nat.ltb_spec (List.length (digits_of bytes)) 10) as [Hlo|Hlo]; cbn [orb];
    [split; [now left|]; split; [split; [congruence|lia]|congruence]|].
  destruct (Nat.ltb_spec 11 (List.length (digits_of bytes))) as [Hhi|Hhi];
    [split; [now left|]; split; [split; [congruence|lia]|congruence]|].
  pose proof (decimal_lt _ (all_digits_digits_of bytes)) as Hv.
  rewrite length_string_of_list in Hv.
  assert (Hpow : 10 ^ Z.of_nat (List.length (digits_of bytes)) <= 10 ^ 11)
    by (apply Z.pow_le_mono_r; lia).
  unfold stoll. cbv zeta. rewrite Z.gtb_ltb.
  destruct (Z.ltb_spec INT64_MAX (decimal 0 (string_of_list_ascii (digits_of bytes))))
    as [Hbig|_]; [unfold INT64_MAX in Hbig; lia|].
  split; [right; lia|]. split; [|reflexivity].
  split; [intros _; repeat split; lia|lia].
Qed.

Example phone_with_dashes : isValidPhoneNumber "510-827-7791" = 5108277791.
Proof. reflexivity. Qed.

(** *** The user-id prompt *)

Lemma append_nil_r (s : string) : (s ++ "")%string = s.
Proof. induction s as [|c s IH]; simpl; [reflexivity|now rewrite IH]. Qed.

Lemma is_digit_not_space (c : ascii) : is_digit c = true -> is_space c = false.
Proof.
  unfold is_digit, is_space. cbv zeta.
  rewrite andb_true_iff, !Nat.leb_le. intros [H1 H2].
  destruct (Nat.eqb_spec (nat_of_ascii c) 32); [lia|].
  destruct (Nat.leb_spec 9 (nat_of_ascii c)); [|reflexivity].
  destruct (Nat.leb_spec (nat_of_ascii c) 13); [lia|reflexivity].
Qed.

Lemma is_digit_not_sign (c : ascii) :
  is_digit c = true -> Ascii.eqb c "+" = false /\ Ascii.eqb c "-" = false.
Proof.
  intros H. split.
  - destruct (Ascii.eqb_spec c "+") as [->|]; [discriminate H|reflexivity].
  - destruct (Ascii.eqb_spec c "-") as [->|]; [discriminate H|reflexivity].
Qed.

Lemma skip_spaces_split (s : string) :
  exists ws, s = (ws ++ skip_spaces s)%string /\ white (list_ascii_of_string ws).
Proof.
  induction s as [|c s IH].
  - exists EmptyString. split; [reflexivity|constructor].
  - simpl. destruct (is_space c) eqn:Hc.
    + destruct IH as [ws [Hs Hw]]. exists (String c ws). simpl.
      split; [now rewrite <- Hs|now constructor].
    + exists EmptyString. split; [reflexivity|constructor].
Qed.

Lemma skip_spaces_white (ws rest : string) :
  white (list_ascii_of_string ws) ->
  skip_spaces (ws ++ rest) = skip_spaces rest.
Proof.
  induction ws as [|c ws IH]; simpl; intros H; [reflexivity|].
  inversion H; subst. rewrite H2. now apply IH.
Qed.

Lemma take_drop_digits (s : string) : s = (take_digits s ++ drop_digits s)%string.
Proof.
  induction s as [|c s IH]; simpl; [reflexivity|].
  destruct (is_digit c); simpl; [now rewrite <- IH|reflexivity].
Qed.

Lemma take_digits_all_digits (s : string) : all_digits (take_digits s) = true.
Proof.
  induction s as [|c s IH]; simpl; [reflexivity|].
  destruct (is_digit c) eqn:Hc; simpl; [now rewrite Hc|reflexivity].
Qed.

Lemma take_digits_of_digits (d : string) :
  all_digits d = true -> take_digits d = d /\ drop_digits d = EmptyString.
Proof.
  induction d as [|c d IH]; simpl; intros H; [now split|].
  apply andb_true_iff in H. destruct H as [Hc Hd]. rewrite Hc.
  destruct (IH Hd) as [-> ->]. now split.
Qed.

(** What [strtol] has read when it converts. *)
Lemma strtol_converted (n : string) (v : Z) (p : string) :
  strtol n = converted v p ->
  exists ws sign digits,
    n = (ws ++ sign ++ digits ++ p)%string
    /\ white (list_ascii_of_string ws)
    /\ (sign = EmptyString \/ sign = "+"%string \/ sign = "-"%string)
    /\ all_digits digits = true /\ digits <> EmptyString
    /\ v = (if String.eqb sign "-" then - decimal 0 digits else decimal 0 digits).
Proof.
  unfold strtol. destruct (skip_spaces_split n) as [ws [Hn Hw]].
  destruct (skip_spaces n) as [|c r] eqn:Hs; [discriminate|].
  assert (Hgen : forall sign s negative,
            n = (ws ++ sign ++ s)%string ->
            (sign = EmptyString \/ sign = "+"%string \/ sign = "-"%string) ->
            negative = String.eqb sign "-" ->
            match take_digits s with
            | EmptyString => no_conversion
            | String _ _ as digits =>
                converted (if negative then - decimal 0 digits else decimal 0 digits)
                          (drop_digits s)
            end = converted v p ->
            exists ws sign digits,
              n = (ws ++ sign ++ digits ++ p)%string
              /\ white (list_ascii_of_string ws)
              /\ (sign = EmptyString \/ sign = "+"%string \/ sign = "-"%string)
              /\ all_digits digits = true /\ digits <> EmptyString
              /\ v = (if String.eqb sign "-" then - decimal 0 digits
                      else decimal 0 digits)).
  { intros sign s negative Hn' Hsign Hneg H.
    pose proof (take_digits_all_digits s) as Hall.
    pose proof (take_drop_digits s) as Hsplit.
    destruct (take_digits s) as [|d ds] eqn:Ht; [discriminate H|].
    inversion H; subst v p. exists ws, sign, (String d ds).
    rewrite <- Hsplit, <- Hneg. repeat split; try assumption. discriminate. }
  destruct (Ascii.eqb_spec c "+") as [->|Hplus].
  - apply (Hgen "+"%string r false); auto.
  - destruct (Ascii.eqb_spec c "-") as [->|Hminus].
    + apply (Hgen "-"%string r true); auto.
    + apply (Hgen EmptyString (String c r) false); auto.
Qed.

(** [strtol] reads every integer literal to its end. *)
Lemma strtol_integer_literal (n : string) (v : Z) :
  integer_literal n v -> strtol n = converted v EmptyString.
Proof.
  intros (ws & sign & digits & -> & Hw & Hsign & Hall & Hne & ->).
  unfold strtol. rewrite (skip_spaces_white ws _ Hw).
  destruct digits as [|d ds]; [congruence|].
  assert (Hd : is_digit d = true)
    by (cbn [all_digits] in Hall; now apply andb_true_iff in Hall).
  destruct (take_digits_of_digits _ Hall) as [Ht Hdrop].
  destruct Hsign as [->|[->| ->]]; cbn [append skip_spaces].
  - rewrite (is_digit_not_space d Hd).
    destruct (is_digit_not_sign d Hd) as [-> ->].
    now rewrite Ht, Hdrop.
  - change (is_space "+") with false. cbv iota.
    change (Ascii.eqb "+" "+") with true. cbv iota beta.
    now rewrite Ht, Hdrop.
  - change (is_space "-") with false. cbv iota.
    change (Ascii.eqb "-" "+") with false. change (Ascii.eqb "-" "-") with true.
    cbv iota beta. now rewrite Ht, Hdrop.
Qed.

Lemma c_str_empty (s : string) :
  c_str s = EmptyString -> s = EmptyString \/ exists rest, s = String zero rest.
Proof.
  destruct s as [|c rest]; [now left|]. simpl.
  destruct (Ascii.eqb_spec c zero) as [->|]; [|discriminate].
  right. now exists rest.
Qed.

Lemma is_empty_true (s : string) : is_empty s = true -> s = EmptyString.
Proof. destruct s; [reflexivity|discriminate]. Qed.

Lemma read_user_id_in_range (user_id_str : string) (v : Z) :
  read_user_id user_id_str = prompt_user_id v -> in_range v.
Proof.
  unfold read_user_id, isID, std_stoi.
  destruct (is_empty user_id_str); [discriminate|].
  destruct (strtol (c_str user_id_str)) as [|w p].
  - destruct (is_empty (c_str user_id_str)); discriminate.
  - destruct (is_empty p); [|discriminate].
    rewrite Z.gtb_ltb.
    destruct (Z.ltb_spec w INT32_MIN) as [|Hlo]; [discriminate|].
    destruct (Z.ltb_spec INT32_MAX w) as [|Hhi]; [discriminate|].
    cbn [orb]. intros Heq; inversion Heq; subst. split; assumption.
Qed.

(** X4: the line typed at "User ID:" makes [loginPage] leave through an
    uncaught [std::invalid_argument] exactly when it starts with a null byte;
    every other line is answered by a return, by "Invalid User ID", or by a
    user id that is an [int]. *)
Theorem read_user_id_uncaught (user_id_str : string) :
  (read_user_id user_id_str = prompt_uncaught
   <-> exists rest, user_id_str = String zero rest)
  /\ (forall v, read_user_id user_id_str = prompt_user_id v -> in_range v).
Proof.
  split.
  - unfold read_user_id, isID, std_stoi. split.
    + destruct user_id_str as [|c rest] eqn:Hs; [discriminate|]. cbn [is_empty].
      rewrite <- Hs.
      destruct (strtol (c_str user_id_str)) as [|v p] eqn:Hst.
      * destruct (is_empty (c_str user_id_str)) eqn:He; [|discriminate].
        intros _. apply is_empty_true, c_str_empty in He.
        destruct He as [He|He]; [congruence|]. exact He.
      * destruct (is_empty p); [|discriminate].
        destruct ((v <? INT32_MIN) || (v >? INT32_MAX)); discriminate.
    + intros [rest ->]. reflexivity.
  - intros v. apply read_user_id_in_range.
Qed.

(** X5: [loginPage] goes on with the user id [v] exactly when the line, up to
    a null byte, is white space, an optional sign and at least one decimal
    digit, and the number so written is an [int]; leading white space and
    negative numbers are taken. *)
Theorem read_user_id_accepts (user_id_str : string) (v : Z) :
  read_user_id user_id_str = prompt_user_id v
  <-> integer_literal (c_str user_id_str) v /\ in_range v.
Proof.
  split.
  - intros H. split; [|now apply (read_user_id_in_range user_id_str)].
    revert H. unfold read_user_id, isID, std_stoi.
    destruct (is_empty user_id_str); [discriminate|].
    destruct (strtol (c_str user_id_str)) as [|w p] eqn:Hst.
    + destruct (is_empty (c_str user_id_str)); discriminate.
    + destruct (is_empty p) eqn:Hp; [|discriminate].
      apply is_empty_true in Hp. subst p.
      destruct ((w <? INT32_MIN) || (w >? INT32_MAX)); [discriminate|].
      intros H; inversion H; subst w.
      destruct (strtol_converted _ _ _ Hst)
        as (ws & sign & digits & Hn & Hw & Hsign & Hall & Hne & Hv).
      exists ws, sign, digits. rewrite append_nil_r in Hn. now repeat split.
  - intros [Hlit [Hlo Hhi]].
    pose proof (strtol_integer_literal _ _ Hlit) as Hst.
    unfold read_user_id, isID, std_stoi. rewrite Hst. cbn [is_empty].
    destruct user_id_str as [|c rest].
    + destruct Hlit as (ws & sign & digits & Hc & _ & _ & _ & Hne & _).
      exfalso. cbn in Hc. destruct ws; [|discriminate Hc].
      destruct sign; [|discriminate Hc]. destruct digits; [congruence|discriminate Hc].
    + cbn [is_empty]. rewrite Z.gtb_ltb.
      destruct (Z.ltb_spec v INT32_MIN); [lia|].
      destruct (Z.ltb_spec INT32_MAX v); [lia|]. reflexivity.
Qed.

Example read_user_id_examples :
  read_user_id "" = prompt_return
  /\ read_user_id "12" = prompt_user_id 12
  /\ read_user_id " -7" = prompt_user_id (-7)
  /\ read_user_id "12a" = prompt_invalid_id
  /\ read_user_id "99999999999" = prompt_invalid_id
  /\ read_user_id (String zero "12") = prompt_uncaught.
Proof. repeat split; reflexivity. Qed.

End InputFacts.

(* ================================================================= *)
(** ** The password prompt and the line breaker *)

Module ConsoleFacts.

Import Console.

(** *** The password prompt *)

Lemma show_app (a b : list ascii) :
  show (a ++ b) = fold_left put b (show a).
Proof. unfold show. apply fold_left_app. Qed.

Lemma plain_key_iff (ch : ascii) :
  Ascii.eqb ch LF = false -> Ascii.eqb ch DEL || Ascii.eqb ch BS = false ->
  plain_key ch.
Proof.
  intros H1 H2. apply orb_false_iff in H2. destruct H2 as [H2 H3].
  apply Ascii.eqb_neq in H1, H2, H3. repeat split; assumption.
Qed.

Lemma Forall_removelast {A : Type} (P : A -> Prop) (l : list A) :
  Forall P l -> Forall P (removelast l).
Proof.
  induction 1 as [|x l Hx Hl IH]; [constructor|].
  destruct l as [|y l]; [constructor|].
  change (removelast (x :: y :: l)) with (x :: removelast (y :: l)).
  now constructor.
Qed.

Lemma length_removelast_cons {A : Type} (x : A) (l : list A) :
  S (List.length (removelast (x :: l))) = List.length (x :: l).
Proof.
  revert x. induction l as [|y l IH]; intros x; [reflexivity|].
  change (removelast (x :: y :: l)) with (x :: removelast (y :: l)).
  simpl in *. now rewrite IH.
Qed.

(** The state the loop keeps: the password holds plain keys only, and the
    terminal shows one star for each of them, with blank cells behind. *)
Lemma read_keys_invariant (keys : list ascii) :
  forall password echo blanks result out,
    Forall plain_key password ->
    show echo = mk_line (stars (List.length password)) blanks -> blank blanks ->
    read_keys keys password echo = Some (result, out) ->
    Forall plain_key result
    /\ exists echo' blanks',
         out = echo' ++ [LF]
         /\ show echo' = mk_line (stars (List.length result)) blanks'
         /\ blank blanks'.
Proof.
  induction keys as [|ch rest IH]; intros password echo blanks result out Hp Hs Hb H;
    [discriminate H|].
  cbn [read_keys] in H.
  destruct (Ascii.eqb ch LF) eqn:Hlf.
  - inversion H; subst. split; [exact Hp|]. now exists echo, blanks.
  - destruct (Ascii.eqb ch DEL || Ascii.eqb ch BS) eqn:Herase.
    + destruct password as [|x p] eqn:Hpw.
      * now apply (IH [] echo blanks).
      * rewrite <- Hpw in *.
        apply (IH (removelast password) (echo ++ [BS; " "%char; BS]) (" "%char :: blanks));
          [now apply Forall_removelast | | now constructor | exact H].
        rewrite show_app, Hs.
        rewrite Hpw, <- (length_removelast_cons x p). cbn [stars repeat].
        reflexivity.
    + apply (IH (password ++ [ch]) (echo ++ ["*"%char]) (tl blanks));
        [ | | | exact H].
      * apply Forall_app. split; [exact Hp|]. constructor; [|constructor].
        now apply plain_key_iff.
      * rewrite show_app, Hs, length_app, Nat.add_comm. reflexivity.
      * destruct Hb; [constructor|assumption].
Qed.

Lemma read_keys_returns (keys : list ascii) :
  forall password echo,
    In LF keys <-> exists r, read_keys keys password echo = Some r.
Proof.
  induction keys as [|ch rest IH]; intros password echo; cbn [read_keys In].
  - split; [tauto|]. intros [r H]. discriminate H.
  - destruct (Ascii.eqb_spec ch LF) as [->|Hne].
    + split; [eauto|now left].
    + assert (Hin : ch = LF \/ In LF rest <-> In LF rest)
        by (split; [intros [?|?]; [congruence|assumption]|now right]).
      rewrite Hin.
      destruct (Ascii.eqb ch DEL || Ascii.eqb ch BS); [destruct password|]; apply IH.
Qed.

(** X6: [getHiddenPassword] returns exactly when a line feed arrives.  The
    password it returns holds no line feed, no DEL and no backspace, and what
    it has printed before the final line feed leaves on the terminal one star
    for each byte of the password, the cursor behind the last star, and
    nothing but blanks after it. *)
Theorem hidden_password_echo (keys : list ascii) :
  (In LF keys <-> exists r, getHiddenPassword keys = Some r)
  /\ (forall password out,
        getHiddenPassword keys = Some (password, out) ->
        Forall plain_key password
        /\ exists echo blanks,
             out = echo ++ [LF]
             /\ show echo = mk_line (stars (List.length password)) blanks
             /\ blank blanks).
Proof.
  split; [apply read_keys_returns|].
  intros password out H.
  apply (read_keys_invariant keys [] [] [] password out);
    [constructor | reflexivity | constructor | exact H].
Qed.

Lemma hidden_password_echo_witness :
  In LF (list_ascii_of_string "ab" ++ [DEL; "c"%char; LF])
  /\ getHiddenPassword (list_ascii_of_string "ab" ++ [DEL; "c"%char; LF])
     = Some (list_ascii_of_string "ac",
             list_ascii_of_string "**" ++ [BS; " "%char; BS; "*"%char; LF]).
Proof.
  split.
  - apply (proj1 (hidden_password_echo _)). eexists. reflexivity.
  - reflexivity.
Defined.

Lemma password_ignores_echo (keys : list ascii) :
  forall password echo echo',
    option_map fst (read_keys keys password echo)
    = option_map fst (read_keys keys password echo').
Proof.
  induction keys as [|ch rest IH]; intros password echo echo'; cbn [read_keys];
    [reflexivity|].
  destruct (Ascii.eqb ch LF); [reflexivity|].
  destruct (Ascii.eqb ch DEL || Ascii.eqb ch BS); [destruct password|]; apply IH.
Qed.

Lemma read_keys_erase (k1 : list ascii) :
  forall k2 c e password echo,
    plain_key c -> (e = DEL \/ e = BS) ->
    option_map fst (read_keys (k1 ++ c :: e :: k2) password echo)
    = option_map fst (read_keys (k1 ++ k2) password echo).
Proof.
  induction k1 as [|ch k1 IH]; intros k2 c e password echo Hc He.
  - destruct Hc as (H1 & H2 & H3). apply Ascii.eqb_neq in H1, H2, H3.
    cbn [app read_keys]. rewrite H1, H2, H3. cbn [orb].
    assert (Hlf : Ascii.eqb e LF = false) by (destruct He as [->| ->]; reflexivity).
    assert (Her : Ascii.eqb e DEL || Ascii.eqb e BS = true)
      by (destruct He as [->| ->]; reflexivity).
    rewrite Hlf, Her.
    destruct (password ++ [c]) as [|x p] eqn:Hpw; [now destruct password|].
    rewrite <- Hpw, removelast_last. apply password_ignores_echo.
  - cbn [app read_keys]. destruct (Ascii.eqb ch LF); [reflexivity|].
    destruct (Ascii.eqb ch DEL || Ascii.eqb ch BS); [destruct password|];
      now apply IH.
Qed.

(** X7: a plain key followed by DEL or backspace leaves no trace in the
    password: the keys typed with such a pair in their midst give the
    password they give without it. *)
Theorem erased_key_leaves_no_trace (k1 k2 : list ascii) (c e : ascii) :
  plain_key c -> (e = DEL \/ e = BS) ->
  option_map fst (getHiddenPassword (k1 ++ c :: e :: k2))
  = option_map fst (getHiddenPassword (k1 ++ k2)).
Proof. intros Hc He. now apply read_keys_erase. Qed.

Lemma erased_key_leaves_no_trace_witness :
  option_map fst (getHiddenPassword
                    (list_ascii_of_string "pa" ++ "x"%char :: DEL
                     :: list_ascii_of_string "ss" ++ [LF]))
  = option_map fst (getHiddenPassword
                      (list_ascii_of_string "pa" ++ list_ascii_of_string "ss" ++ [LF])).
Proof.
  apply (erased_key_leaves_no_trace (list_ascii_of_string "pa")
           (list_ascii_of_string "ss" ++ [LF]) "x"%char DEL).
  - repeat split; discriminate.
  - now left.
Defined.

(** *** The line breaker *)

Lemma size_t_small (z : Z) : 0 <= z < 18446744073709551616 -> size_t z = z.
Proof. intros H. unfold size_t. now apply Z.mod_small. Qed.

Lemma extract_words_word (w : list ascii) :
  forall rest word,
    Forall (fun c => is_space c = false) w ->
    extract_words (w ++ rest) word = extract_words rest (word ++ w).
Proof.
  induction w as [|c w IH]; intros rest word H; cbn [app extract_words].
  - now rewrite app_nil_r.
  - inversion H; subst. rewrite H2, IH by assumption.
    now rewrite <- app_assoc.
Qed.

(** The loop only appends to the text it is given. *)
Lemma format_loop_app (words : list (list ascii)) (line_width : Z) :
  forall out cur,
    format_loop words line_width out cur
    = out ++ format_loop words line_width [] cur.
Proof.
  induction words as [|w rest IH]; intros out cur; cbn [format_loop].
  - now rewrite app_nil_r.
  - cbv zeta.
    destruct (_ >? size_t line_width); cbv iota beta;
      (match goal with |- context [if ?b then _ else _] => destruct b end);
      cbv iota beta; rewrite IH, (IH (_ ++ w)); cbn [app];
      now rewrite <- ?app_assoc.
Qed.

(** One turn of the loop, while the [int] does not overflow. *)
Lemma format_loop_step (w : list ascii) (rest : list (list ascii))
    (line_width cur : Z) :
  0 <= cur -> cur + Z.of_nat (List.length w) + 1 <= INT32_MAX ->
  format_loop (w :: rest) line_width [] cur
  = let len := Z.of_nat (List.length w) in
    let nl := cur + len + 1 >? size_t line_width in
    let cur1 := if nl then 0 else cur in
    let sp := cur1 >? 0 in
    (if nl then [LF] else []) ++ (if sp then [" "%char] else []) ++ w
    ++ format_loop rest line_width [] ((if sp then cur1 + 1 else cur1) + len).
Proof.
  intros Hcur Hmax. unfold INT32_MAX in Hmax. cbn [format_loop]. cbv zeta.
  rewrite (size_t_small cur) by lia.
  rewrite (size_t_small (cur + Z.of_nat (List.length w) + 1)) by lia.
  destruct (cur + Z.of_nat (List.length w) + 1 >? size_t line_width); cbv iota beta.
  - change (0 >? 0) with false. cbv iota beta.
    rewrite (size_t_small 0), size_t_small, wrap_small by in32.
    rewrite format_loop_app. reflexivity.
  - rewrite Z.gtb_ltb. destruct (Z.ltb_spec 0 cur); cbv iota beta.
    + rewrite add_small by in32.
      rewrite (size_t_small (cur + 1)), size_t_small, wrap_small by in32.
      rewrite format_loop_app. reflexivity.
    + rewrite (size_t_small cur), size_t_small, wrap_small by in32.
      rewrite format_loop_app. reflexivity.
Qed.

Lemma extract_words_white (sep : list ascii) (text : list ascii) :
  Forall (fun c => is_space c = true) sep ->
  extract_words (sep ++ text) [] = extract_words text [].
Proof.
  induction 1 as [|c sep Hc _ IH]; cbn [app extract_words]; [reflexivity|].
  now rewrite Hc.
Qed.

Lemma extract_words_next (sep w tail : list ascii) :
  Forall (fun c => is_space c = true) sep -> is_word w -> starts_white tail ->
  extract_words (sep ++ w ++ tail) [] = w :: extract_words tail [].
Proof.
  intros Hsep [Hne Hw] Htail.
  rewrite extract_words_white, extract_words_word by assumption. cbn [app].
  destruct w as [|x w]; [congruence|].
  destruct Htail as [->|(c & t & -> & Hc)]; cbn [extract_words]; [reflexivity|].
  now rewrite Hc.
Qed.

Lemma spread_nonneg (ws : list (list ascii)) : 0 <= spread ws.
Proof. induction ws as [|w ws IH]; cbn [spread]; lia. Qed.

Lemma format_loop_words (line_width : Z) (ws : list (list ascii)) :
  forall cur,
    Forall is_word ws -> 0 <= cur -> cur + spread ws <= INT32_MAX ->
    words_of (format_loop ws line_width [] cur) = ws
    /\ (0 < cur -> starts_white (format_loop ws line_width [] cur)).
Proof.
  induction ws as [|w rest IH]; intros cur Hws Hcur Hmax.
  - split; [reflexivity|]. intros _. now left.
  - inversion Hws as [|? ? Hw Hrest]; subst. cbn [spread] in Hmax.
    pose proof (spread_nonneg rest) as Hsp.
    assert (Hlen : 1 <= Z.of_nat (List.length w))
      by (destruct Hw as [Hne _]; destruct w; [congruence|simpl; lia]).
    rewrite format_loop_step by lia. cbv zeta.
    set (len := Z.of_nat (List.length w)) in *.
    set (nl := cur + len + 1 >? size_t line_width).
    set (cur1 := if nl then 0 else cur).
    assert (Hcur1 : 0 <= cur1 <= cur) by (subst cur1; destruct nl; lia).
    set (cur3 := (if cur1 >? 0 then cur1 + 1 else cur1) + len).
    assert (Hcur3 : 1 <= cur3 <= cur + 1 + len)
      by (subst cur3; destruct (cur1 >? 0); lia).
    destruct (IH cur3 Hrest ltac:(lia) ltac:(lia)) as [Hwords Hstart].
    specialize (Hstart ltac:(lia)).
    split.
    + unfold words_of in *. rewrite app_assoc.
      rewrite extract_words_next; [now rewrite Hwords| |exact Hw|exact Hstart].
      apply Forall_app. split; [destruct nl|destruct (cur1 >? 0)];
        repeat constructor.
    + intros Hpos. right. destruct nl eqn:Hnl.
      * exists LF. eexists. split; [reflexivity|reflexivity].
      * subst cur1. rewrite Z.gtb_ltb. destruct (Z.ltb_spec 0 cur); [|lia].
        exists " "%char. eexists. split; reflexivity.
Qed.

Lemma extract_words_are_words (text : list ascii) :
  forall word,
    Forall (fun c => is_space c = false) word ->
    Forall is_word (extract_words text word).
Proof.
  induction text as [|c text IH]; intros word Hword; cbn [extract_words].
  - destruct word as [|x w]; [constructor|].
    constructor; [|constructor]. split; [discriminate|exact Hword].
  - destruct (is_space c) eqn:Hc.
    + destruct word as [|x w]; [apply IH; constructor|].
      constructor; [split; [discriminate|exact Hword]|apply IH; constructor].
    + apply IH. apply Forall_app. split; [exact Hword|]. now repeat constructor.
Qed.

Lemma extract_words_spread (text : list ascii) :
  forall word,
    spread (extract_words text word)
    <= Z.of_nat (List.length text) + Z.of_nat (List.length word) + 1.
Proof.
  induction text as [|c text IH]; intros word; cbn [extract_words].
  - destruct word; cbn [spread List.length]; lia.
  - destruct (is_space c).
    + destruct word as [|x w].
      * specialize (IH []). cbn [List.length] in *. lia.
      * specialize (IH []). cbn [spread]. cbn [List.length] in *. lia.
    + specialize (IH (word ++ [c])). rewrite length_app in IH.
      cbn [List.length] in *. lia.
Qed.

Lemma length_list_of_string (s : string) :
  List.length (list_ascii_of_string s) = String.length s.
Proof. induction s as [|c s IH]; simpl; [reflexivity|now rewrite IH]. Qed.

Lemma list_of_formatTweetText (text : string) (line_width : Z) :
  list_ascii_of_string (formatTweetText text line_width)
  = formatTweetText_bytes (list_ascii_of_string text) line_width.
Proof. unfold formatTweetText. apply list_ascii_of_string_of_list_ascii. Qed.

(** X8: [formatTweetText] changes the white space of a text and nothing
    else: the words of the result are the words of the text, in their
    order, whatever the line width. *)
Theorem formatTweetText_keeps_words (text : string) (line_width : Z) :
  Z.of_nat (String.length text) < INT32_MAX ->
  words_of (list_ascii_of_string (formatTweetText text line_width))
  = words_of (list_ascii_of_string text).
Proof.
  intros Hlen. rewrite list_of_formatTweetText. unfold formatTweetText_bytes.
  pose proof (extract_words_spread (list_ascii_of_string text) []) as Hsp.
  rewrite length_list_of_string in Hsp. cbn [List.length] in Hsp.
  apply format_loop_words.
  - apply extract_words_are_words. constructor.
  - lia.
  - unfold words_of. lia.
Qed.

Lemma formatTweetText_keeps_words_witness :
  words_of (list_ascii_of_string (formatTweetText "the quick  brown fox" 10))
  = words_of (list_ascii_of_string "the quick  brown fox").
Proof.
  apply (formatTweetText_keeps_words "the quick  brown fox" 10).
  unfold INT32_MAX. simpl. lia.
Defined.

Lemma line_lengths_word (w : list ascii) :
  forall tail column,
    Forall (fun c => is_space c = false) w ->
    line_lengths (w ++ tail) column
    = line_lengths tail (column + Z.of_nat (List.length w)).
Proof.
  induction w as [|c w IH]; intros tail column H; cbn [app line_lengths List.length].
  - f_equal. lia.
  - inversion H as [|? ? Hc Hw]; subst.
    destruct (Ascii.eqb_spec c LF) as [->|_]; [discriminate Hc|].
    rewrite IH by assumption. f_equal. lia.
Qed.

Lemma format_loop_lines (line_width : Z) (ws : list (list ascii)) :
  forall cur,
    0 <= cur <= line_width -> 2 * line_width <= INT32_MAX ->
    Forall is_word ws ->
    Forall (fun w => Z.of_nat (List.length w) < line_width) ws ->
    Forall (fun n => 0 <= n <= line_width)
           (line_lengths (format_loop ws line_width [] cur) cur).
Proof.
  induction ws as [|w rest IH]; intros cur Hcur Hw2 Hws Hshort.
  - cbn. constructor; [lia|constructor].
  - inversion Hws as [|? ? Hw Hrest]; subst.
    inversion Hshort as [|? ? Hlen Hshort']; subst.
    unfold INT32_MAX in Hw2.
    rewrite format_loop_step by in32. cbv zeta.
    rewrite (size_t_small line_width) by lia.
    rewrite Z.gtb_ltb.
    destruct (Z.ltb_spec line_width (cur + Z.of_nat (List.length w) + 1)) as [Hnl|Hnl].
    + change (0 >? 0) with false. cbv iota. cbn [app line_lengths].
      change (Ascii.eqb LF LF) with true. cbv iota.
      constructor; [lia|].
      destruct Hw as [_ Hw]. rewrite line_lengths_word by exact Hw.
      apply IH; try assumption; lia.
    + rewrite Z.gtb_ltb. destruct (Z.ltb_spec 0 cur) as [Hpos|Hzero].
      * cbn [app line_lengths]. change (Ascii.eqb " " LF) with false. cbv iota.
        destruct Hw as [_ Hw]. rewrite line_lengths_word by exact Hw.
        replace (cur + 1 + Z.of_nat (List.length w))
          with (cur + 1 + Z.of_nat (List.length w)) by lia.
        apply IH; try assumption; lia.
      * cbn [app]. destruct Hw as [_ Hw]. rewrite line_lengths_word by exact Hw.
        apply IH; try assumption; lia.
Qed.

(** X9: when every word of the text is shorter than the line width, no line
    of the text [formatTweetText] returns is longer than the line width. *)
Theorem formatTweetText_line_width (text : string) (line_width : Z) :
  0 <= line_width -> 2 * line_width <= INT32_MAX ->
  Forall (fun w => Z.of_nat (List.length w) < line_width)
         (words_of (list_ascii_of_string text)) ->
  Forall (fun n => 0 <= n <= line_width)
         (line_lengths (list_ascii_of_string (formatTweetText text line_width)) 0).
Proof.
  intros Hlw Hw2 Hshort. rewrite list_of_formatTweetText.
  unfold formatTweetText_bytes. apply format_loop_lines; try assumption; [lia|].
  apply extract_words_are_words. constructor.
Qed.

Lemma formatTweetText_line_width_witness :
  Forall (fun n => 0 <= n <= 10)
         (line_lengths
            (list_ascii_of_string
               (formatTweetText "the quick  brown fox jumps over the lazy dog" 10)) 0).
Proof.
  apply (formatTweetText_line_width "the quick  brown fox jumps over the lazy dog" 10).
  - lia.
  - unfold INT32_MAX. lia.
  - vm_compute. repeat constructor.
Defined.

(** A word as long as the line: the text starts with an empty line, and the
    line of the word is over the width. *)
Example formatTweetText_long_word :
  formatTweetText "abcdef gh" 5
  = string_of_list_ascii (LF :: list_ascii_of_string "abcdef" ++ LF :: list_ascii_of_string "gh").
Proof. reflexivity. Qed.

End ConsoleFacts.

(* ================================================================= *)
(** ** Accounts *)

Module AccountsFacts.

Import Accounts.

Lemma insert_asc_in (x y : Z) (l : list Z) :
  In y (insert_asc x l) <-> y = x \/ In y l.
Proof.
  induction l as [|z l IH]; simpl; [intuition|].
  destruct (x <=? z); simpl; [intuition|]. rewrite IH. intuition.
Qed.

Lemma order_by_asc_in (y : Z) (l : list Z) : In y (order_by_asc l) <-> In y l.
Proof.
  induction l as [|x l IH]; simpl; [reflexivity|].
  rewrite insert_asc_in, IH. intuition.
Qed.

Lemma insert_asc_sorted (x : Z) (l : list Z) :
  Sorted Z.le l -> Sorted Z.le (insert_asc x l).
Proof.
  induction 1 as [|y l Hs IH Hhd]; simpl; [repeat constructor|].
  destruct (Z.leb_spec x y) as [Hxy|Hxy].
  - constructor; [now constructor|]. now constructor.
  - constructor; [exact IH|].
    destruct l as [|z l]; simpl.
    + constructor. lia.
    + destruct (Z.leb_spec x z); constructor; [lia|].
      inversion Hhd; subst. assumption.
Qed.

Lemma order_by_asc_sorted (l : list Z) : Sorted Z.le (order_by_asc l).
Proof.
  induction l as [|x l IH]; simpl; [constructor|]. now apply insert_asc_sorted.
Qed.

Lemma map_wrap_in_range (l : list Z) : Forall in_range l -> map wrap l = l.
Proof.
  induction 1 as [|x l Hx _ IH]; simpl; [reflexivity|].
  now rewrite wrap_small, IH.
Qed.

(** What the first query of the allocator returns for a table of [int]
    identifiers. *)
Lemma select_usr_nonneg_spec (users : list users_row) :
  Forall in_range (map usr users) ->
  Sorted Z.le (select_usr_nonneg users)
  /\ forall x, In x (select_usr_nonneg users) <-> In x (map usr users) /\ 0 <= x.
Proof.
  intros Hr. unfold select_usr_nonneg.
  rewrite map_wrap_in_range.
  - split; [apply order_by_asc_sorted|].
    intros x. rewrite order_by_asc_in, filter_In, Z.leb_le. reflexivity.
  - apply Forall_forall. intros x Hx.
    apply order_by_asc_in, filter_In in Hx. destruct Hx as [Hx _].
    rewrite Forall_forall in Hr. now apply Hr.
Qed.

(** The outcomes of [addUser]. *)
Lemma addUser_outcome (users : list users_row)
    (prepared_asc prepared_desc prepared_insert : bool) (rc : Clock.step_code)
    (name email : string) (phone : Z) (password : string) :
  Forall in_range (map usr users) ->
  (exists k, 1 <= k <= INT32_MAX /\ ~ In k (map usr users)) ->
  match addUser users prepared_asc prepared_desc prepared_insert rc
                name email phone password with
  | (Some user_id, users') =>
      users' = users ++ [bound_row user_id name email phone password]
      /\ 1 <= user_id <= INT32_MAX
      /\ ~ In user_id (map usr users)
      /\ (forall j, 1 <= j < user_id -> In j (map usr users))
  | (None, users') => users' = users
  end.
Proof.
  intros Hr [k [Hk Hnk]]. unfold addUser.
  destruct prepared_asc; [|reflexivity].
  destruct (select_usr_nonneg_spec users Hr) as [Hsorted Hin].
  rewrite AllocatorFacts.negative_pool_never_read. cbn [negb].
  destruct prepared_insert; cbn [negb]; [|reflexivity].
  destruct rc; try reflexivity.
  assert (Hgap : exists k, 1 <= k <= INT32_MAX /\ ~ In k (select_usr_nonneg users)).
  { exists k. split; [exact Hk|]. rewrite Hin. tauto. }
  destruct (AllocatorFacts.scan_up_spec (select_usr_nonneg users) 1 Hsorted Hgap
              ltac:(in32)) as [Hc [Hnc Hbelow]].
  cbv zeta in Hc, Hnc, Hbelow.
  split; [reflexivity|]. split; [exact Hc|]. split.
  - intros Hid. apply Hnc. apply Hin. split; [exact Hid|lia].
  - intros j Hj. now apply Hin, Hbelow.
Qed.

Lemma example_users_in_range : Forall in_range (map usr example_users).
Proof. cbn [map usr example_users]. repeat (apply Forall_cons; [in32|]). apply Forall_nil. Qed.

Lemma example_users_gap :
  exists k, 1 <= k <= INT32_MAX /\ ~ In k (map usr example_users).
Proof.
  exists 2. split; [unfold INT32_MAX; lia|].
  simpl. intros [H|[H|[]]]; discriminate H.
Qed.

(** X10: [addUser] returns an identifier exactly when its first query and
    its INSERT prepare and the INSERT is answered by [SQLITE_DONE]; the second
    query of the allocator plays no part.  The table has then gained the one
    row bound to the INSERT, and the identifier is positive, is not the
    identifier of any row the table held, and is the smallest such one.
    When [addUser] returns [nullptr] the table is as it was. *)
Theorem addUser_fresh_identifier (users : list users_row)
    (prepared_asc prepared_desc prepared_insert : bool) (rc : Clock.step_code)
    (name email : string) (phone : Z) (password : string) :
  Forall in_range (map usr users) ->
  (exists k, 1 <= k <= INT32_MAX /\ ~ In k (map usr users)) ->
  (fst (addUser users prepared_asc prepared_desc prepared_insert rc
                name email phone password) <> None
   <-> prepared_asc = true /\ prepared_insert = true /\ rc = Clock.SQLITE_DONE)
  /\ match addUser users prepared_asc prepared_desc prepared_insert rc
                   name email phone password with
     | (Some user_id, users') =>
         users' = users ++ [bound_row user_id name email phone password]
         /\ 1 <= user_id <= INT32_MAX
         /\ ~ In user_id (map usr users)
         /\ (forall j, 1 <= j < user_id -> In j (map usr users))
     | (None, users') => users' = users
     end.
Proof.
  intros Hr Hgap. split; [|now apply addUser_outcome].
  unfold addUser. destruct prepared_asc.
  - rewrite AllocatorFacts.negative_pool_never_read. cbn [negb].
    destruct prepared_insert; cbn [negb fst].
    + destruct rc; cbn [fst]; split;
        try (intros _; repeat split; discriminate);
        try (intros [_ [_ Hrc]]; discriminate Hrc);
        try (intros Hn; now contradiction Hn);
        try (intros _; now repeat split).
    + split; [intros Hn; now contradiction Hn|intros [_ [Hp _]]; discriminate Hp].
  - cbn [Allocator.get_unique_user_id negb fst].
    split; [intros Hn; now contradiction Hn|intros [Hp _]; discriminate Hp].
Qed.

Lemma addUser_fresh_identifier_witness :
  (fst (addUser example_users true false true Clock.SQLITE_DONE
                "bob" "b@x.ca" 5108277791 "secret") <> None
   <-> true = true /\ true = true /\ Clock.SQLITE_DONE = Clock.SQLITE_DONE)
  /\ match addUser example_users true false true Clock.SQLITE_DONE
                   "bob" "b@x.ca" 5108277791 "secret" with
     | (Some user_id, users') =>
         users' = example_users
                  ++ [bound_row user_id "bob" "b@x.ca" 5108277791 "secret"]
         /\ 1 <= user_id <= INT32_MAX
         /\ ~ In user_id (map usr example_users)
         /\ (forall j, 1 <= j < user_id -> In j (map usr example_users))
     | (None, users') => users' = example_users
     end.
Proof.
  apply (addUser_fresh_identifier example_users true false true Clock.SQLITE_DONE
           "bob" "b@x.ca" 5108277791 "secret").
  - exact example_users_in_range.
  - exact example_users_gap.
Defined.

Example addUser_example :
  addUser example_users true true true Clock.SQLITE_DONE
          "bob" "b@x.ca" 5108277791 "secret"
  = (Some 2, example_users
             ++ [mk_users_row 2 (Some "bob"%string) (Some "b@x.ca"%string)
                              (Some 813310495) (Some "secret"%string)]).
Proof. vm_compute. reflexivity. Qed.

(** X11: a telephone number that [isValidPhoneNumber] has accepted reaches
    the table through [sqlite3_bind_int]: the row [addUser] adds holds the
    number itself exactly when the number is at most [INT32_MAX], and another
    number otherwise, as for every ten-digit number from 2147483648 on. *)
Theorem addUser_phone_column (users : list users_row)
    (prepared_asc prepared_desc prepared_insert : bool) (rc : Clock.step_code)
    (name email input password : string) (user_id : Z) (users' : list users_row) :
  Input.isValidPhoneNumber input <> -1 ->
  addUser users prepared_asc prepared_desc prepared_insert rc
          name email (Input.isValidPhoneNumber input) password
  = (Some user_id, users') ->
  exists row,
    users' = users ++ [row]
    /\ phone row = Some (wrap (Input.isValidPhoneNumber input))
    /\ (phone row = Some (Input.isValidPhoneNumber input)
        <-> Input.isValidPhoneNumber input <= INT32_MAX).
Proof.
  intros Hvalid H.
  destruct (InputFacts.isValidPhoneNumber_bounds input) as [Hbad|Hrange];
    [contradiction|].
  unfold addUser in H.
  destruct (Allocator.get_unique_user_id _ _) as [got id].
  destruct (negb got); [discriminate H|].
  destruct (negb prepared_insert); [discriminate H|].
  destruct rc; try discriminate H. inversion H; subst.
  eexists. split; [reflexivity|]. cbn [phone bound_row]. split; [reflexivity|].
  split.
  - intros Heq. injection Heq as Heq'.
    pose proof (wrap_in_range (Input.isValidPhoneNumber input)) as Hw.
    rewrite Heq' in Hw. unfold in_range in Hw. lia.
  - intros Hle. f_equal. apply wrap_small. in32.
Qed.

Lemma addUser_phone_column_witness :
  exists row,
    [mk_users_row 1 (Some "bob"%string) (Some "b@x.ca"%string)
                  (Some 813310495) (Some "secret"%string)] = [] ++ [row]
    /\ phone row = Some (wrap (Input.isValidPhoneNumber "510-827-7791"))
    /\ (phone row = Some (Input.isValidPhoneNumber "510-827-7791")
        <-> Input.isValidPhoneNumber "510-827-7791" <= INT32_MAX).
Proof.
  apply (addUser_phone_column [] true true true Clock.SQLITE_DONE
           "bob" "b@x.ca" "510-827-7791" "secret" 1).
  - vm_compute. discriminate.
  - vm_compute. reflexivity.
Defined.

Lemma filter_usr_fresh (users : list users_row) (user_id : Z) (p : users_row -> bool) :
  ~ In user_id (map usr users) ->
  filter (fun r => (usr r =? user_id) && p r) users = [].
Proof.
  induction users as [|r users IH]; intros Hn; simpl; [reflexivity|].
  destruct (Z.eqb_spec (usr r) user_id) as [Heq|Hne].
  - exfalso. apply Hn. left. exact Heq.
  - cbn [andb]. apply IH. intros Hin. apply Hn. now right.
Qed.

Lemma filter_usr_other (users : list users_row) (row : users_row) (u : Z)
    (p : users_row -> bool) :
  usr row <> u ->
  filter (fun r => (usr r =? u) && p r) (users ++ [row])
  = filter (fun r => (usr r =? u) && p r) users.
Proof.
  intros Hne. rewrite filter_app. cbn [filter].
  destruct (Z.eqb_spec (usr row) u) as [Heq|_]; [contradiction|].
  cbn [andb]. apply app_nil_r.
Qed.

Lemma c_str_idempotent (s : string) : c_str (c_str s) = c_str s.
Proof.
  induction s as [|c s IH]; [reflexivity|]. cbn [c_str].
  destruct (Ascii.eqb c zero) eqn:Hc; [reflexivity|].
  cbn [c_str]. rewrite Hc, IH. reflexivity.
Qed.

(** X12: an account that [addUser] has created can log in.  With [usr] the
    first column of the table, [checkLogin] on the table [addUser] leaves
    returns the new identifier for the password given at sign-up and for
    every password that agrees with it up to its first null byte, and
    [nullptr] for every other password; [getUsername] returns the name given
    at sign-up, up to its first null byte; and for every other identifier
    [checkLogin] and [getUsername] answer as they did before. *)
Theorem signup_then_login (first_column : users_row -> Z)
    (users users' : list users_row)
    (prepared_asc prepared_desc prepared_insert : bool) (rc : Clock.step_code)
    (name email : string) (phone : Z) (password : string) (user_id : Z) :
  (forall r, first_column r = usr r) ->
  Forall in_range (map usr users) ->
  (exists k, 1 <= k <= INT32_MAX /\ ~ In k (map usr users)) ->
  addUser users prepared_asc prepared_desc prepared_insert rc
          name email phone password = (Some user_id, users') ->
  (forall typed,
     checkLogin first_column users' true user_id typed
     = if String.eqb (c_str password) (c_str typed)
       then Some user_id else None)
  /\ getUsername users' true user_id = c_str name
  /\ (forall u typed, u <> user_id ->
        checkLogin first_column users' true u typed
        = checkLogin first_column users true u typed
        /\ getUsername users' true u = getUsername users true u).
Proof.
  intros Hfirst Hr Hgap H.
  pose proof (addUser_outcome users prepared_asc prepared_desc prepared_insert rc
                name email phone password Hr Hgap) as Hout.
  rewrite H in Hout. destruct Hout as (-> & Hid & Hfresh & _).
  split; [|split].
  - intros typed. unfold checkLogin. rewrite filter_app.
    rewrite (filter_usr_fresh users user_id _ Hfresh).
    cbn [app filter bound_row usr pwd text_equals]. rewrite Z.eqb_refl. cbn [andb].
    destruct (String.eqb _ _); [|reflexivity].
    rewrite Hfirst. cbn [usr]. f_equal. apply wrap_small. in32.
  - unfold getUsername.
    replace (filter (fun r => usr r =? user_id) (users ++ [bound_row user_id name email phone password]))
      with [bound_row user_id name email phone password].
    + cbn [bound_row Accounts.name]. apply c_str_idempotent.
    + rewrite filter_app.
      assert (Hnil : filter (fun r => usr r =? user_id) users = []).
      { rewrite <- (filter_usr_fresh users user_id (fun _ => true) Hfresh).
        apply filter_ext. intros r. now rewrite andb_true_r. }
      rewrite Hnil. cbn [app filter bound_row usr]. now rewrite Z.eqb_refl.
  - intros u typed Hu. split.
    + unfold checkLogin. rewrite filter_usr_other; [reflexivity|].
      cbn [bound_row usr]. congruence.
    + unfold getUsername.
      assert (Heq : forall l, filter (fun r => usr r =? u) l
                              = filter (fun r => (usr r =? u) && true) l).
      { intros l. apply filter_ext. intros r. now rewrite andb_true_r. }
      rewrite !Heq. rewrite (filter_usr_other users _ u (fun _ => true)); [reflexivity|].
      cbn [bound_row usr]. congruence.
Qed.

Lemma signup_then_login_witness :
  (forall typed,
     checkLogin usr (example_users
                     ++ [bound_row 2 "bob" "b@x.ca" 5108277791 "secret"])
                true 2 typed
     = if String.eqb (c_str "secret") (c_str typed)
       then Some 2 else None)
  /\ getUsername (example_users
                  ++ [bound_row 2 "bob" "b@x.ca" 5108277791 "secret"]) true 2
     = c_str "bob"
  /\ (forall u typed, u <> 2 ->
        checkLogin usr (example_users
                        ++ [bound_row 2 "bob" "b@x.ca" 5108277791 "secret"])
                   true u typed
        = checkLogin usr example_users true u typed
        /\ getUsername (example_users
                        ++ [bound_row 2 "bob" "b@x.ca" 5108277791 "secret"]) true u
           = getUsername example_users true u).
Proof.
  apply (signup_then_login usr example_users _ true true true Clock.SQLITE_DONE
           "bob" "b@x.ca" 5108277791 "secret" 2).
  - reflexivity.
  - exact example_users_in_range.
  - exact example_users_gap.
  - vm_compute. reflexivity.
Defined.

(** [checkLogin] looks at the password up to its first null byte only: the
    password ["pw"] followed by a null byte and anything else logs ann in. *)
Example checkLogin_null_byte :
  checkLogin usr example_users true 1 (String "p" (String "w" (String zero "xyz")))
  = Some 1.
Proof. reflexivity. Qed.

End AccountsFacts.

(* ================================================================= *)
(** ** Following, the feed, and lists *)

Module StoreFacts.

Import Feed Store.

Lemma in_select_tweets (db : database) (user_id : Z) (e : feed_row) :
  In e (select_tweets db user_id)
  <-> exists t1 f1 u1,
        In t1 (tweets db) /\ In f1 (follows db) /\ In u1 (users db)
        /\ t_writer_id t1 = flwee f1
        /\ t_writer_id t1 = usr u1
        /\ flwer f1 = user_id
        /\ e = mk_row type_tweet (t_tid t1) (u_name u1) (t_writer_id t1)
                      (t_tdate t1) (t_ttime t1) (t_text t1).
Proof.
  unfold select_tweets. split.
  - intros H.
    apply in_flat_map in H. destruct H as [t1 [Ht1 H]].
    apply in_flat_map in H. destruct H as [f1 [Hf1 H]].
    destruct (Z.eqb_spec (t_writer_id t1) (flwee f1)) as [E1|]; [|destruct H].
    apply in_flat_map in H. destruct H as [u1 [Hu1 H]].
    destruct (Z.eqb_spec (t_writer_id t1) (usr u1)) as [E2|]; [|destruct H].
    destruct (Z.eqb_spec (flwer f1) user_id) as [E3|]; [|destruct H].
    destruct H as [<-|[]].
    exists t1, f1, u1. repeat split; assumption.
  - intros (t1 & f1 & u1 & Ht1 & Hf1 & Hu1 & E1 & E2 & E3 & ->).
    apply in_flat_map. exists t1. split; [exact Ht1|].
    apply in_flat_map. exists f1. split; [exact Hf1|].
    rewrite (proj2 (Z.eqb_eq _ _) E1).
    apply in_flat_map. exists u1. split; [exact Hu1|].
    rewrite (proj2 (Z.eqb_eq _ _) E2), (proj2 (Z.eqb_eq _ _) E3).
    now left.
Qed.

Lemma follows_row_eta (f : follows_row) : f = mk_follows (flwer f) (flwee f).
Proof. now destruct f. Qed.

(** X13: the feed holds no row twice, and each of its rows comes from an
    account the reader follows: the reader's [follows] row for the writer (or
    re-sharer) is in the store, the name shown is that of the writer's
    [users] row, and the identifier, time and text are those of a stored
    quack. *)
Theorem feed_from_followed_accounts (db : database) (user_id : Z) :
  NoDup (feed_rows db user_id)
  /\ forall e, In e (feed_rows db user_id) ->
       In (mk_follows user_id (row_writer_id e)) (follows db)
       /\ (exists u, In u (users db)
                     /\ usr u = row_writer_id e /\ u_name u = row_name e)
       /\ (exists t, In t (tweets db)
                     /\ t_tid t = row_tid e /\ t_ttime t = row_time e
                     /\ t_text t = row_text e).
Proof.
  split.
  - unfold feed_rows, union.
    apply (Permutation_NoDup (FeedFacts.order_by_perm _)). apply NoDup_nodup.
  - intros e He. apply FeedFacts.in_feed_rows, in_app_or in He.
    destruct He as [He|He].
    + apply in_select_tweets in He.
      destruct He as (t1 & f1 & u1 & Ht1 & Hf1 & Hu1 & E1 & E2 & E3 & ->).
      cbn [row_writer_id row_name row_tid row_time row_text].
      split; [|split].
      * rewrite E1, <- E3, <- follows_row_eta. exact Hf1.
      * exists u1. now repeat split.
      * exists t1. now repeat split.
    + apply FeedFacts.in_select_retweets in He.
      destruct He as (r & t2 & f2 & u2 & Hr & Ht2 & Hf2 & Hu2
                      & E1 & E2 & E3 & E4 & E5 & ->).
      cbn [row_writer_id row_name row_tid row_time row_text].
      split; [|split].
      * rewrite E2, <- E4, <- follows_row_eta. exact Hf2.
      * exists u2. now repeat split.
      * exists t2. now repeat split.
Qed.

(** *** Filtering a feed *)

Lemma filter_flat_map {A B : Type} (p : B -> bool) (f : A -> list B) (l : list A) :
  filter p (flat_map f l) = flat_map (fun x => filter p (f x)) l.
Proof.
  induction l as [|x l IH]; simpl; [reflexivity|].
  now rewrite filter_app, IH.
Qed.

Lemma flat_map_ext_in {A B : Type} (f g : A -> list B) (l : list A) :
  (forall x, In x l -> f x = g x) -> flat_map f l = flat_map g l.
Proof.
  induction l as [|x l IH]; intros H; simpl; [reflexivity|].
  rewrite (H x (or_introl eq_refl)), IH; [reflexivity|].
  intros y Hy. apply H. now right.
Qed.

(** Rows produced from kept [follows] rows only. *)
Lemma flat_map_filter_rows {A B : Type} (q : A -> bool) (p : B -> bool)
    (f : A -> list B) (l : list A) :
  (forall x y, In y (f x) -> p y = q x) ->
  flat_map f (filter q l) = filter p (flat_map f l).
Proof.
  intros H. induction l as [|x l IH]; simpl; [reflexivity|].
  rewrite filter_app, <- IH.
  assert (Hx : filter p (f x) = if q x then f x else []).
  { destruct (q x) eqn:Hq.
    - apply forallb_filter_id. apply forallb_forall. intros y Hy.
      rewrite (H x y Hy). exact Hq.
    - assert (Hall : forall l', (forall y, In y l' -> p y = false) -> filter p l' = []).
      { induction l' as [|y l' IH']; intros Hl; simpl; [reflexivity|].
        rewrite (Hl y (or_introl eq_refl)). apply IH'. intros z Hz. apply Hl. now right. }
      apply Hall. intros y Hy. rewrite (H x y Hy). exact Hq. }
  rewrite Hx. destruct (q x); reflexivity.
Qed.

Lemma filter_nodup (p : feed_row -> bool) (l : list feed_row) :
  filter p (nodup feed_row_eq_dec l) = nodup feed_row_eq_dec (filter p l).
Proof.
  induction l as [|x l IH]; simpl; [reflexivity|].
  destruct (in_dec feed_row_eq_dec x l) as [Hin|Hnin].
  - destruct (p x) eqn:Hp; [|exact IH].
    simpl. destruct (in_dec feed_row_eq_dec x (filter p l)) as [_|Hn]; [exact IH|].
    exfalso. apply Hn. apply filter_In. now split.
  - simpl. destruct (p x) eqn:Hp; [|exact IH].
    simpl. destruct (in_dec feed_row_eq_dec x (filter p l)) as [Hin|_].
    + exfalso. apply Hnin. now apply filter_In in Hin.
    + now rewrite IH.
Qed.

Lemma insert_desc_front (x : feed_row) (l : list feed_row) :
  Forall (row_le x) l -> insert_desc x l = x :: l.
Proof.
  intros H. destruct l as [|y l]; [reflexivity|]. simpl.
  inversion H as [|? ? Hy _]; subst. unfold row_le in Hy. now rewrite Hy.
Qed.

Lemma filter_insert_desc (p : feed_row -> bool) (x : feed_row) (l : list feed_row) :
  StronglySorted row_le l ->
  filter p (insert_desc x l)
  = if p x then insert_desc x (filter p l) else filter p l.
Proof.
  induction 1 as [|y l Hs IH Hall]; simpl.
  - destruct (p x); reflexivity.
  - destruct (comes_before x y) eqn:Hxy.
    + cbn [filter]. destruct (p x) eqn:Hpx; [|reflexivity].
      destruct (p y) eqn:Hpy.
      * simpl. now rewrite Hxy.
      * symmetry. apply insert_desc_front.
        apply Forall_forall. intros z Hz. apply filter_In in Hz.
        destruct Hz as [Hz _]. rewrite Forall_forall in Hall.
        apply (FeedFacts.row_le_trans x y z); [exact Hxy|now apply Hall].
    + cbn [filter]. rewrite IH. destruct (p y) eqn:Hpy; destruct (p x) eqn:Hpx;
        try reflexivity.
      simpl. now rewrite Hxy.
Qed.

Lemma filter_order_by (p : feed_row -> bool) (l : list feed_row) :
  filter p (order_by_date_time_desc l) = order_by_date_time_desc (filter p l).
Proof.
  induction l as [|x l IH]; simpl; [reflexivity|].
  rewrite filter_insert_desc by apply FeedFacts.order_by_sorted_rows.
  rewrite IH. destruct (p x); reflexivity.
Qed.

Lemma select_tweets_unfollow (db : database) (user_id follow_id : Z) :
  select_tweets (with_follows db (filter (kept user_id follow_id) (follows db))) user_id
  = filter (not_by follow_id) (select_tweets db user_id).
Proof.
  unfold select_tweets, with_follows. cbn [tweets follows users].
  rewrite filter_flat_map. apply flat_map_ext_in. intros t1 _.
  apply flat_map_filter_rows. intros f1 e He.
  destruct (Z.eqb_spec (t_writer_id t1) (flwee f1)) as [E1|]; [|destruct He].
  apply in_flat_map in He. destruct He as [u1 [_ He]].
  destruct (Z.eqb_spec (t_writer_id t1) (usr u1)) as [E2|]; [|destruct He].
  destruct (Z.eqb_spec (flwer f1) user_id) as [E3|]; [|destruct He].
  destruct He as [<-|[]].
  unfold not_by, kept. cbn [row_writer_id].
  rewrite E1, E3, Z.eqb_refl. reflexivity.
Qed.

Lemma select_retweets_unfollow (db : database) (user_id follow_id : Z) :
  select_retweets (with_follows db (filter (kept user_id follow_id) (follows db))) user_id
  = filter (not_by follow_id) (select_retweets db user_id).
Proof.
  unfold select_retweets, with_follows. cbn [tweets retweets follows users].
  rewrite filter_flat_map. apply flat_map_ext_in. intros r _.
  rewrite filter_flat_map. apply flat_map_ext_in. intros t2 _.
  destruct (t_tid t2 =? r_tid r); [|reflexivity].
  apply flat_map_filter_rows. intros f2 e He.
  destruct (Z.eqb_spec (r_retweeter_id r) (flwee f2)) as [E1|]; [|destruct He].
  apply in_flat_map in He. destruct He as [u2 [_ He]].
  destruct (Z.eqb_spec (r_retweeter_id r) (usr u2)) as [E2|]; [|destruct He].
  destruct (Z.eqb_spec (flwer f2) user_id) as [E3|]; [|destruct He].
  destruct (r_spam r =? 0); [|destruct He].
  destruct He as [<-|[]].
  unfold not_by, kept. cbn [row_writer_id].
  rewrite E1, E3, Z.eqb_refl. reflexivity.
Qed.

(** The rows of [follows] of another reader give nothing to a feed. *)
Lemma feed_rows_other_reader (db : database) (rows : list follows_row)
    (user_id other : Z) (q : follows_row -> bool) :
  (forall f, q f = false -> flwer f <> other) ->
  feed_rows (with_follows db (filter q rows)) other
  = feed_rows (with_follows db rows) other.
Proof.
  intros Hq. unfold feed_rows.
  replace (select_tweets (with_follows db (filter q rows)) other)
    with (select_tweets (with_follows db rows) other);
    [replace (select_retweets (with_follows db (filter q rows)) other)
       with (select_retweets (with_follows db rows) other); [reflexivity|]|];
    symmetry.
  2: { unfold select_tweets, with_follows. cbn [tweets follows users].
    apply flat_map_ext_in. intros t1 _.
    apply FeedFacts.flat_map_filter. intros f1 Hf1.
    destruct (t_writer_id t1 =? flwee f1); [|reflexivity].
    apply FeedFacts.flat_map_nil. intros u1.
    destruct (Z.eqb_spec (flwer f1) other) as [E|_];
      [now apply Hq in Hf1|now rewrite andb_false_r]. }
  - unfold select_retweets, with_follows. cbn [tweets retweets follows users].
    apply flat_map_ext_in. intros r _. apply flat_map_ext_in. intros t2 _.
    destruct (t_tid t2 =? r_tid r); [|reflexivity].
    apply FeedFacts.flat_map_filter. intros f2 Hf2.
    destruct (r_retweeter_id r =? flwee f2); [|reflexivity].
    apply FeedFacts.flat_map_nil. intros u2.
    destruct (Z.eqb_spec (flwer f2) other) as [E|_];
      [now apply Hq in Hf2|].
    now rewrite andb_false_r.
Qed.

Lemma feed_rows_append_other (db : database) (rows : list follows_row)
    (x : follows_row) (other : Z) :
  flwer x <> other ->
  feed_rows (with_follows db (rows ++ [x])) other
  = feed_rows (with_follows db rows) other.
Proof.
  intros Hx. apply Z.eqb_neq in Hx.
  unfold feed_rows.
  replace (select_tweets (with_follows db (rows ++ [x])) other)
    with (select_tweets (with_follows db rows) other);
    [replace (select_retweets (with_follows db (rows ++ [x])) other)
       with (select_retweets (with_follows db rows) other); [reflexivity|]|];
    symmetry.
  2: { unfold select_tweets, with_follows. cbn [tweets follows users].
    apply flat_map_ext_in. intros t1 _.
    rewrite flat_map_app. cbn [flat_map]. rewrite app_nil_r.
    destruct (t_writer_id t1 =? flwee x); [|apply app_nil_r].
    rewrite (FeedFacts.flat_map_nil _ (users db)); [apply app_nil_r|].
    intros u1. now rewrite Hx, andb_false_r. }
  - unfold select_retweets, with_follows. cbn [tweets retweets follows users].
    apply flat_map_ext_in. intros r _. apply flat_map_ext_in. intros t2 _.
    destruct (t_tid t2 =? r_tid r); [|reflexivity].
    rewrite flat_map_app. cbn [flat_map]. rewrite app_nil_r.
    destruct (r_retweeter_id r =? flwee x); [|apply app_nil_r].
    rewrite (FeedFacts.flat_map_nil _ (users db)); [apply app_nil_r|].
    intros u2. now rewrite Hx, andb_false_r.
Qed.

Lemma with_follows_same (db : database) : with_follows db (follows db) = db.
Proof. now destruct db. Qed.

(** X14: once [unfollow] has returned true, the reader's feed is the feed as
    it was without the rows written or re-shared by the account unfollowed,
    the other rows in the order they had; the feed of every other reader is
    as it was. *)
Theorem unfollow_removes_from_feed (db db' : database) (prepared : bool)
    (rc : Clock.step_code) (user_id follow_id : Z) :
  unfollow db prepared rc user_id follow_id = (db', true) ->
  feed_rows db' user_id = filter (not_by follow_id) (feed_rows db user_id)
  /\ forall other, other <> user_id -> feed_rows db' other = feed_rows db other.
Proof.
  unfold unfollow. intros H.
  destruct prepared; [|discriminate H].
  destruct rc; try discriminate H. injection H as <-.
  split.
  - unfold feed_rows, union.
    rewrite filter_order_by, filter_nodup, filter_app.
    now rewrite select_tweets_unfollow, select_retweets_unfollow.
  - intros other Hother.
    rewrite (feed_rows_other_reader db (follows db) user_id other).
    + now rewrite with_follows_same.
    + intros f Hf. unfold kept in Hf. apply negb_false_iff, andb_true_iff in Hf.
      destruct Hf as [Hf _]. apply Z.eqb_eq in Hf. congruence.
Qed.

Lemma unfollow_removes_from_feed_witness :
  feed_rows (with_follows example_db [mk_follows 30 10]) 30
  = filter (not_by 20) (feed_rows example_db 30)
  /\ forall other, other <> 30 ->
       feed_rows (with_follows example_db [mk_follows 30 10]) other
       = feed_rows example_db other.
Proof.
  apply (unfollow_removes_from_feed example_db _ true Clock.SQLITE_DONE 30 20).
  reflexivity.
Defined.

Example feed_after_unfollow :
  feed_rows (fst (unfollow example_db true Clock.SQLITE_DONE 30 20)) 30
  = [example_post].
Proof. vm_compute. reflexivity. Qed.

(** X15: once [follow] has returned true, the reader's feed holds the rows
    it held and the rows the new [follows] row alone gives, which are rows of
    the account followed, and nothing else; the feed of every other reader is
    as it was. *)
Theorem follow_extends_feed (db db' : database) (prepared : bool)
    (rc : Clock.step_code) (user_id follow_id : Z) :
  follow db prepared rc user_id follow_id = (db', true) ->
  (forall e, In e (feed_rows db' user_id)
             <-> In e (feed_rows db user_id)
                 \/ In e (feed_rows (with_follows db [mk_follows user_id follow_id])
                                    user_id))
  /\ (forall e, In e (feed_rows (with_follows db [mk_follows user_id follow_id])
                                user_id) ->
                row_writer_id e = follow_id)
  /\ forall other, other <> user_id -> feed_rows db' other = feed_rows db other.
Proof.
  unfold follow. intros H.
  destruct prepared; [|discriminate H].
  destruct rc; try discriminate H. injection H as <-.
  split; [|split].
  - intros e. rewrite !FeedFacts.in_feed_rows, !in_app_iff.
    rewrite !in_select_tweets, !FeedFacts.in_select_retweets.
    unfold with_follows. cbn [tweets retweets follows users].
    split.
    + intros [(t1 & f1 & u1 & Ht1 & Hf1 & Hrest)
             |(r & t2 & f2 & u2 & Hr & Ht2 & Hf2 & Hrest)].
      * apply in_app_or in Hf1. destruct Hf1 as [Hf1|Hf1].
        -- left. left. now exists t1, f1, u1.
        -- right. left. now exists t1, f1, u1.
      * apply in_app_or in Hf2. destruct Hf2 as [Hf2|Hf2].
        -- left. right. now exists r, t2, f2, u2.
        -- right. right. now exists r, t2, f2, u2.
    + intros [[(t1 & f1 & u1 & Ht1 & Hf1 & Hrest)
              |(r & t2 & f2 & u2 & Hr & Ht2 & Hf2 & Hrest)]
             |[(t1 & f1 & u1 & Ht1 & Hf1 & Hrest)
              |(r & t2 & f2 & u2 & Hr & Ht2 & Hf2 & Hrest)]].
      * left. exists t1, f1, u1. split; [exact Ht1|].
        split; [apply in_or_app; now left|exact Hrest].
      * right. exists r, t2, f2, u2. split; [exact Hr|]. split; [exact Ht2|].
        split; [apply in_or_app; now left|exact Hrest].
      * left. exists t1, f1, u1. split; [exact Ht1|].
        split; [apply in_or_app; now right|exact Hrest].
      * right. exists r, t2, f2, u2. split; [exact Hr|]. split; [exact Ht2|].
        split; [apply in_or_app; now right|exact Hrest].
  - intros e He. apply FeedFacts.in_feed_rows, in_app_or in He.
    unfold with_follows in He.
    destruct He as [He|He].
    + apply in_select_tweets in He. cbn [tweets follows users] in He.
      destruct He as (t1 & f1 & u1 & _ & [<-|[]] & _ & E1 & _ & _ & ->).
      exact E1.
    + apply FeedFacts.in_select_retweets in He.
      cbn [tweets retweets follows users] in He.
      destruct He as (r & t2 & f2 & u2 & _ & _ & [<-|[]] & _ & _ & E2 & _ & _ & _ & ->).
      exact E2.
  - intros other Hother.
    rewrite feed_rows_append_other by (cbn [flwer]; congruence).
    now rewrite with_follows_same.
Qed.

Lemma follow_extends_feed_witness :
  (forall e, In e (feed_rows (with_follows example_db
                                (follows example_db ++ [mk_follows 10 20])) 10)
             <-> In e (feed_rows example_db 10)
                 \/ In e (feed_rows (with_follows example_db [mk_follows 10 20]) 10))
  /\ (forall e, In e (feed_rows (with_follows example_db [mk_follows 10 20]) 10) ->
                row_writer_id e = 20)
  /\ forall other, other <> 10 ->
       feed_rows (with_follows example_db
                    (follows example_db ++ [mk_follows 10 20])) other
       = feed_rows example_db other.
Proof.
  apply (follow_extends_feed example_db _ true Clock.SQLITE_DONE 10 20).
  reflexivity.
Defined.

Example feed_after_follow :
  feed_rows example_db 10 = []
  /\ feed_rows (fst (follow example_db true Clock.SQLITE_DONE 10 20)) 10
     = [example_repost].
Proof. split; vm_compute; reflexivity. Qed.

Lemma filter_kept_all (user_id follow_id : Z) (rows : list follows_row) :
  ~ In (mk_follows user_id follow_id) rows ->
  filter (kept user_id follow_id) rows = rows.
Proof.
  intros Hn. apply forallb_filter_id, forallb_forall. intros f Hf.
  unfold kept. apply negb_true_iff, andb_false_iff.
  destruct (Z.eqb_spec (flwer f) user_id) as [E1|]; [|now left].
  destruct (Z.eqb_spec (flwee f) follow_id) as [E2|]; [|now right].
  exfalso. apply Hn. rewrite <- E1, <- E2, <- follows_row_eta. exact Hf.
Qed.

(** X16: [unfollow] undoes [follow].  After a call of [follow], whatever it
    did, an [unfollow] of the same account that returns true leaves the store
    that [unfollow] alone would have left; when the reader did not follow the
    account before, this is the store as it was before the two calls. *)
Theorem unfollow_undoes_follow (db : database) (prepared : bool)
    (rc : Clock.step_code) (user_id follow_id : Z) :
  fst (unfollow (fst (follow db prepared rc user_id follow_id))
                true Clock.SQLITE_DONE user_id follow_id)
  = fst (unfollow db true Clock.SQLITE_DONE user_id follow_id)
  /\ (~ In (mk_follows user_id follow_id) (follows db) ->
      fst (unfollow (fst (follow db prepared rc user_id follow_id))
                    true Clock.SQLITE_DONE user_id follow_id) = db).
Proof.
  assert (Hsame : fst (unfollow (fst (follow db prepared rc user_id follow_id))
                                true Clock.SQLITE_DONE user_id follow_id)
                  = fst (unfollow db true Clock.SQLITE_DONE user_id follow_id)).
  { unfold follow. destruct prepared; [|reflexivity].
    destruct rc; try reflexivity.
    unfold unfollow, with_follows. cbn [fst tweets retweets follows users].
    rewrite filter_app. cbn [filter]. unfold kept at 2. cbn [flwer flwee].
    rewrite !Z.eqb_refl. cbn [andb negb]. now rewrite app_nil_r. }
  split; [exact Hsame|].
  intros Hn. rewrite Hsame. unfold unfollow. cbn [fst].
  rewrite filter_kept_all by exact Hn. apply with_follows_same.
Qed.

(** *** The display strings of [getFeed] *)

Lemma length_spaces (n : nat) : String.length (spaces n) = n.
Proof. induction n as [|n IH]; simpl; [reflexivity|now rewrite IH]. Qed.

Lemma blanks_spaces (n : nat) : blanks (spaces n).
Proof.
  unfold blanks. induction n as [|n IH]; simpl; [constructor|].
  constructor; [reflexivity|exact IH].
Qed.

Lemma format_row_cases (e : feed_row) :
  (80 < String.length (or_unknown (row_name e)))%nat
  /\ format_row e = Throw length_error
  \/ (String.length (or_unknown (row_name e)) <= 80)%nat
     /\ exists s, format_row e = Ok s /\ padded_entry e s.
Proof.
  unfold format_row. cbv zeta.
  destruct (Nat.ltb_spec 80 (String.length (or_unknown (row_name e)))) as [Hlong|Hfits].
  - left. now split.
  - right. split; [exact Hfits|]. eexists. split; [reflexivity|].
    exists (spaces (80 - String.length (or_unknown (row_name e)))).
    split; [reflexivity|]. split; [apply blanks_spaces|].
    rewrite length_spaces. lia.
Qed.

Lemma format_rows_cases (rows : list feed_row) :
  (Exists (fun e => (80 < String.length (or_unknown (row_name e)))%nat) rows
   /\ format_rows rows = Throw length_error)
  \/ (Forall (fun e => (String.length (or_unknown (row_name e)) <= 80)%nat) rows
      /\ exists feed, format_rows rows = Ok feed /\ Forall2 padded_entry rows feed).
Proof.
  induction rows as [|e rows IH]; cbn [format_rows].
  - right. split; [constructor|]. exists []. split; [reflexivity|constructor].
  - destruct (format_row_cases e) as [[Hlong ->]|[Hfits (s & -> & Hs)]]; cbn [bind].
    + left. split; [now apply Exists_cons_hd|reflexivity].
    + destruct IH as [[Hex ->]|[Hall (feed & -> & Hfeed)]]; cbn [bind].
      * left. split; [now apply Exists_cons_tl|reflexivity].
      * right. split; [now constructor|].
        exists (s :: feed). split; [reflexivity|now constructor].
Qed.

(** X17: [getFeed] writes each column as a C string, up to its first null
    byte, and "Unknown" for a name, a date or a time that is NULL
    ([or_unknown]).  It leaves through [std::length_error] exactly when its
    statement prepares and the name of some row of the feed, so written, is
    longer than 80 bytes; it throws nothing else.  Otherwise it returns one
    string for each row, in the order of the rows, in which the name as
    written is padded with blanks to 80 columns before the date; without a
    prepared statement it returns the empty feed. *)
Theorem getFeed_pads_or_throws (db : database) (prepared : bool) (user_id : Z) :
  (getFeed db prepared user_id = Throw length_error
   <-> prepared = true
       /\ Exists (fun e => (80 < String.length (or_unknown (row_name e)))%nat)
                 (feed_rows db user_id))
  /\ getFeed db prepared user_id <> Throw out_of_range
  /\ (forall feed, getFeed db prepared user_id = Ok feed ->
        if prepared then Forall2 padded_entry (feed_rows db user_id) feed
        else feed = []).
Proof.
  unfold getFeed. destruct prepared.
  - destruct (format_rows_cases (feed_rows db user_id))
      as [[Hex Hthrow]|[Hall (feed & Hok & Hfeed)]].
    + rewrite Hthrow. split; [|split].
      * split; [now split|reflexivity].
      * discriminate.
      * discriminate.
    + rewrite Hok. split; [|split].
      * split; [discriminate|].
        intros [_ Hex]. exfalso.
        apply Exists_exists in Hex. destruct Hex as [e [He Hlong]].
        rewrite Forall_forall in Hall. specialize (Hall e He). lia.
      * discriminate.
      * intros feed' Heq. injection Heq as <-. exact Hfeed.
  - split; [|split].
    + split; [discriminate|intros [H _]; discriminate H].
    + discriminate.
    + intros feed Heq. now injection Heq as <-.
Qed.

Example getFeed_long_name :
  getFeed (mk_database [example_tweet] [] [mk_follows 30 10]
             [mk_user 10 (Some (spaces 81))]) true 30
  = Throw length_error.
Proof. vm_compute. reflexivity. Qed.

(** A name of 84 bytes with a null byte after the first two is written as
    two bytes and padded with 78 blanks. *)
Example getFeed_name_with_null_byte :
  getFeed (mk_database [example_tweet] [] [mk_follows 30 10]
             [mk_user 10 (Some ("an" ++ String zero (spaces 81))%string)]) true 30
  = Ok [("an" ++ spaces 78 ++ "2024-01-02 10:00:00" ++ nl ++ nl ++ "hello" ++ nl)%string].
Proof. vm_compute. reflexivity. Qed.

(** *** Lists *)

Lemma lists_row_eta (l : lists_row) : l = mk_list (owner_id l) (lname l).
Proof. now destruct l. Qed.

Lemma _listExists_in (st : list_store) (prepared : bool) (list_name : string)
    (user_id : Z) :
  _listExists st prepared list_name user_id = true
  <-> prepared = true /\ In (mk_list user_id (c_str list_name)) (lists st).
Proof.
  unfold _listExists. destruct prepared.
  - rewrite existsb_exists. split.
    + intros (l & Hl & H). apply andb_true_iff in H. destruct H as [H1 H2].
      apply Z.eqb_eq in H1. apply String.eqb_eq in H2.
      split; [reflexivity|]. rewrite <- H1, <- H2, <- lists_row_eta. exact Hl.
    + intros [_ Hin]. exists (mk_list user_id (c_str list_name)).
      split; [exact Hin|]. cbn [owner_id lname].
      now rewrite Z.eqb_refl, String.eqb_refl.
  - split; [discriminate|intros [H _]; discriminate H].
Qed.

Lemma run_call_entries (st : list_store) (c : list_call) :
  entries_have_lists st -> entries_have_lists (run_call st c).
Proof.
  intros Hinv. destruct c as [prepared rc user_id list_name
                             |prepared_exists prepared rc list_name tweet_id user_id];
    cbn [run_call].
  - unfold createList. destruct prepared; [|exact Hinv].
    destruct rc; try exact Hinv.
    intros e He. cbn [fst lists include] in *. apply in_or_app. left. now apply Hinv.
  - unfold addToList.
    destruct (_listExists st prepared_exists list_name user_id) eqn:Hex;
      cbn [negb]; [|exact Hinv].
    destruct prepared; [|exact Hinv]. destruct rc; try exact Hinv.
    apply _listExists_in in Hex. destruct Hex as [_ Hin].
    intros e He. cbn [fst lists include] in *.
    apply in_app_or in He. destruct He as [He|[<-|[]]]; [now apply Hinv|].
    exact Hin.
Qed.

(** X18: no entry without its list.  When every entry of [include] names a
    list of its owner in [lists], this is still so after any sequence of
    calls of [createList] and [addToList], whatever the statements answer:
    [addToList] adds an entry only behind the check of [_listExists], and
    neither function takes a list away. *)
Theorem entries_keep_their_lists (st : list_store) (calls : list list_call) :
  entries_have_lists st -> entries_have_lists (run_calls st calls).
Proof.
  revert st. induction calls as [|c calls IH]; intros st Hinv; [exact Hinv|].
  cbn [run_calls fold_left]. apply IH. now apply run_call_entries.
Qed.

Lemma entries_keep_their_lists_witness :
  entries_have_lists
    (run_calls (mk_list_store [] [])
       [call_addToList true true Clock.SQLITE_DONE "read later" 7 1;
        call_createList true Clock.SQLITE_DONE 1 "read later";
        call_addToList true true Clock.SQLITE_DONE "read later" 7 1;
        call_addToList true true Clock.SQLITE_DONE "read later" 8 2]).
Proof.
  apply (entries_keep_their_lists (mk_list_store [] [])).
  intros e [].
Defined.

Example lists_after_calls :
  run_calls (mk_list_store [] [])
    [call_addToList true true Clock.SQLITE_DONE "read later" 7 1;
     call_createList true Clock.SQLITE_DONE 1 "read later";
     call_addToList true true Clock.SQLITE_DONE "read later" 7 1;
     call_addToList true true Clock.SQLITE_DONE "read later" 8 2]
  = mk_list_store [mk_list 1 "read later"] [mk_include 1 "read later" 7].
Proof. reflexivity. Qed.

End StoreFacts.

(* ================================================================= *)
(** ** The result pages *)

Module PagesFacts.

Import Pagination Pages.

Lemma wrap_size_t (z : Z) : wrap (Console.size_t z) = wrap z.
Proof.
  unfold wrap, Console.size_t. f_equal.
  rewrite (Zplus_mod (z mod 18446744073709551616)), (Zplus_mod z).
  rewrite (Z.mod_mod_divide z 18446744073709551616 4294967296); [reflexivity|].
  exists 4294967296. reflexivity.
Qed.

Section ResultsFacts.

Variable A : Type.
Variable show : Z -> A -> result string.

Implicit Types (results rest : list A) (lines : list string).

Lemma size32_small results :
  Z.of_nat (List.length results) <= INT32_MAX ->
  size32 results = Z.of_nat (List.length results).
Proof. intros H. apply wrap_small. in32. Qed.

Lemma size_minus32_small results (k : Z) :
  Z.of_nat (List.length results) <= INT32_MAX -> 0 <= k <= INT32_MAX ->
  size_minus32 results k = Z.of_nat (List.length results) - k.
Proof.
  intros H Hk. unfold size_minus32. rewrite wrap_size_t. apply wrap_small. in32.
Qed.

(** The comparisons of the source, decided. *)
Ltac compare :=
  repeat match goal with
  | |- context [?a <? ?b] => destruct (Z.ltb_spec a b)
  | |- context [?a <=? ?b] => destruct (Z.leb_spec a b)
  | |- context [?a >? ?b] => rewrite (Z.gtb_ltb a b)
  | |- context [?a >=? ?b] => rewrite (Z.geb_leb a b)
  | |- context [?a =? ?b] => destruct (Z.eqb_spec a b)
  end; cbn [andb orb negb]; try reflexivity; try lia.

(** A row is printed exactly when its number lies among the last five up to
    the display count, or up to the number of results when that is less. *)
Lemma skipped_window results (DisplayCount n : Z) :
  Z.of_nat (List.length results) <= INT32_MAX ->
  0 <= DisplayCount <= INT32_MAX ->
  1 <= n <= Z.of_nat (List.length results) ->
  let hi := Z.min DisplayCount (Z.of_nat (List.length results)) in
  negb (skipped results DisplayCount (n + 1)) = (hi - 5 <? n) && (n <=? hi).
Proof.
  intros Hsize Hc Hn hi. subst hi. unfold skipped.
  rewrite size32_small, size_minus32_small by in32.
  rewrite (sub_small (n + 1) 1), (sub_small DisplayCount 4) by in32.
  compare.
Qed.

Lemma print_rows_spec results (DisplayCount : Z) :
  forall rest i out i',
    0 <= i -> i + Z.of_nat (List.length rest) <= INT32_MAX ->
    print_rows show results rest DisplayCount i = Ok (out, i') ->
    out = filter (fun p => negb (skipped results DisplayCount (fst p + 1)))
                 (numbered i rest)
    /\ i' = i + Z.of_nat (List.length rest).
Proof.
  induction rest as [|row rest IH]; intros i out i' Hi Hlen H.
  - cbn in H. injection H as <- <-. split; [reflexivity|]. cbn. lia.
  - cbn [print_rows numbered filter fst List.length] in *.
    rewrite (add_small i 1) in H by in32.
    rewrite (sub_small (i + 1) 1) in H by in32.
    replace (i + 1 - 1) with i in H by lia.
    destruct (skipped results DisplayCount (i + 1)); cbn [negb].
    + destruct (IH (i + 1) out i' ltac:(lia) ltac:(lia) H) as [-> ->].
      split; [reflexivity|lia].
    + destruct (show i row); [|discriminate H].
      destruct (print_rows show results rest DisplayCount (i + 1))
        as [[out' i_end]|] eqn:Hrest; [|discriminate H].
      injection H as <- <-.
      destruct (IH (i + 1) out' i_end ltac:(lia) ltac:(lia) Hrest) as [-> ->].
      split; [reflexivity|lia].
Qed.

Lemma in_numbered (n : Z) (a : A) :
  forall rest first,
    In (n, a) (numbered first rest)
    <-> first <= n < first + Z.of_nat (List.length rest)
        /\ nth_error rest (Z.to_nat (n - first)) = Some a.
Proof.
  induction rest as [|x rest IH]; intros first'; cbn [numbered In List.length].
  - split; [intros []|intros [H _]; lia].
  - rewrite IH. split.
    + intros [H|[H1 H2]].
      * injection H as -> ->. split; [lia|].
        now replace (n - n) with 0 by lia.
      * split; [lia|].
        replace (Z.to_nat (n - first')) with (S (Z.to_nat (n - (first' + 1)))) by lia.
        exact H2.
    + intros [H1 H2]. destruct (Z.eq_dec n first') as [->|Hne].
      * left. replace (first' - first') with 0 in H2 by lia.
        cbn in H2. now injection H2 as ->.
      * right. split; [lia|].
        replace (Z.to_nat (n - first')) with (S (Z.to_nat (n - (first' + 1)))) in H2 by lia.
        exact H2.
Qed.

Lemma length_rows_between (lo hi : Z) :
  forall rest first,
    Z.of_nat (List.length
                (filter (fun p : Z * A => (lo <? fst p) && (fst p <=? hi))
                        (numbered first rest)))
    <= Z.max 0 (hi - Z.max lo (first - 1)).
Proof.
  induction rest as [|x rest IH]; intros first; cbn [numbered filter fst].
  - cbn. lia.
  - specialize (IH (first + 1)).
    destruct (Z.ltb_spec lo first); destruct (Z.leb_spec first hi);
      cbn [andb List.length]; lia.
Qed.

(** The rows the [for] loop prints. *)
Lemma print_rows_window results (DisplayCount : Z) (out : list (Z * A)) (i : Z) :
  Z.of_nat (List.length results) < INT32_MAX ->
  0 <= DisplayCount <= INT32_MAX ->
  print_rows show results results DisplayCount 1 = Ok (out, i) ->
  let hi := Z.min DisplayCount (Z.of_nat (List.length results)) in
  out = rows_between (hi - 5) hi results
  /\ i = Z.of_nat (List.length results) + 1.
Proof.
  intros Hsize Hc H hi.
  destruct (print_rows_spec results DisplayCount results 1 out i
              ltac:(lia) ltac:(lia) H) as [-> ->].
  split; [|lia]. unfold rows_between.
  apply filter_ext_in. intros [n a] Hin. cbn [fst].
  apply in_numbered in Hin. destruct Hin as [Hn _].
  apply skipped_window; lia.
Qed.

Lemma in_rows_between results (lo hi n : Z) (a : A) :
  In (n, a) (rows_between lo hi results)
  <-> lo < n <= hi
      /\ 1 <= n <= Z.of_nat (List.length results)
      /\ nth_error results (Z.to_nat (n - 1)) = Some a.
Proof.
  unfold rows_between. rewrite filter_In, in_numbered. cbn [fst].
  rewrite andb_true_iff, Z.ltb_lt, Z.leb_le. intuition lia.
Qed.

Lemma nth_error_row results (n : Z) :
  1 <= n <= Z.of_nat (List.length results) ->
  exists row, nth_error results (Z.to_nat (n - 1)) = Some row.
Proof.
  intros Hn. destruct (nth_error results (Z.to_nat (n - 1))) as [row|] eqn:H.
  - now exists row.
  - apply nth_error_None in H. lia.
Qed.

(** The rows printed were written without an exception, and the loop throws
    what writing a row throws. *)
Lemma print_rows_shown results (DisplayCount : Z) :
  forall rest i out i',
    print_rows show results rest DisplayCount i = Ok (out, i') ->
    forall n row, In (n, row) out -> exists s, show n row = Ok s.
Proof.
  induction rest as [|x rest IH]; intros i out i' H n row Hin.
  - cbn in H. injection H as <- <-. destruct Hin.
  - cbn [print_rows] in H.
    destruct (skipped results DisplayCount (add i 1)); [now apply (IH _ _ _ H)|].
    destruct (show (sub (add i 1) 1) x) as [s|] eqn:Hs; [|discriminate H].
    destruct (print_rows show results rest DisplayCount (add i 1))
      as [[out' i_end]|] eqn:Hrest; [|discriminate H].
    injection H as <- <-. destruct Hin as [Hin|Hin].
    + injection Hin as <- <-. now exists s.
    + now apply (IH _ _ _ Hrest).
Qed.

Lemma print_rows_throws results (DisplayCount : Z) (kind : exn) :
  (forall n row e, show n row = Throw e -> e = kind) ->
  forall rest i e,
    print_rows show results rest DisplayCount i = Throw e -> e = kind.
Proof.
  intros Hshow. induction rest as [|x rest IH]; intros i e H; [discriminate H|].
  cbn [print_rows] in H.
  destruct (skipped results DisplayCount (add i 1)); [now apply (IH _ _ H)|].
  destruct (show (sub (add i 1) 1) x) as [s|e'] eqn:Hs.
  - destruct (print_rows show results rest DisplayCount (add i 1))
      as [[out' i_end]|e''] eqn:Hrest; [discriminate H|].
    injection H as <-. now apply (IH _ _ Hrest).
  - injection H as <-. now apply (Hshow _ _ _ Hs).
Qed.

(** *** The two prompts *)

Lemma number_is_no_command (input : string) :
  positive_integer_regex input = true ->
  Input.is_empty input = false
  /\ (String.eqb input "M" || String.eqb input "m") = false
  /\ (String.eqb input "L" || String.eqb input "l") = false.
Proof.
  intros H. split; [now destruct input|].
  split.
  - destruct (String.eqb_spec input "M") as [->|_]; [discriminate H|].
    destruct (String.eqb_spec input "m") as [->|_]; [discriminate H|reflexivity].
  - destruct (String.eqb_spec input "L") as [->|_]; [discriminate H|].
    destruct (String.eqb_spec input "l") as [->|_]; [discriminate H|reflexivity].
Qed.

Lemma number_typed (input : string) (n : Z) :
  positive_integer_regex input = true -> stoi input = Ok n ->
  n = decimal 0 input /\ 1 <= n <= INT32_MAX.
Proof.
  intros Hre Hst. destruct (PaginationFacts.stoi_ok input n Hst) as [-> Hmax].
  pose proof (PaginationFacts.positive_integer_ge_1 input Hre). now repeat split.
Qed.

Lemma stoi_small (input : string) :
  decimal 0 input <= INT32_MAX -> stoi input = Ok (decimal 0 input).
Proof.
  intros H. unfold stoi. cbv zeta. rewrite Z.gtb_ltb.
  destruct (Z.ltb_spec INT32_MAX (decimal 0 input)); [lia|reflexivity].
Qed.

Lemma select_loop_eq results (i : Z) (input : string) lines :
  select_loop results i input lines
  = let ask_again :=
      match lines with
      | [] => Ok (leave, [])
      | input' :: lines' =>
          if Input.is_empty input' then Ok (leave, lines')
          else select_loop results i input' lines'
      end in
    if negb (positive_integer_regex input) then ask_again
    else
      match stoi input with
      | Throw e => Throw e
      | Ok n =>
          let selection := sub n 1 in
          if selection >? sub i 2 then ask_again
          else if selection <=? size32 results then Ok (open_row selection, lines)
          else Ok (leave, lines)
      end.
Proof. destruct lines; reflexivity. Qed.

(** The first prompt opens rows of the vector only, never asks for another
    pass, and uses up no more than the lines it has. *)
Lemma select_loop_sound results :
  Z.of_nat (List.length results) < INT32_MAX ->
  forall lines input o lines',
    select_loop results (Z.of_nat (List.length results) + 1) input lines
    = Ok (o, lines') ->
    (List.length lines' <= List.length lines)%nat
    /\ match o with
       | leave => True
       | open_row selection => 0 <= selection < Z.of_nat (List.length results)
       | again _ => False
       end.
Proof.
  intros Hsize.
  induction lines as [|input' lines IH]; intros input o lines' H;
    rewrite select_loop_eq in H; cbv zeta in H.
  - destruct (positive_integer_regex input) eqn:Hre; cbn [negb] in H.
    + destruct (stoi input) as [n|] eqn:Hst; [|discriminate H].
      destruct (number_typed input n Hre Hst) as [_ Hn].
      rewrite (sub_small n 1), sub_small, size32_small in H by in32.
      rewrite Z.gtb_ltb in H.
      destruct (Z.ltb_spec (Z.of_nat (List.length results) + 1 - 2) (n - 1)).
      * injection H as <- <-. now split.
      * destruct (Z.leb_spec (n - 1) (Z.of_nat (List.length results)));
          injection H as <- <-; split; try reflexivity; try exact I; lia.
    + injection H as <- <-. now split.
  - assert (Hask : (if Input.is_empty input' then Ok (leave, lines)
                    else select_loop results (Z.of_nat (List.length results) + 1)
                                     input' lines) = Ok (o, lines') ->
                   (List.length lines' <= List.length (input' :: lines))%nat
                   /\ match o with
                      | leave => True
                      | open_row selection =>
                          0 <= selection < Z.of_nat (List.length results)
                      | again _ => False
                      end).
    { destruct (Input.is_empty input').
      - intros Heq. injection Heq as <- <-. cbn [List.length]. split; [lia|exact I].
      - intros Heq. destruct (IH input' o lines' Heq) as [Hl Ho].
        cbn [List.length]. split; [lia|exact Ho]. }
    destruct (positive_integer_regex input) eqn:Hre; cbn [negb] in H;
      [|now apply Hask].
    destruct (stoi input) as [n|] eqn:Hst; [|discriminate H].
    destruct (number_typed input n Hre Hst) as [_ Hn].
    rewrite (sub_small n 1), sub_small, size32_small in H by in32.
    rewrite Z.gtb_ltb in H.
    destruct (Z.ltb_spec (Z.of_nat (List.length results) + 1 - 2) (n - 1));
      [now apply Hask|].
    destruct (Z.leb_spec (n - 1) (Z.of_nat (List.length results)));
      injection H as <- <-; split; try reflexivity; try exact I; lia.
Qed.

Lemma select_loop_opens results (input : string) lines :
  Z.of_nat (List.length results) < INT32_MAX ->
  positive_integer_regex input = true ->
  1 <= decimal 0 input <= Z.of_nat (List.length results) ->
  select_loop results (Z.of_nat (List.length results) + 1) input lines
  = Ok (open_row (decimal 0 input - 1), lines).
Proof.
  intros Hsize Hre Hn. rewrite select_loop_eq. cbv zeta.
  rewrite Hre, stoi_small by lia. cbn [negb].
  rewrite (sub_small _ 1), sub_small, size32_small by in32.
  rewrite Z.gtb_ltb.
  destruct (Z.ltb_spec (Z.of_nat (List.length results) + 1 - 2) (decimal 0 input - 1));
    [lia|].
  destruct (Z.leb_spec (decimal 0 input - 1) (Z.of_nat (List.length results)));
    [reflexivity|lia].
Qed.

Lemma press_enter_length lines :
  (List.length (press_enter lines) <= List.length lines)%nat.
Proof.
  induction lines as [|input lines IH]; cbn [press_enter List.length]; [lia|].
  destruct (Input.is_empty input); lia.
Qed.

(** The second prompt on a number. *)
Lemma menu_number results (DisplayCount : Z) (input : string) lines :
  Z.of_nat (List.length results) < INT32_MAX ->
  0 <= DisplayCount <= INT32_MAX ->
  positive_integer_regex input = true ->
  let n := decimal 0 input in
  let hi := Z.min DisplayCount (Z.of_nat (List.length results)) in
  menu results DisplayCount (input :: lines)
  = if n >? INT32_MAX then Throw out_of_range
    else if (hi - 5 <? n) && (n <=? hi) then Ok (open_row (n - 1), lines)
    else Ok (again DisplayCount, press_enter lines).
Proof.
  intros Hsize Hc Hre n hi. subst n hi.
  destruct (number_is_no_command input Hre) as (He & Hm & Hl).
  pose proof (PaginationFacts.positive_integer_ge_1 input Hre) as H1.
  unfold menu. cbn [getline]. rewrite He, Hm, Hl, Hre. cbn [negb].
  unfold stoi. cbv zeta.
  destruct (decimal 0 input >? INT32_MAX) eqn:Hbig; [reflexivity|].
  rewrite Z.gtb_ltb in Hbig. apply Z.ltb_ge in Hbig.
  rewrite (sub_small _ 1) by in32.
  rewrite (add_small _ 1), (sub_small DisplayCount 5) by in32.
  rewrite size32_small, size_minus32_small by in32.
  replace (decimal 0 input - 1 + 1) with (decimal 0 input) by lia.
  compare.
Qed.

(** The second prompt on anything else. *)
Lemma menu_cases results (DisplayCount : Z) lines (o : outcome) lines' :
  Z.of_nat (List.length results) < INT32_MAX - 5 ->
  0 <= DisplayCount <= INT32_MAX ->
  menu results DisplayCount lines = Ok (o, lines') ->
  match o with
  | leave => (List.length lines' <= List.length lines)%nat
  | open_row selection =>
      (List.length lines' < List.length lines)%nat
      /\ let hi := Z.min DisplayCount (Z.of_nat (List.length results)) in
         hi - 5 < selection + 1 <= hi /\ 0 <= selection
  | again DisplayCount' =>
      (List.length lines' < List.length lines)%nat
      /\ (DisplayCount' = DisplayCount
          \/ DisplayCount < Z.of_nat (List.length results)
             /\ DisplayCount' = DisplayCount + 5
          \/ 0 < DisplayCount /\ DisplayCount' = DisplayCount - 5)
  end.
Proof.
  intros Hsize Hc H.
  destruct lines as [|input lines].
  - cbn in H. injection H as <- <-. cbn. lia.
  - destruct (positive_integer_regex input) eqn:Hre.
    + pose proof (menu_number results DisplayCount input lines ltac:(lia)
                    Hc Hre) as Hnum.
      cbv zeta in Hnum. rewrite Hnum in H. clear Hnum.
      pose proof (PaginationFacts.positive_integer_ge_1 input Hre) as H1.
      destruct (decimal 0 input >? INT32_MAX); [discriminate H|].
      destruct (Z.ltb_spec (Z.min DisplayCount (Z.of_nat (List.length results)) - 5)
                           (decimal 0 input));
        destruct (Z.leb_spec (decimal 0 input)
                             (Z.min DisplayCount (Z.of_nat (List.length results))));
        cbn [andb] in H; injection H as <- <-; cbn [List.length];
        pose proof (press_enter_length lines); try (split; [lia|]); try lia.
      all: try (cbv zeta; lia). all: try (left; reflexivity).
    + unfold menu in H. cbn [getline] in H. rewrite Hre in H. cbn [negb] in H.
      pose proof (press_enter_length lines) as Hp.
      destruct (Input.is_empty input);
        [injection H as <- <-; cbn [List.length]; lia|].
      rewrite size32_small in H by lia.
      destruct (String.eqb input "M" || String.eqb input "m").
      { destruct (Z.ltb_spec DisplayCount (Z.of_nat (List.length results)));
          injection H as <- <-; cbn [List.length]; (split; [lia|]).
        - right. left. split; [assumption|]. apply add_small. in32.
        - now left. }
      destruct (String.eqb input "L" || String.eqb input "l").
      { rewrite Z.gtb_ltb in H. destruct (Z.ltb_spec 0 DisplayCount);
          injection H as <- <-; cbn [List.length]; (split; [lia|]).
        - right. right. split; [assumption|]. apply sub_small. in32.
        - now left. }
      injection H as <- <-. cbn [List.length]. split; [lia|now left].
Qed.

(** One pass: the rows printed and the prompt that follows. *)
Lemma display_pass_inv results (DisplayCount : Z) lines
    (out : list (Z * A)) (o : outcome) lines' :
  Z.of_nat (List.length results) < INT32_MAX ->
  0 <= DisplayCount <= INT32_MAX ->
  display_pass show results DisplayCount lines = Ok (out, o, lines') ->
  let hi := Z.min DisplayCount (Z.of_nat (List.length results)) in
  out = rows_between (hi - 5) hi results
  /\ (if 5 >? Z.of_nat (List.length results) then
        let '(input, rest) := getline lines in
        if Input.is_empty input then Ok (leave, rest)
        else select_loop results (Z.of_nat (List.length results) + 1) input rest
      else menu results DisplayCount lines) = Ok (o, lines').
Proof.
  intros Hsize Hc H hi. unfold display_pass in H.
  destruct (print_rows show results results DisplayCount 1) as [[out' i]|] eqn:Hp;
    [|discriminate H].
  destruct (print_rows_window results DisplayCount out' i Hsize Hc Hp) as [-> ->].
  rewrite size32_small in H by lia.
  destruct (if 5 >? Z.of_nat (List.length results) then _ else _) as [[o' l']|];
    [|discriminate H].
  injection H as <- <- <-. now split.
Qed.

(** What a pass leads to, for a display count the loop can have. *)
Lemma display_pass_cases results (DisplayCount : Z) lines
    (out : list (Z * A)) (o : outcome) lines' :
  Z.of_nat (List.length results) < INT32_MAX - 5 ->
  count_ok results DisplayCount ->
  display_pass show results DisplayCount lines = Ok (out, o, lines') ->
  match o with
  | leave => (List.length lines' <= List.length lines)%nat
  | open_row selection =>
      (List.length lines' < List.length lines)%nat
      /\ exists row, 0 <= selection
                     /\ nth_error results (Z.to_nat selection) = Some row
                     /\ In (selection + 1, row) out
  | again DisplayCount' =>
      (List.length lines' < List.length lines)%nat
      /\ count_ok results DisplayCount'
      /\ 5 <= Z.of_nat (List.length results)
      /\ (DisplayCount' = DisplayCount
          \/ DisplayCount < Z.of_nat (List.length results)
             /\ DisplayCount' = DisplayCount + 5
          \/ 0 < DisplayCount /\ DisplayCount' = DisplayCount - 5)
  end.
Proof.
  intros Hsize (Hc & Hmod & Hshort) H.
  apply display_pass_inv in H; [|lia|lia]. cbv zeta in H. destruct H as [-> H].
  rewrite Z.gtb_ltb in H.
  destruct (Z.ltb_spec (Z.of_nat (List.length results)) 5) as [Hlt|Hge].
  - specialize (Hshort Hlt). subst DisplayCount.
    destruct lines as [|input lines]; cbn [getline Input.is_empty] in H;
      [injection H as <- <-; cbn; lia|].
    destruct (Input.is_empty input);
      [injection H as <- <-; cbn [List.length]; lia|].
    apply select_loop_sound in H; [|lia]. destruct H as [Hlen Ho].
    destruct o as [|selection|]; cbn [List.length]; [lia| |contradiction].
    split; [lia|].
    destruct (nth_error_row results (selection + 1) ltac:(lia)) as [row Hrow].
    replace (selection + 1 - 1) with selection in Hrow by lia.
    exists row. split; [lia|]. split; [exact Hrow|].
    apply in_rows_between.
    replace (selection + 1 - 1) with selection by lia. repeat split; try lia.
    exact Hrow.
  - pose proof (menu_cases results DisplayCount lines o lines'
                  ltac:(lia) ltac:(lia) H) as Hm.
    destruct o as [|selection|DisplayCount']; [exact Hm| |].
    + destruct Hm as [Hlen Hm]. cbv zeta in Hm. split; [exact Hlen|].
      destruct (nth_error_row results (selection + 1) ltac:(lia)) as [row Hrow].
      replace (selection + 1 - 1) with selection in Hrow by lia.
      exists row. split; [lia|]. split; [exact Hrow|].
      apply in_rows_between.
      replace (selection + 1 - 1) with selection by lia. repeat split; try lia.
      exact Hrow.
    + destruct Hm as [Hlen Hm]. split; [exact Hlen|].
      split; [|split; [exact Hge|exact Hm]].
      unfold count_ok.
      destruct Hm as [->|[[Hm ->]|[Hm ->]]].
      * repeat split; try lia.
      * repeat split; try lia.
        rewrite <- (Z.mod_add DisplayCount 1 5) in Hmod by lia.
        now rewrite Z.mul_1_l in Hmod.
      * assert (Hdiv : DisplayCount = 5 * (DisplayCount / 5))
          by (pose proof (Z.div_mod DisplayCount 5 ltac:(lia)); lia).
        repeat split; try lia.
        rewrite <- (Z.mod_add (DisplayCount - 5) 1 5) by lia.
        now replace (DisplayCount - 5 + 1 * 5) with DisplayCount by lia.
Qed.

(** X19: the [for] loop of the three list pages prints, under their
    numbers, exactly the rows numbered from [hi - 4] to [hi], where [hi] is
    the display count or, when that is less, the number of results: never
    more than five rows, and behind the loop [i] is one more than the number
    of results. *)
Theorem list_page_prints_last_five results (DisplayCount : Z)
    (out : list (Z * A)) (i : Z) :
  Z.of_nat (List.length results) < INT32_MAX ->
  0 <= DisplayCount <= INT32_MAX ->
  print_rows show results results DisplayCount 1 = Ok (out, i) ->
  let hi := Z.min DisplayCount (Z.of_nat (List.length results)) in
  (forall n row,
     In (n, row) out
     <-> hi - 5 < n <= hi /\ 1 <= n
         /\ nth_error results (Z.to_nat (n - 1)) = Some row)
  /\ (List.length out <= 5)%nat
  /\ i = Z.of_nat (List.length results) + 1.
Proof.
  intros Hsize Hc H hi.
  destruct (print_rows_window results DisplayCount out i Hsize Hc H) as [-> ->].
  fold hi. split; [|split; [|reflexivity]].
  - intros n row. rewrite in_rows_between. split.
    + intros (H1 & H2 & H3). repeat split; try lia. exact H3.
    + intros (H1 & H2 & H3).
      assert (Hsome : nth_error results (Z.to_nat (n - 1)) <> None) by congruence.
      apply nth_error_Some in Hsome.
      repeat split; try lia. exact H3.
  - unfold rows_between.
    pose proof (length_rows_between (hi - 5) hi results 1). lia.
Qed.

(** X20: a list page opens printed rows only.  When a pass of the loop
    ends in opening [results[selection]], the selection is inside the vector
    and row [selection + 1] is one of the rows the pass has printed; and typing
    the number of a printed row opens that row. *)
Theorem list_page_opens_printed_row results (DisplayCount : Z) lines
    (out : list (Z * A)) (o : outcome) lines' :
  Z.of_nat (List.length results) < INT32_MAX - 5 ->
  count_ok results DisplayCount ->
  display_pass show results DisplayCount lines = Ok (out, o, lines') ->
  (forall selection, o = open_row selection ->
     exists row, 0 <= selection
                 /\ nth_error results (Z.to_nat selection) = Some row
                 /\ In (selection + 1, row) out)
  /\ (forall input more row,
        lines = input :: more ->
        positive_integer_regex input = true ->
        In (decimal 0 input, row) out ->
        o = open_row (decimal 0 input - 1) /\ lines' = more).
Proof.
  intros Hsize Hok H. split.
  - intros selection ->.
    apply (display_pass_cases results DisplayCount lines out _ lines' Hsize Hok H).
  - intros input more row -> Hre Hin.
    destruct Hok as (Hc & Hmod & Hshort).
    apply display_pass_inv in H; [|lia|lia]. cbv zeta in H. destruct H as [-> H].
    apply in_rows_between in Hin. destruct Hin as (Hwin & Hn & _).
    destruct (number_is_no_command input Hre) as (He & _).
    rewrite Z.gtb_ltb in H.
    destruct (Z.ltb_spec (Z.of_nat (List.length results)) 5) as [Hlt|Hge].
    + cbn [getline] in H. rewrite He in H.
      pose proof (select_loop_opens results input more ltac:(lia) Hre
                    ltac:(lia)) as Hopen.
      rewrite Hopen in H. injection H as <- <-. now split.
    + pose proof (menu_number results DisplayCount input more
                    ltac:(lia) ltac:(lia) Hre) as Hnum.
      cbv zeta in Hnum. rewrite Hnum in H. clear Hnum.
      rewrite Z.gtb_ltb in H.
      destruct (Z.ltb_spec INT32_MAX (decimal 0 input)); [lia|].
      destruct (Z.ltb_spec (Z.min DisplayCount (Z.of_nat (List.length results)) - 5)
                           (decimal 0 input)); [|lia].
      destruct (Z.leb_spec (decimal 0 input)
                           (Z.min DisplayCount (Z.of_nat (List.length results))));
        [|lia].
      cbn [andb] in H. injection H as <- <-. now split.
Qed.

(** X21: the display count of a list page starts at 5 and stays a multiple
    of 5 from 0 up to less than the number of results plus 5; a pass that asks
    for another one has read at least one line and has left the count, or has
    added 5 to a count below the number of results, or has taken 5 from a
    count above 0. *)
Theorem list_page_display_count results :
  Z.of_nat (List.length results) < INT32_MAX - 5 ->
  results <> [] ->
  count_ok results 5
  /\ forall DisplayCount lines out DisplayCount' lines',
       count_ok results DisplayCount ->
       display_pass show results DisplayCount lines
       = Ok (out, again DisplayCount', lines') ->
       count_ok results DisplayCount'
       /\ (List.length lines' < List.length lines)%nat
       /\ (DisplayCount' = DisplayCount
           \/ DisplayCount < Z.of_nat (List.length results)
              /\ DisplayCount' = DisplayCount + 5
           \/ 0 < DisplayCount /\ DisplayCount' = DisplayCount - 5).
Proof.
  intros Hsize Hne. split.
  - unfold count_ok. destruct results as [|row rest]; [contradiction|].
    cbn [List.length]. repeat split; try lia.
  - intros DisplayCount lines out DisplayCount' lines' Hok H.
    pose proof (display_pass_cases results DisplayCount lines out _ lines'
                  Hsize Hok H) as Hc.
    cbv beta iota in Hc. destruct Hc as (Hlen & Hok' & _ & Hstep).
    split; [exact Hok'|split; [exact Hlen|exact Hstep]].
Qed.

(** X22: "more" and "less" undo each other.  On a page of five results or
    more, when [M] has changed the display count, [L] in the next pass gives
    the count back, and when [L] has changed it, [M] gives it back. *)
Theorem more_and_less_undo_each_other results (DisplayCount : Z)
    (lines1 lines2 : list string) :
  5 <= Z.of_nat (List.length results) < INT32_MAX - 5 ->
  count_ok results DisplayCount ->
  (DisplayCount < Z.of_nat (List.length results) ->
   menu results DisplayCount ("M"%string :: lines1)
   = Ok (again (DisplayCount + 5), lines1)
   /\ menu results (DisplayCount + 5) ("L"%string :: lines2)
      = Ok (again DisplayCount, lines2))
  /\ (0 < DisplayCount ->
      menu results DisplayCount ("L"%string :: lines1)
      = Ok (again (DisplayCount - 5), lines1)
      /\ menu results (DisplayCount - 5) ("M"%string :: lines2)
         = Ok (again DisplayCount, lines2)).
Proof.
  intros Hsize (Hc & Hmod & _).
  assert (Hdiv : DisplayCount = 5 * (DisplayCount / 5))
    by (pose proof (Z.div_mod DisplayCount 5 ltac:(lia)); lia).
  unfold menu. cbn [getline Input.is_empty String.eqb Ascii.eqb Bool.eqb orb andb].
  rewrite size32_small by lia. rewrite !Z.gtb_ltb.
  split; intros H.
  - rewrite (add_small DisplayCount 5) by in32.
    rewrite (sub_small (DisplayCount + 5) 5) by in32.
    destruct (Z.ltb_spec DisplayCount (Z.of_nat (List.length results))); [|lia].
    destruct (Z.ltb_spec 0 (DisplayCount + 5)); [|lia].
    split; [reflexivity|]. do 2 f_equal. f_equal. lia.
  - rewrite (sub_small DisplayCount 5) by in32.
    rewrite (add_small (DisplayCount - 5) 5) by in32.
    destruct (Z.ltb_spec 0 DisplayCount); [|lia].
    destruct (Z.ltb_spec (DisplayCount - 5) (Z.of_nat (List.length results))); [|lia].
    split; [reflexivity|]. do 2 f_equal. f_equal. lia.
Qed.

(** The loop around the rows ends once the input does, unless the page
    opened for a row does not. *)
Lemma display_loop_ends
    (visit : A -> list string -> option (result (list string))) results :
  Z.of_nat (List.length results) < INT32_MAX - 5 ->
  (forall row lines lines',
     visit row lines = Some (Ok lines') ->
     (List.length lines' <= List.length lines)%nat) ->
  forall fuel DisplayCount lines,
    count_ok results DisplayCount ->
    (List.length lines < fuel)%nat ->
    (exists e, display_loop show visit fuel results DisplayCount lines
               = Some (Throw e))
    \/ (exists lines',
          display_loop show visit fuel results DisplayCount lines
          = Some (Ok (returned lines'))
          /\ (List.length lines' <= List.length lines)%nat)
    \/ (display_loop show visit fuel results DisplayCount lines
         = Some (Ok stays_in_opened_page)
         /\ exists row lines', visit row lines' = None).
Proof.
  intros Hsize Hvisit.
  induction fuel as [|fuel IH]; intros DisplayCount lines Hok Hfuel; [lia|].
  cbn [display_loop].
  destruct (display_pass show results DisplayCount lines)
    as [[[out o] lines']|e] eqn:Hpass; [|left; now exists e].
  pose proof (display_pass_cases results DisplayCount lines out o lines'
                Hsize Hok Hpass) as Hc.
  destruct o as [|selection|DisplayCount'].
  - right. left. exists lines'. now split.
  - destruct Hc as (Hlen & row & H0 & Hrow & _).
    destruct (Z.ltb_spec selection 0); [lia|]. rewrite Hrow.
    unfold open_page. destruct (visit row lines') as [[l|e]|] eqn:Hv.
    + right. left. exists l. split; [reflexivity|].
      specialize (Hvisit row lines' l Hv). lia.
    + left. now exists e.
    + right. right. split; [reflexivity|]. now exists row, lines'.
  - destruct Hc as (Hlen & Hok' & _).
    destruct (IH DisplayCount' lines' Hok' ltac:(lia))
      as [[e He]|[[l [Hl Hlen']]|[Hs Hnone]]].
    + left. now exists e.
    + right. left. exists l. split; [exact Hl|lia].
    + right. right. now split.
Qed.

(** X23: the list pages end with the input unless the page they open does
    not.  The input is made of whole lines ([cin_lines]: no bytes behind the
    last line feed), and the page opened for a row, when it returns, leaves
    no more input than it was given.  With more passes allowed than there are lines, [followersPage]
    and the search pages end in one of three ways: they leave through an
    exception, of [std::stoi], of writing a row or of the opened page; they
    return; or they have opened the page of a row that never returns.  They
    never read [results] outside the vector, and never go round for ever
    themselves. *)
Theorem list_pages_end
    (visit : A -> list string -> option (result (list string)))
    (search : string -> list A) results (bytes : string) lines :
  Z.of_nat (List.length results) < INT32_MAX - 5 ->
  (forall term, Z.of_nat (List.length (search term)) < INT32_MAX - 5) ->
  (forall row lines lines',
     visit row lines = Some (Ok lines') ->
     (List.length lines' <= List.length lines)%nat) ->
  cin_lines bytes = Some lines ->
  forall fuel page,
    (List.length lines < fuel)%nat ->
    page = followersPage show visit fuel results lines
    \/ page = searchPage show visit fuel search lines ->
    (exists e, page = Some (Throw e))
    \/ (exists lines', page = Some (Ok (returned lines')))
    \/ (page = Some (Ok stays_in_opened_page)
        /\ exists row lines', visit row lines' = None).
Proof.
  intros Hresults Hsize Hvisit _ fuel page Hfuel [->| ->].
  - unfold followersPage. destruct results as [|row rest] eqn:Hs.
    + right. left. now eexists.
    + destruct (display_loop_ends visit (row :: rest) Hresults
                  Hvisit fuel 5 lines) as [He|[[l [Hl _]]|Hstay]];
        try assumption.
      * unfold count_ok. cbn [List.length]. repeat split; try lia.
      * now left.
      * right. left. now exists l.
      * now right; right.
  - clear Hresults. revert lines Hfuel.
    induction fuel as [|fuel IH]; intros lines Hfuel; [lia|].
    cbn [searchPage].
    destruct lines as [|search_term lines]; cbn [getline].
    + right. left. now eexists.
    + cbn [List.length] in Hfuel.
      destruct (Input.is_empty (Input.trim search_term));
        [right; left; now eexists|].
      destruct (search (Input.trim search_term)) as [|row rest] eqn:Hs.
      * apply IH. pose proof (press_enter_length lines). lia.
      * destruct (display_loop_ends visit (row :: rest)
                    ltac:(rewrite <- Hs; apply Hsize) Hvisit (S fuel) 5 lines)
          as [[e He]|[[l [Hl Hlen]]|[Hstay Hnone]]].
        -- unfold count_ok. cbn [List.length]. repeat split; try lia.
        -- lia.
        -- rewrite He. left. now exists e.
        -- rewrite Hl. apply IH. lia.
        -- rewrite Hstay. right. right. now split.
Qed.

(** *** [userPage] *)

Lemma filter_numbered_above (lo hi : Z) :
  forall rest first,
    hi < first ->
    filter (fun p : Z * A => (lo <? fst p) && (fst p <=? hi)) (numbered first rest)
    = [].
Proof.
  induction rest as [|row rest IH]; intros first Hfirst; [reflexivity|].
  cbn [numbered filter fst].
  destruct (Z.leb_spec first hi); [lia|]. rewrite andb_false_r.
  apply IH. lia.
Qed.

Lemma print_quacks_spec (users_quacks : list A) (hardstop : Z) :
  Z.of_nat (List.length users_quacks) < INT32_MAX ->
  0 <= hardstop <= INT32_MAX - 3 ->
  let hi := Z.min hardstop (Z.of_nat (List.length users_quacks)) in
  forall rest i out i',
    1 <= i <= hardstop + 1 ->
    i + Z.of_nat (List.length rest) <= Z.of_nat (List.length users_quacks) + 1 ->
    print_quacks show users_quacks rest hardstop i = Ok (out, i') ->
    out = filter (fun p => (hi - 3 <? fst p) && (fst p <=? hi)) (numbered i rest)
    /\ i' = Z.min (i + Z.of_nat (List.length rest)) (hardstop + 2).
Proof.
  intros Hsize Hh hi.
  induction rest as [|row rest IH]; intros i out i' Hi Hlen H.
  - cbn in H. injection H as <- <-. split; [reflexivity|]. cbn [List.length]. lia.
  - cbn [print_quacks numbered filter fst List.length] in *.
    rewrite (add_small i 1) in H by in32.
    rewrite (sub_small (i + 1) 1) in H by in32.
    replace (i + 1 - 1) with i in H by lia.
    rewrite size32_small, size_minus32_small in H by in32.
    rewrite (sub_small hardstop 3) in H by in32.
    rewrite Z.gtb_ltb, Z.geb_leb in H.
    destruct (Z.ltb_spec hardstop i) as [Hbreak|Hgo].
    + injection H as <- <-. split; [|lia].
      destruct (Z.leb_spec i hi); [lia|]. rewrite andb_false_r.
      symmetry. apply filter_numbered_above. lia.
    + assert (Hskip : (if Z.of_nat (List.length users_quacks) <=? hardstop
                       then i <=? Z.of_nat (List.length users_quacks) - 3
                       else i <=? hardstop - 3)
                      = negb ((hi - 3 <? i) && (i <=? hi))).
      { subst hi. compare. }
      rewrite Hskip in H.
      destruct ((hi - 3 <? i) && (i <=? hi)); cbn [negb] in H.
      * destruct (show i row); [|discriminate H].
        destruct (print_quacks show users_quacks rest hardstop (i + 1))
          as [[out' i_end]|] eqn:Hrest; [|discriminate H].
        injection H as <- <-.
        destruct (IH (i + 1) out' i_end ltac:(lia) ltac:(lia) Hrest) as [-> ->].
        split; [reflexivity|lia].
      * destruct (IH (i + 1) out i' ltac:(lia) ltac:(lia) H) as [-> ->].
        split; [reflexivity|lia].
Qed.

Lemma print_quacks_window (users_quacks : list A) (hardstop : Z)
    (out : list (Z * A)) (i : Z) :
  Z.of_nat (List.length users_quacks) < INT32_MAX ->
  0 <= hardstop <= INT32_MAX - 3 ->
  print_quacks show users_quacks users_quacks hardstop 1 = Ok (out, i) ->
  let hi := Z.min hardstop (Z.of_nat (List.length users_quacks)) in
  out = rows_between (hi - 3) hi users_quacks
  /\ i = Z.min (Z.of_nat (List.length users_quacks)) (hardstop + 1) + 1.
Proof.
  intros Hsize Hh H hi.
  destruct (print_quacks_spec users_quacks hardstop Hsize Hh users_quacks 1 out i
              ltac:(lia) ltac:(lia) H) as [-> ->].
  split; [reflexivity|lia].
Qed.

Lemma select_quack_eq (i : Z) (input : string) lines :
  select_quack i input lines
  = let ask_again :=
      match lines with
      | [] => Ok (None, [])
      | input' :: lines' =>
          if Input.is_empty input' then Ok (None, lines')
          else select_quack i input' lines'
      end in
    if negb (positive_integer_regex input) then ask_again
    else
      match stoi input with
      | Throw e => Throw e
      | Ok n =>
          let selection := sub n 1 in
          if (selection >? sub i 2) || (selection <? sub i 6) then ask_again
          else Ok (Some selection, lines)
      end.
Proof. destruct lines; reflexivity. Qed.

(** The prompt of selection ['4'] accepts the numbers from [i - 5] to
    [i - 1] and no other. *)
Lemma select_quack_sound (i : Z) :
  1 <= i <= INT32_MAX ->
  forall lines input selection lines',
    select_quack i input lines = Ok (Some selection, lines') ->
    0 <= selection /\ i - 5 <= selection + 1 <= i - 1.
Proof.
  intros Hi.
  induction lines as [|input' lines IH]; intros input selection lines' H;
    rewrite select_quack_eq in H; cbv zeta in H.
  - destruct (positive_integer_regex input) eqn:Hre; cbn [negb] in H;
      [|discriminate H].
    destruct (stoi input) as [n|] eqn:Hst; [|discriminate H].
    destruct (number_typed input n Hre Hst) as [_ Hn].
    rewrite (sub_small n 1), (sub_small i 2), (sub_small i 6) in H by in32.
    rewrite Z.gtb_ltb in H.
    destruct (Z.ltb_spec (i - 2) (n - 1)); cbn [orb] in H; [discriminate H|].
    destruct (Z.ltb_spec (n - 1) (i - 6)); [discriminate H|].
    injection H as <- <-. lia.
  - assert (Hask : (if Input.is_empty input' then Ok (None, lines)
                    else select_quack i input' lines) = Ok (Some selection, lines') ->
                   0 <= selection /\ i - 5 <= selection + 1 <= i - 1).
    { destruct (Input.is_empty input'); [discriminate|]. apply IH. }
    destruct (positive_integer_regex input) eqn:Hre; cbn [negb] in H;
      [|now apply Hask].
    destruct (stoi input) as [n|] eqn:Hst; [|discriminate H].
    destruct (number_typed input n Hre Hst) as [_ Hn].
    rewrite (sub_small n 1), (sub_small i 2), (sub_small i 6) in H by in32.
    rewrite Z.gtb_ltb in H.
    destruct (Z.ltb_spec (i - 2) (n - 1)); cbn [orb] in H; [now apply Hask|].
    destruct (Z.ltb_spec (n - 1) (i - 6)); [now apply Hask|].
    injection H as <- <-. lia.
Qed.

Lemma select_quack_accepts (i : Z) (input : string) lines :
  1 <= i <= INT32_MAX ->
  positive_integer_regex input = true ->
  i - 5 <= decimal 0 input <= i - 1 ->
  select_quack i input lines = Ok (Some (decimal 0 input - 1), lines).
Proof.
  intros Hi Hre Hn. rewrite select_quack_eq. cbv zeta.
  pose proof (PaginationFacts.positive_integer_ge_1 input Hre) as H1.
  rewrite Hre, stoi_small by in32. cbn [negb].
  rewrite (sub_small _ 1), (sub_small i 2), (sub_small i 6) by in32.
  rewrite Z.gtb_ltb.
  destruct (Z.ltb_spec (i - 2) (decimal 0 input - 1)); [lia|].
  destruct (Z.ltb_spec (decimal 0 input - 1) (i - 6)); [lia|]. reflexivity.
Qed.

(** Selection ['4'] followed by a number. *)
Lemma userPage_pass_number (users_quacks : list A) (follows_of_viewer : list Z)
    (user_id usr hardstop : Z) (error : user_page_error) (input : string) lines
    (out : list (Z * A)) (i : Z) :
  print_quacks show users_quacks users_quacks hardstop 1 = Ok (out, i) ->
  positive_integer_regex input = true ->
  userPage_pass show users_quacks follows_of_viewer user_id usr hardstop error
                ("4"%string :: input :: lines)
  = match select_quack i input lines with
    | Throw e => Throw e
    | Ok (Some selection, lines') =>
        Ok (out, call_quackPage hardstop error selection, lines')
    | Ok (None, lines') => Ok (out, stay hardstop error, lines')
    end.
Proof.
  intros Hp Hre. unfold userPage_pass. rewrite Hp.
  destruct (number_is_no_command input Hre) as (He & _).
  cbn [read_select skip_spaces is_space nat_of_ascii Ascii.eqb Bool.eqb getline].
  change (is_space "4") with false. cbv iota.
  cbn [Ascii.eqb Bool.eqb andb getline]. now rewrite He.
Qed.

(** X24: selection ['4'] of [userPage] takes the numbers of the last five
    rows its loop went through, not those of the rows printed.  With [top]
    the number of quacks or, when that is less, [hardstop + 1]: a quack is
    opened only for a number from [top - 4] to [top], and it is inside the
    vector; every number typed in that range opens its quack, and every other
    number up to [INT32_MAX] is refused, so that the empty line after it
    leaves the prompt.  The rows printed have numbers above [top - 4], and
    below [top] when there are more quacks than [hardstop]: the number
    [top - 4], when it is at least 1, and in that case also the number
    [hardstop + 1], opens a quack that is not on the screen. *)
Theorem userPage_opens_rows_not_printed (users_quacks : list A)
    (follows_of_viewer : list Z) (user_id usr hardstop : Z)
    (error : user_page_error) :
  Z.of_nat (List.length users_quacks) < INT32_MAX ->
  hardstop_ok hardstop ->
  let top := Z.min (Z.of_nat (List.length users_quacks)) (hardstop + 1) in
  (forall lines out hardstop' error' selection lines',
     userPage_pass show users_quacks follows_of_viewer user_id usr hardstop error
                   lines
     = Ok (out, call_quackPage hardstop' error' selection, lines') ->
     hardstop' = hardstop /\ error' = error
     /\ 1 <= selection + 1 /\ top - 4 <= selection + 1 <= top
     /\ exists row, nth_error users_quacks (Z.to_nat selection) = Some row)
  /\ (forall out i input lines,
        print_quacks show users_quacks users_quacks hardstop 1 = Ok (out, i) ->
        positive_integer_regex input = true ->
        decimal 0 input <= INT32_MAX ->
        userPage_pass show users_quacks follows_of_viewer user_id usr hardstop
                      error ("4"%string :: input :: EmptyString :: lines)
        = if (top - 4 <=? decimal 0 input) && (decimal 0 input <=? top)
          then Ok (out, call_quackPage hardstop error (decimal 0 input - 1),
                   EmptyString :: lines)
          else Ok (out, stay hardstop error, lines))
  /\ (forall out i n row,
        print_quacks show users_quacks users_quacks hardstop 1 = Ok (out, i) ->
        In (n, row) out ->
        top - 4 < n <= top
        /\ (hardstop < Z.of_nat (List.length users_quacks) -> n < top)).
Proof.
  intros Hsize [Hh Hmod] top. split; [|split].
  - intros lines out hardstop' error' selection lines' H.
    unfold userPage_pass in H.
    destruct (print_quacks show users_quacks users_quacks hardstop 1)
      as [[out' i]|] eqn:Hp; [|discriminate H].
    destruct (print_quacks_window users_quacks hardstop out' i Hsize Hh Hp)
      as [-> ->].
    destruct (read_select lines) as [select rest].
    destruct (Ascii.eqb select "1").
    { destruct (_ >=? _); discriminate H. }
    destruct (Ascii.eqb select "2").
    { destruct (_ =? _); discriminate H. }
    destruct (Ascii.eqb select "3").
    { destruct (already_follows _ _ _); discriminate H. }
    destruct (Ascii.eqb select "4").
    2: { destruct (Ascii.eqb select "5"); discriminate H. }
    destruct (getline rest) as [input rest'].
    destruct (Input.is_empty input); [discriminate H|].
    fold top in H.
    destruct (select_quack (top + 1) input rest') as [[[sel|] l]|] eqn:Hsel;
      try discriminate H.
    injection H as <- <- <- <- <-.
    apply select_quack_sound in Hsel; [|subst top; in32].
    split; [reflexivity|]. split; [reflexivity|]. split; [lia|]. split; [lia|].
    destruct (nth_error_row users_quacks (sel + 1) ltac:(subst top; lia))
      as [row Hrow].
    replace (sel + 1 - 1) with sel in Hrow by lia.
    now exists row.
  - intros out i input lines Hp Hre Hmax.
    rewrite (userPage_pass_number _ _ _ _ _ _ _ _ out i Hp Hre).
    destruct (print_quacks_window users_quacks hardstop out i Hsize Hh Hp)
      as [-> ->].
    fold top.
    pose proof (PaginationFacts.positive_integer_ge_1 input Hre) as H1.
    assert (Htop : 0 <= top <= INT32_MAX - 1) by (subst top; in32).
    destruct (Z.leb_spec (top - 4) (decimal 0 input)) as [Hlo|Hlo];
      [destruct (Z.leb_spec (decimal 0 input) top) as [Hhi|Hhi]|];
      cbn [andb].
    + rewrite select_quack_accepts; [reflexivity|in32|exact Hre|lia].
    + rewrite select_quack_eq. cbv zeta. rewrite Hre, stoi_small by exact Hmax.
      cbn [negb].
      rewrite (sub_small _ 1), (sub_small (top + 1) 2) by in32.
      rewrite Z.gtb_ltb.
      destruct (Z.ltb_spec (top + 1 - 2) (decimal 0 input - 1)); [|lia].
      reflexivity.
    + rewrite select_quack_eq. cbv zeta. rewrite Hre, stoi_small by exact Hmax.
      cbn [negb].
      rewrite (sub_small _ 1), (sub_small (top + 1) 2), (sub_small (top + 1) 6)
        by in32.
      rewrite Z.gtb_ltb.
      destruct (Z.ltb_spec (top + 1 - 2) (decimal 0 input - 1)); [reflexivity|].
      destruct (Z.ltb_spec (decimal 0 input - 1) (top + 1 - 6)); [|lia].
      reflexivity.
  - intros out i n row Hp Hin.
    destruct (print_quacks_window users_quacks hardstop out i Hsize Hh Hp)
      as [-> _].
    apply in_rows_between in Hin. subst top. lia.
Qed.

(** X25: [userPage] prints, of the user's quacks, exactly the rows numbered
    from [hi - 2] to [hi], where [hi] is [hardstop] or, when that is less, the
    number of quacks: never more than three rows. *)
Theorem userPage_prints_last_three (users_quacks : list A) (hardstop : Z)
    (out : list (Z * A)) (i : Z) :
  Z.of_nat (List.length users_quacks) < INT32_MAX ->
  hardstop_ok hardstop ->
  print_quacks show users_quacks users_quacks hardstop 1 = Ok (out, i) ->
  let hi := Z.min hardstop (Z.of_nat (List.length users_quacks)) in
  (forall n row,
     In (n, row) out
     <-> hi - 3 < n <= hi /\ 1 <= n
         /\ nth_error users_quacks (Z.to_nat (n - 1)) = Some row)
  /\ (List.length out <= 3)%nat.
Proof.
  intros Hsize [Hh Hmod] H hi.
  destruct (print_quacks_window users_quacks hardstop out i Hsize Hh H) as [-> _].
  fold hi. split.
  - intros n row. rewrite in_rows_between. split.
    + intros (H1 & H2 & H3). repeat split; try lia. exact H3.
    + intros (H1 & H2 & H3).
      assert (Hsome : nth_error users_quacks (Z.to_nat (n - 1)) <> None)
        by congruence.
      apply nth_error_Some in Hsome.
      repeat split; try lia. exact H3.
  - unfold rows_between.
    pose proof (length_rows_between (hi - 3) hi users_quacks 1). lia.
Qed.

Lemma mod3_step (h : Z) : h mod 3 = 0 -> (h + 3) mod 3 = 0 /\ (h - 3) mod 3 = 0.
Proof.
  intros H. split.
  - rewrite <- (Z.mod_add h 1 3) in H by lia. now rewrite Z.mul_1_l in H.
  - rewrite <- (Z.mod_add (h - 3) 1 3) by lia.
    now replace (h - 3 + 1 * 3) with h by lia.
Qed.

(** X26: what the selections do to [hardstop].  Selection ['1'] adds 3
    while [hardstop] is below the number of quacks, and otherwise leaves it
    and gives "This User Has No More Quacks To Diplay!"; selection ['2'] takes
    3 away, and at 0 leaves it and gives "You Are Already Not Seeing Any
    Quacks!"; every other selection leaves [hardstop] as it is.  So
    [hardstop] stays a multiple of 3 that is not negative, and a pass that
    starts with it below the number of quacks plus 3 ends with it so. *)
Theorem userPage_hardstop (users_quacks : list A) (follows_of_viewer : list Z)
    (user_id usr hardstop : Z) (error : user_page_error) lines
    (out : list (Z * A)) (i : Z) (select : ascii) (rest : list string) :
  Z.of_nat (List.length users_quacks) < INT32_MAX - 6 ->
  hardstop_ok hardstop ->
  hardstop < Z.of_nat (List.length users_quacks) + 3 ->
  print_quacks show users_quacks users_quacks hardstop 1 = Ok (out, i) ->
  read_select lines = (select, rest) ->
  let pass := userPage_pass show users_quacks follows_of_viewer user_id usr
                            hardstop error lines in
  (select = "1"%char ->
   pass = Ok (out,
              if hardstop <? Z.of_nat (List.length users_quacks)
              then stay (hardstop + 3) no_error
              else stay hardstop no_more_quacks,
              rest))
  /\ (select = "2"%char ->
      pass = Ok (out,
                 if hardstop =? 0 then stay hardstop already_no_quacks
                 else stay (hardstop - 3) no_error,
                 rest))
  /\ (forall out' step lines',
        pass = Ok (out', step, lines') ->
        match step with
        | stay hardstop' _ | call_follow hardstop'
        | call_quackPage hardstop' _ _ =>
            hardstop_ok hardstop'
            /\ hardstop' < Z.of_nat (List.length users_quacks) + 3
            /\ (select <> "1"%char -> select <> "2"%char -> hardstop' = hardstop)
        | page_return => select = "5"%char
        end).
Proof.
  intros Hsize [Hh Hmod] Hbound Hp Hsel pass.
  destruct (mod3_step hardstop Hmod) as [Hup Hdown].
  assert (Hdiv : hardstop = 3 * (hardstop / 3))
    by (pose proof (Z.div_mod hardstop 3 ltac:(lia)); lia).
  assert (Hsame : hardstop_ok hardstop
                  /\ hardstop < Z.of_nat (List.length users_quacks) + 3
                  /\ (select <> "1"%char -> select <> "2"%char ->
                      hardstop = hardstop)).
  { split; [now split|]. split; [exact Hbound|reflexivity]. }
  assert (Hone :
    (if Console.size_t (add hardstop 3)
        >=? Console.size_t (Z.of_nat (List.length users_quacks) + 3)
     then Ok (out, stay (sub (add hardstop 3) 3) no_more_quacks, rest)
     else Ok (out, stay (add hardstop 3) no_error, rest))
    = Ok (out,
          if hardstop <? Z.of_nat (List.length users_quacks)
          then stay (hardstop + 3) no_error
          else stay hardstop no_more_quacks,
          rest)).
  { rewrite (add_small hardstop 3) by in32.
    rewrite (sub_small (hardstop + 3) 3) by in32.
    unfold Console.size_t. rewrite !Z.mod_small by in32.
    rewrite Z.geb_leb.
    destruct (Z.leb_spec (Z.of_nat (List.length users_quacks) + 3) (hardstop + 3));
      destruct (Z.ltb_spec hardstop (Z.of_nat (List.length users_quacks)));
      try lia; [|reflexivity].
    now replace (hardstop + 3 - 3) with hardstop by lia. }
  assert (Htwo :
    (if hardstop =? 0
     then Ok (out, stay hardstop already_no_quacks, rest)
     else Ok (out, stay (sub hardstop 3) no_error, rest))
    = Ok (out,
          if hardstop =? 0 then stay hardstop already_no_quacks
          else stay (hardstop - 3) no_error,
          rest)).
  { destruct (Z.eqb_spec hardstop 0); [reflexivity|].
    now rewrite (sub_small hardstop 3) by in32. }
  subst pass. unfold userPage_pass. rewrite Hp, Hsel.
  split; [|split].
  - intros ->. cbn [Ascii.eqb Bool.eqb andb]. exact Hone.
  - intros ->. cbn [Ascii.eqb Bool.eqb andb]. exact Htwo.
  - intros out' step lines' H.
    destruct (Ascii.eqb_spec select "1") as [->|H1].
    { rewrite Hone in H. injection H as <- <- <-.
      destruct (Z.ltb_spec hardstop (Z.of_nat (List.length users_quacks))).
      - split; [split; [in32|exact Hup]|]. split; [lia|]. congruence.
      - split; [now split|]. split; [exact Hbound|reflexivity]. }
    destruct (Ascii.eqb_spec select "2") as [->|H2].
    { rewrite Htwo in H. injection H as <- <- <-.
      destruct (Z.eqb_spec hardstop 0).
      - split; [now split|]. split; [exact Hbound|reflexivity].
      - split; [split; [in32|exact Hdown]|]. split; [lia|]. congruence. }
    destruct (Ascii.eqb select "3").
    { destruct (already_follows _ _ _); injection H as <- <- <-; exact Hsame. }
    destruct (Ascii.eqb select "4").
    { destruct (getline rest) as [input rest'].
      destruct (Input.is_empty input); [injection H as <- <- <-; exact Hsame|].
      destruct (select_quack i input rest') as [[[sel|] l]|]; try discriminate H;
        injection H as <- <- <-; exact Hsame. }
    destruct (Ascii.eqb_spec select "5") as [->|H5];
      injection H as <- <- <-; [reflexivity|exact Hsame].
Qed.

Lemma already_follows_spec (follows_of_viewer : list Z) (user_id usr : Z) :
  already_follows follows_of_viewer user_id usr = false
  <-> follows_of_viewer = [] \/ (~ In usr follows_of_viewer /\ user_id <> usr).
Proof.
  induction follows_of_viewer as [|flws rest IH]; cbn [already_follows In].
  - split; [now left|reflexivity].
  - destruct (Z.eqb_spec flws usr) as [Hf|Hf]; cbn [orb].
    + split; [discriminate|]. intros [H|[H _]]; [discriminate H|].
      exfalso. apply H. now left.
    + destruct (Z.eqb_spec user_id usr) as [Hu|Hu].
      * split; [discriminate|]. intros [H|[_ H]]; [discriminate H|contradiction].
      * rewrite IH. split.
        -- intros [->|[Hn _]]; right; (split; [|exact Hu]).
           ++ intros [H|[]]. contradiction.
           ++ intros [H|H]; contradiction.
        -- intros [H|[Hn _]]; [discriminate H|].
           destruct rest as [|x rest']; [now left|right].
           split; [|exact Hu]. intros H. apply Hn. now right.
Qed.

(** X27: selection ['3'] of [userPage] calls [pond.follow] exactly when the
    viewer follows nobody, or does not follow the user and is not the user.
    The test that keeps viewers from following themselves stands inside the
    loop over the accounts they follow: a viewer who follows nobody can
    follow themselves. *)
Theorem userPage_follow_check (users_quacks : list A)
    (follows_of_viewer : list Z) (user_id usr hardstop : Z)
    (error : user_page_error) lines (out : list (Z * A)) (i : Z) :
  print_quacks show users_quacks users_quacks hardstop 1 = Ok (out, i) ->
  exists step,
    userPage_pass show users_quacks follows_of_viewer user_id usr hardstop error
                  ("3"%string :: lines)
    = Ok (out, step, press_enter lines)
    /\ (step = call_follow hardstop \/ step = stay hardstop no_error)
    /\ (step = call_follow hardstop
        <-> follows_of_viewer = []
            \/ (~ In usr follows_of_viewer /\ user_id <> usr)).
Proof.
  intros Hp. unfold userPage_pass. rewrite Hp.
  cbn [read_select skip_spaces].
  change (is_space "3") with false. cbv iota.
  cbn [Ascii.eqb Bool.eqb andb].
  pose proof (already_follows_spec follows_of_viewer user_id usr) as Hspec.
  destruct (already_follows follows_of_viewer user_id usr); eexists;
    (split; [reflexivity|]); split; try (now left); try (now right).
  - split; [discriminate|]. intros H. apply Hspec in H. discriminate H.
  - split; [intros _; now apply Hspec|reflexivity].
Qed.

(** X28: [userPage] does not return once the input has ended.  At the end
    of the input the extraction of [select] fails, [select] is set to ['0'],
    and the page goes round with "Invalid Input Entered": whatever the number
    of passes allowed, the page has not returned. *)
Theorem userPage_spins_at_end_of_input
    (visit : A -> list string -> option (result (list string)))
    (fuel : nat) (quacks_at : nat -> list A)
    (follows_at : nat -> list Z) (user_id usr : Z) (pass : nat) (hardstop : Z)
    (error : user_page_error) (ending : page_end) :
  userPage_loop show visit fuel quacks_at follows_at user_id usr pass hardstop
                error []
  <> Some (Ok ending).
Proof.
  revert pass error.
  induction fuel as [|fuel IH]; intros pass error; [discriminate|].
  cbn [userPage_loop]. unfold userPage_pass.
  destruct (print_quacks show (quacks_at pass) (quacks_at pass) hardstop 1)
    as [[out i]|]; [|discriminate].
  cbn [read_select Ascii.eqb Bool.eqb andb]. apply IH.
Qed.

End ResultsFacts.

(** *** The theorems on seven results *)

Ltac concrete :=
  unfold count_ok, hardstop_ok; repeat split;
  first [ vm_compute; reflexivity
        | vm_compute; discriminate
        | let H := fresh in intros H; vm_compute in H; discriminate H ].

Lemma list_page_prints_last_five_witness :
  let hi := Z.min 10 (Z.of_nat (List.length example_results)) in
  (forall n row,
     In (n, row) [(3, 30); (4, 40); (5, 50); (6, 60); (7, 70)]
     <-> hi - 5 < n <= hi /\ 1 <= n
         /\ nth_error example_results (Z.to_nat (n - 1)) = Some row)
  /\ (List.length [(3, 30); (4, 40); (5, 50); (6, 60); (7, 70)] <= 5)%nat
  /\ 8 = Z.of_nat (List.length example_results) + 1.
Proof.
  apply (list_page_prints_last_five Z example_show example_results 10
           [(3, 30); (4, 40); (5, 50); (6, 60); (7, 70)] 8).
  - concrete.
  - concrete.
  - reflexivity.
Defined.

Lemma list_page_opens_printed_row_witness :
  (forall selection, open_row 3 = open_row selection ->
     exists row, 0 <= selection
                 /\ nth_error example_results (Z.to_nat selection) = Some row
                 /\ In (selection + 1, row)
                       [(3, 30); (4, 40); (5, 50); (6, 60); (7, 70)])
  /\ (forall input more row,
        ["4"%string] = input :: more ->
        positive_integer_regex input = true ->
        In (decimal 0 input, row) [(3, 30); (4, 40); (5, 50); (6, 60); (7, 70)] ->
        open_row 3 = open_row (decimal 0 input - 1) /\ [] = more).
Proof.
  apply (list_page_opens_printed_row Z example_show example_results 10
           ["4"%string] _ (open_row 3) []).
  - concrete.
  - concrete.
  - reflexivity.
Defined.

Lemma list_page_display_count_witness :
  count_ok example_results 5
  /\ forall DisplayCount lines out DisplayCount' lines',
       count_ok example_results DisplayCount ->
       display_pass example_show example_results DisplayCount lines
       = Ok (out, again DisplayCount', lines') ->
       count_ok example_results DisplayCount'
       /\ (List.length lines' < List.length lines)%nat
       /\ (DisplayCount' = DisplayCount
           \/ DisplayCount < Z.of_nat (List.length example_results)
              /\ DisplayCount' = DisplayCount + 5
           \/ 0 < DisplayCount /\ DisplayCount' = DisplayCount - 5).
Proof.
  apply (list_page_display_count Z example_show example_results).
  - concrete.
  - discriminate.
Defined.

Lemma more_and_less_undo_each_other_witness :
  (5 < Z.of_nat (List.length example_results) ->
   menu example_results 5 ["M"%string] = Ok (again (5 + 5), [])
   /\ menu example_results (5 + 5) ["L"%string; "M"%string]
      = Ok (again 5, ["M"%string]))
  /\ (0 < 5 ->
      menu example_results 5 ["L"%string] = Ok (again (5 - 5), [])
      /\ menu example_results (5 - 5) ["M"%string; "M"%string]
         = Ok (again 5, ["M"%string])).
Proof.
  apply (more_and_less_undo_each_other Z example_results 5 [] ["M"%string]).
  - concrete.
  - concrete.
Defined.

Lemma example_visit_shorter (row : Z) :
  forall lines lines',
    example_visit row lines = Some (Ok lines') ->
    (List.length lines' <= List.length lines)%nat.
Proof.
  induction lines as [|line lines IH]; intros lines' H; cbn [example_visit] in H;
    [discriminate H|].
  cbn [List.length]. destruct (String.eqb line "5").
  - injection H as <-. lia.
  - specialize (IH lines' H). lia.
Qed.

Lemma list_pages_end_witness :
  (exists e, followersPage example_show example_visit 5 example_results
                           ["M"; "9"; ""; "4"]%string = Some (Throw e))
  \/ (exists lines',
        followersPage example_show example_visit 5 example_results
                      ["M"; "9"; ""; "4"]%string = Some (Ok (returned lines')))
  \/ (followersPage example_show example_visit 5 example_results
                    ["M"; "9"; ""; "4"]%string = Some (Ok stays_in_opened_page)
      /\ exists row lines', example_visit row lines' = None).
Proof.
  refine (list_pages_end Z example_show example_visit (fun _ => example_results)
            example_results
            ("M" ++ nl ++ "9" ++ nl ++ nl ++ "4" ++ nl)%string
            ["M"; "9"; ""; "4"]%string _ _ _ _ 5%nat
            (followersPage example_show example_visit 5 example_results
                           ["M"; "9"; ""; "4"]%string) _ _).
  - concrete.
  - intros _. concrete.
  - apply example_visit_shorter.
  - vm_compute. reflexivity.
  - cbn [List.length]. lia.
  - left. reflexivity.
Defined.

(** More users, a number that is not on the screen, Enter, and then row 4:
    the page of the fourth result is opened.  It returns on the line "5",
    and [followersPage] returns with it; without that line it never returns,
    and neither does [followersPage]. *)
Example followersPage_example :
  followersPage example_show example_visit 5 example_results
                ["M"; "9"; ""; "4"; "5"; "left for the next page"]%string
  = Some (Ok (returned ["left for the next page"%string]))
  /\ followersPage example_show example_visit 5 example_results
                   ["M"; "9"; ""; "4"]%string
     = Some (Ok stays_in_opened_page).
Proof. vm_compute. split; reflexivity. Qed.

(** The bytes of an input and its lines; bytes behind the last line feed. *)
Example cin_lines_example :
  cin_lines ("M" ++ nl ++ nl ++ "4" ++ nl)%string = Some ["M"; ""; "4"]%string
  /\ cin_lines ("M" ++ nl ++ "4")%string = None
  /\ cin_lines EmptyString = Some [].
Proof. vm_compute. repeat split; reflexivity. Qed.

Lemma userPage_opens_rows_not_printed_witness :
  let top := Z.min (Z.of_nat (List.length example_results)) (6 + 1) in
  (forall lines out hardstop' error' selection lines',
     userPage_pass example_show example_results [] 1 2 6 no_error lines
     = Ok (out, call_quackPage hardstop' error' selection, lines') ->
     hardstop' = 6 /\ error' = no_error
     /\ 1 <= selection + 1 /\ top - 4 <= selection + 1 <= top
     /\ exists row, nth_error example_results (Z.to_nat selection) = Some row)
  /\ (forall out i input lines,
        print_quacks example_show example_results example_results 6 1
        = Ok (out, i) ->
        positive_integer_regex input = true ->
        decimal 0 input <= INT32_MAX ->
        userPage_pass example_show example_results [] 1 2 6 no_error
                      ("4"%string :: input :: EmptyString :: lines)
        = if (top - 4 <=? decimal 0 input) && (decimal 0 input <=? top)
          then Ok (out, call_quackPage 6 no_error (decimal 0 input - 1),
                   EmptyString :: lines)
          else Ok (out, stay 6 no_error, lines))
  /\ (forall out i n row,
        print_quacks example_show example_results example_results 6 1
        = Ok (out, i) ->
        In (n, row) out ->
        top - 4 < n <= top
        /\ (6 < Z.of_nat (List.length example_results) -> n < top)).
Proof.
  apply (userPage_opens_rows_not_printed Z example_show example_results [] 1 2 6
           no_error).
  - concrete.
  - concrete.
Defined.

(** Seven quacks and [hardstop] 6: the rows 4, 5 and 6 are on the screen;
    the numbers 3 and 7 open quacks that are not, and the number 2 is
    refused. *)
Example userPage_opens_quacks_off_screen :
  userPage_pass example_show example_results [] 1 2 6 no_error ["4"; "3"]%string
  = Ok ([(4, 40); (5, 50); (6, 60)], call_quackPage 6 no_error 2, [])
  /\ userPage_pass example_show example_results [] 1 2 6 no_error ["4"; "7"]%string
     = Ok ([(4, 40); (5, 50); (6, 60)], call_quackPage 6 no_error 6, [])
  /\ userPage_pass example_show example_results [] 1 2 6 no_error
                   ["4"; "2"; ""]%string
     = Ok ([(4, 40); (5, 50); (6, 60)], stay 6 no_error, []).
Proof. vm_compute. repeat split; reflexivity. Qed.

(** The fourth quack is opened while the first three are on the screen. *)
Example userPage_opens_fourth_quack :
  userPage_pass example_show example_results [] 1 2 3 no_error ["4"; "4"]%string
  = Ok ([(1, 10); (2, 20); (3, 30)], call_quackPage 3 no_error 3, []).
Proof. vm_compute. reflexivity. Qed.

Lemma userPage_prints_last_three_witness :
  let hi := Z.min 6 (Z.of_nat (List.length example_results)) in
  (forall n row,
     In (n, row) [(4, 40); (5, 50); (6, 60)]
     <-> hi - 3 < n <= hi /\ 1 <= n
         /\ nth_error example_results (Z.to_nat (n - 1)) = Some row)
  /\ (List.length [(4, 40); (5, 50); (6, 60)] <= 3)%nat.
Proof.
  apply (userPage_prints_last_three Z example_show example_results 6
           [(4, 40); (5, 50); (6, 60)] 8).
  - concrete.
  - concrete.
  - reflexivity.
Defined.

Lemma userPage_hardstop_witness :
  let pass := userPage_pass example_show example_results [] 1 2 6 no_error
                            ["1"%string] in
  ("1"%char = "1"%char ->
   pass = Ok ([(4, 40); (5, 50); (6, 60)],
              if 6 <? Z.of_nat (List.length example_results)
              then stay (6 + 3) no_error
              else stay 6 no_more_quacks,
              []))
  /\ ("1"%char = "2"%char ->
      pass = Ok ([(4, 40); (5, 50); (6, 60)],
                 if 6 =? 0 then stay 6 already_no_quacks
                 else stay (6 - 3) no_error,
                 []))
  /\ (forall out' step lines',
        pass = Ok (out', step, lines') ->
        match step with
        | stay hardstop' _ | call_follow hardstop'
        | call_quackPage hardstop' _ _ =>
            hardstop_ok hardstop'
            /\ hardstop' < Z.of_nat (List.length example_results) + 3
            /\ ("1"%char <> "1"%char -> "1"%char <> "2"%char -> hardstop' = 6)
        | page_return => "1"%char = "5"%char
        end).
Proof.
  apply (userPage_hardstop Z example_show example_results [] 1 2 6 no_error
           ["1"%string] [(4, 40); (5, 50); (6, 60)] 8 "1"%char []).
  - concrete.
  - concrete.
  - concrete.
  - reflexivity.
  - reflexivity.
Defined.

(** Seven quacks: "see more" goes from 6 to 9 and stops there; "see less"
    goes from 3 to 0 and stops there. *)
Example userPage_hardstop_steps :
  userPage_pass example_show example_results [] 1 2 6 no_error ["1"%string]
  = Ok ([(4, 40); (5, 50); (6, 60)], stay 9 no_error, [])
  /\ userPage_pass example_show example_results [] 1 2 9 no_error ["1"%string]
     = Ok ([(5, 50); (6, 60); (7, 70)], stay 9 no_more_quacks, [])
  /\ userPage_pass example_show example_results [] 1 2 3 no_error ["2"%string]
     = Ok ([(1, 10); (2, 20); (3, 30)], stay 0 no_error, [])
  /\ userPage_pass example_show example_results [] 1 2 0 no_error ["2"%string]
     = Ok ([], stay 0 already_no_quacks, []).
Proof. vm_compute. repeat split; reflexivity. Qed.

Lemma userPage_follow_check_witness :
  exists step,
    userPage_pass example_show example_results [] 2 2 3 no_error ["3"%string]
    = Ok ([(1, 10); (2, 20); (3, 30)], step, press_enter [])
    /\ (step = call_follow 3 \/ step = stay 3 no_error)
    /\ (step = call_follow 3
        <-> @nil Z = [] \/ (~ In 2 (@nil Z) /\ 2 <> 2)).
Proof.
  apply (userPage_follow_check Z example_show example_results [] 2 2 3 no_error []
           [(1, 10); (2, 20); (3, 30)] 5).
  reflexivity.
Defined.

(** A viewer who follows nobody, on their own page. *)
Example userPage_follows_oneself :
  userPage_pass example_show example_results [] 2 2 3 no_error ["3"; ""]%string
  = Ok ([(1, 10); (2, 20); (3, 30)], call_follow 3, []).
Proof. vm_compute. reflexivity. Qed.

End PagesFacts.

(* ================================================================= *)
(** ** The rows of quacks, and the identifier read back from a row *)

Module RowsFacts.

Import Pagination Pages Rows.

Lemma digit_char_digit (d : Z) :
  0 <= d <= 9 ->
  is_digit (Clock.digit_char d) = true /\ digit_value (Clock.digit_char d) = d.
Proof.
  intros Hd. unfold is_digit, digit_value, Clock.digit_char. cbv zeta.
  rewrite nat_ascii_embedding by lia.
  split; [|lia].
  apply andb_true_iff. split; apply Nat.leb_le; lia.
Qed.

Lemma all_digits_app (a b : string) :
  all_digits (a ++ b)%string = all_digits a && all_digits b.
Proof.
  induction a as [|c a IH]; cbn [append all_digits]; [reflexivity|].
  now rewrite IH, andb_assoc.
Qed.

Lemma decimal_app (a b : string) :
  forall acc, decimal acc (a ++ b)%string = decimal (decimal acc a) b.
Proof. induction a as [|c a IH]; intros acc; cbn [append decimal]; [reflexivity|apply IH]. Qed.

(** The decimal notation is read back. *)
Lemma decimal_string_eq (fuel : nat) (n : Z) :
  Clock.decimal_string (S fuel) n
  = if n <? 10 then String (Clock.digit_char n) EmptyString
    else (Clock.decimal_string fuel (n / 10)
          ++ String (Clock.digit_char (n mod 10)) EmptyString)%string.
Proof. reflexivity. Qed.

Lemma decimal_string_read (fuel : nat) :
  forall n, 0 <= n < 10 ^ Z.of_nat (S fuel) ->
    all_digits (Clock.decimal_string (S fuel) n) = true
    /\ decimal 0 (Clock.decimal_string (S fuel) n) = n
    /\ (1 <= String.length (Clock.decimal_string (S fuel) n))%nat.
Proof.
  induction fuel as [|fuel IH]; intros n Hn;
    rewrite decimal_string_eq; destruct (Z.ltb_spec n 10) as [Hone|Hmore];
    try (destruct (digit_char_digit n ltac:(lia)) as [Hd Hv];
         cbn [all_digits decimal String.length]; rewrite Hd, Hv;
         repeat split; lia).
  - change (10 ^ Z.of_nat 1) with 10 in Hn. lia.
  - rewrite Nat2Z.inj_succ, Z.pow_succ_r in Hn by lia.
    destruct (IH (n / 10)) as (Hall & Hdec & Hlen).
    { split; [apply Z.div_pos; lia|].
      apply Z.div_lt_upper_bound; lia. }
    destruct (digit_char_digit (n mod 10)
                ltac:(pose proof (Z.mod_pos_bound n 10 ltac:(lia)); lia))
      as [Hd Hv].
    rewrite all_digits_app, decimal_app, Hall, Hdec.
    cbn [all_digits decimal]. rewrite Hd, Hv.
    rewrite ClockFacts.length_append. cbn [String.length].
    repeat split; try lia.
    pose proof (Z.div_mod n 10 ltac:(lia)). lia.
Qed.

Lemma length_decimal_string (fuel : nat) (n : Z) :
  (1 <= String.length (Clock.decimal_string (S fuel) n))%nat.
Proof.
  cbn [Clock.decimal_string]. destruct (n <? 10); cbn [String.length]; [lia|].
  rewrite ClockFacts.length_append. cbn [String.length]. lia.
Qed.

Lemma length_int_to_string (n : Z) : (1 <= String.length (int_to_string n))%nat.
Proof.
  unfold int_to_string. destruct (n <? 0).
  - cbn [String.length]. lia.
  - apply length_decimal_string.
Qed.

Lemma take_digits_app (d rest : string) :
  all_digits d = true -> no_digit_ahead rest ->
  take_digits (d ++ rest)%string = d.
Proof.
  induction d as [|c d IH]; cbn [append all_digits take_digits]; intros Hd Hrest.
  - destruct rest as [|c rest]; [reflexivity|]. cbn [take_digits].
    cbn [no_digit_ahead] in Hrest. now rewrite Hrest.
  - apply andb_true_iff in Hd. destruct Hd as [Hc Hd].
    rewrite Hc. now rewrite IH.
Qed.

Lemma prefix_app (p s : string) : String.prefix p (p ++ s)%string = true.
Proof.
  induction p as [|a p IH]; cbn [append String.prefix]; [now destruct s|].
  destruct (ascii_dec a a) as [_|Hne]; [exact IH|contradiction].
Qed.

Lemma length_skip_spaces (s : string) :
  (String.length (skip_spaces s) <= String.length s)%nat.
Proof.
  induction s as [|c s IH]; cbn [skip_spaces String.length]; [lia|].
  destruct (is_space c); cbn [String.length]; lia.
Qed.

Lemma length_decimal_string_le (fuel : nat) :
  forall n, (String.length (Clock.decimal_string fuel n) <= fuel)%nat.
Proof.
  induction fuel as [|fuel IH]; intros n; [cbn; lia|].
  rewrite decimal_string_eq. destruct (n <? 10).
  - cbn [String.length]. lia.
  - rewrite ClockFacts.length_append. cbn [String.length].
    specialize (IH (n / 10)). lia.
Qed.

(** An identifier in decimal after "Quack Id: " is read back. *)
Lemma extractQuackID_decimal (id : Z) (ws rest : string) :
  0 <= id <= INT32_MAX ->
  Input.white (list_ascii_of_string ws) ->
  no_digit_ahead rest ->
  extractQuackID ("Quack Id: " ++ ws ++ int_to_string id ++ rest)%string = Ok id.
Proof.
  intros Hid Hws Hrest.
  assert (Hfuel : 0 <= id < 10 ^ Z.of_nat 10)
    by (change (10 ^ Z.of_nat 10) with 10000000000; in32).
  destruct (decimal_string_read 9 id Hfuel) as (Hall & Hdec & Hlen).
  unfold int_to_string. destruct (Z.ltb_spec id 0); [lia|].
  set (digits := Clock.decimal_string 10 id) in *.
  unfold extractQuackID. rewrite prefix_app. unfold match_quack_id.
  cbn [append strip_prefix Ascii.eqb Bool.eqb andb].
  cbv zeta.
  change (skip_spaces (String " " (ws ++ digits ++ rest)%string))
    with (skip_spaces (ws ++ digits ++ rest)%string).
  rewrite (InputFacts.skip_spaces_white ws _ Hws).
  assert (Hskip : skip_spaces (digits ++ rest)%string = (digits ++ rest)%string).
  { destruct digits as [|c digits']; [cbn in Hlen; lia|].
    cbn [all_digits] in Hall. apply andb_true_iff in Hall.
    destruct Hall as [Hc _]. cbn [append skip_spaces].
    now rewrite (InputFacts.is_digit_not_space c Hc). }
  rewrite Hskip.
  assert (Hshort : (String.length (digits ++ rest)%string
                    <? String.length (String " " (ws ++ digits ++ rest)%string))%nat
                   = true).
  { apply Nat.ltb_lt. cbn [String.length].
    rewrite (ClockFacts.length_append ws). lia. }
  rewrite Hshort, (take_digits_app digits rest Hall Hrest).
  destruct digits as [|c digits'] eqn:Hdigits; [cbn in Hlen; lia|].
  unfold stoi. cbv zeta. rewrite Hdec, Z.gtb_ltb.
  destruct (Z.ltb_spec INT32_MAX id); [lia|reflexivity].
Qed.

(** X29: [extractQuackID] reads back the decimal notation of an
    identifier.  It returns -1 or a number from 0 to [INT32_MAX], or leaves
    through the [std::out_of_range] of [std::stoi]; for every identifier from
    0 to [INT32_MAX] it returns the identifier from a string that starts with
    "Quack Id: ", any further white space, and the identifier in decimal,
    whatever follows that is not a digit; and a string that starts as the rows
    of the result pages do, with "Quack ID: ", gives -1. *)
Theorem extractQuackID_reads_decimal :
  (forall quackString,
     match extractQuackID quackString with
     | Ok id => id = -1 \/ 0 <= id <= INT32_MAX
     | Throw e => e = out_of_range
     end)
  /\ (forall id ws rest,
        0 <= id <= INT32_MAX ->
        Input.white (list_ascii_of_string ws) ->
        no_digit_ahead rest ->
        extractQuackID ("Quack Id: " ++ ws ++ int_to_string id ++ rest)%string
        = Ok id)
  /\ (forall rest, extractQuackID ("Quack ID: " ++ rest)%string = Ok (-1)).
Proof.
  split; [|split].
  - intros quackString. unfold extractQuackID.
    destruct (String.prefix "Quack Id: " quackString); [|now left].
    unfold match_quack_id.
    destruct (strip_prefix "Quack Id:" quackString) as [rest|]; [|now left].
    cbv zeta.
    destruct (String.length (skip_spaces rest) <? String.length rest)%nat;
      [|now left].
    pose proof (InputFacts.take_digits_all_digits (skip_spaces rest)) as Hall.
    destruct (take_digits (skip_spaces rest)) as [|c digits] eqn:Hd; [now left|].
    pose proof (InputFacts.decimal_lt _ Hall) as Hlt.
    unfold stoi. cbv zeta. rewrite Z.gtb_ltb.
    destruct (Z.ltb_spec INT32_MAX (decimal 0 (String c digits)));
      [reflexivity|right; lia].
  - intros id ws rest. apply extractQuackID_decimal.
  - intros rest. reflexivity.
Qed.

Example extractQuackID_examples :
  extractQuackID "Quack Id: 42, Author: ann" = Ok 42
  /\ extractQuackID "Quack Id:   7" = Ok 7
  /\ extractQuackID "Quack Id: -7" = Ok (-1)
  /\ extractQuackID "Quack ID: 42, Author: ann" = Ok (-1)
  /\ extractQuackID "Quack Id: 2147483648" = Throw out_of_range.
Proof. repeat split; vm_compute; reflexivity. Qed.

(** *** Long names *)

Lemma length_quack_header (users : list Accounts.users_row) (prepared : bool)
    (number : Z) (quack : Quack) :
  (24 + String.length (author users prepared quack)
   <= String.length (quack_header users prepared number quack))%nat.
Proof.
  unfold quack_header. rewrite !ClockFacts.length_append.
  pose proof (length_int_to_string number).
  pose proof (length_int_to_string (tid quack)).
  change (String.length ".") with 1%nat.
  change (String.length nl) with 1%nat.
  change (String.length "Quack ID: ") with 10%nat.
  change (String.length ", Author: ") with 10%nat.
  lia.
Qed.

Lemma show_quack_throws (users : list Accounts.users_row) (prepared : bool)
    (number : Z) (quack : Quack) (e : exn) :
  show_quack users prepared number quack = Throw e -> e = length_error.
Proof.
  unfold show_quack. cbv zeta.
  destruct (69 <? String.length (quack_header users prepared number quack))%nat;
    [|discriminate]. now intros [= <-].
Qed.

(** X30: a long name ends the page.  When one of the quacks a pass of
    [searchQuacksPage] is to print has an author whose name, as
    [getUsername] returns it, is longer than 45 bytes, the pass prints no
    prompt: it leaves through [std::length_error], whatever the number and the
    identifier of the quack. *)
Theorem long_author_name_ends_the_page (users : list Accounts.users_row)
    (prepared : bool) (results : list Quack) (DisplayCount : Z)
    (lines : list string) (n : Z) (quack : Quack) :
  Z.of_nat (List.length results) < INT32_MAX ->
  0 <= DisplayCount <= INT32_MAX ->
  Z.min DisplayCount (Z.of_nat (List.length results)) - 5 < n
    <= Z.min DisplayCount (Z.of_nat (List.length results)) ->
  1 <= n ->
  nth_error results (Z.to_nat (n - 1)) = Some quack ->
  (45 < String.length (author users prepared quack))%nat ->
  display_pass (show_quack users prepared) results DisplayCount lines
  = Throw length_error.
Proof.
  intros Hsize Hc Hwin Hn Hrow Hlong. unfold display_pass.
  destruct (print_rows (show_quack users prepared) results results DisplayCount 1)
    as [[out i]|e] eqn:Hp.
  - exfalso.
    destruct (PagesFacts.print_rows_window Quack (show_quack users prepared)
                results DisplayCount out i Hsize Hc Hp) as [Hout _].
    assert (Hin : In (n, quack) out).
    { rewrite Hout.
      apply (PagesFacts.in_rows_between Quack (show_quack users prepared)).
      assert (Hsome : nth_error results (Z.to_nat (n - 1)) <> None) by congruence.
      apply nth_error_Some in Hsome. repeat split; try lia. exact Hrow. }
    destruct (PagesFacts.print_rows_shown Quack (show_quack users prepared)
                results DisplayCount results 1 out i Hp n quack Hin) as [s Hs].
    unfold show_quack in Hs. cbv zeta in Hs.
    pose proof (length_quack_header users prepared n quack) as Hlen.
    destruct (Nat.ltb_spec 69 (String.length (quack_header users prepared n quack)));
      [discriminate Hs|lia].
  - f_equal.
    apply (PagesFacts.print_rows_throws Quack (show_quack users prepared)
             results DisplayCount length_error
             (show_quack_throws users prepared) results 1 e Hp).
Qed.

Lemma long_author_name_ends_the_page_witness :
  display_pass (show_quack example_names true) example_quacks 5 []
  = Throw length_error.
Proof.
  apply (long_author_name_ends_the_page example_names true example_quacks 5 []
           2 (mk_Quack 8 3 "2024-11-04" "08:00:00" "a second quack")).
  - vm_compute. reflexivity.
  - split; vm_compute; discriminate.
  - split; [vm_compute; reflexivity|vm_compute; discriminate].
  - vm_compute. discriminate.
  - reflexivity.
  - vm_compute. lia.
Defined.

(** The same page with the first quack alone is printed. *)
Example short_author_name_is_printed :
  exists out o lines',
    display_pass (show_quack example_names true) (firstn 1 example_quacks) 5 []
    = Ok (out, o, lines').
Proof. vm_compute. now eexists _, _, _. Qed.

End RowsFacts.

(* ================================================================= *)
(** ** The selection prompt of Quacker::mainPage on the feed of Pond::getFeed *)

Module MainPageFacts.

Import Feed Pagination Rows MainPage.

(** A name that does not start with "Quack Id:" keeps the display string
    from starting with "Quack Id: ", whatever the padding adds. *)
Lemma padded_name_prefix (head tail : string) :
  String.prefix "Quack Id:" head = false ->
  String.prefix "Quack Id: " (head ++ spaces (80 - String.length head) ++ tail)
  = false.
Proof.
  do 9 (destruct head as [|? head];
        [intros _; vm_compute; reflexivity|];
        cbn [String.prefix append];
        destruct (ascii_dec _ _) as [_|_]; [|reflexivity]).
  destruct head; intros H; discriminate H.
Qed.

Lemma format_row_shape (e : feed_row) (s : string) :
  format_row e = Ok s ->
  (String.length (or_unknown (row_name e)) <= 80)%nat
  /\ s = (or_unknown (row_name e)
          ++ spaces (80 - String.length (or_unknown (row_name e)))
          ++ or_unknown (row_date e) ++ " " ++ or_unknown (row_time e)
          ++ nl ++ nl ++ or_empty (row_text e) ++ nl)%string.
Proof.
  unfold format_row. cbv zeta.
  destruct (Nat.ltb_spec 80 (String.length (or_unknown (row_name e))));
    [discriminate|].
  intros Heq. injection Heq as <-. split; [assumption|reflexivity].
Qed.

(** A row under an ordinary name gives no identifier. *)
Lemma format_row_no_quack_id (e : feed_row) (s : string) :
  format_row e = Ok s ->
  String.prefix "Quack Id:" (or_unknown (row_name e)) = false ->
  extractQuackID s = Ok (-1).
Proof.
  intros Hs Hname. destruct (format_row_shape e s Hs) as [_ ->].
  unfold extractQuackID. now rewrite padded_name_prefix.
Qed.

Lemma append_assoc (a b c : string) : ((a ++ b) ++ c = a ++ b ++ c)%string.
Proof. induction a as [|x a IH]; cbn [append]; [reflexivity|now rewrite IH]. Qed.

(** A row under the name "Quack Id: n" gives the identifier [n]. *)
Lemma format_row_quack_id (e : feed_row) (s : string) (n : Z) :
  format_row e = Ok s -> 0 <= n <= INT32_MAX ->
  or_unknown (row_name e) = ("Quack Id: " ++ int_to_string n)%string ->
  extractQuackID s = Ok n.
Proof.
  intros Hs Hn Hname. destruct (format_row_shape e s Hs) as [_ ->].
  rewrite Hname.
  assert (Hlen : (String.length ("Quack Id: " ++ int_to_string n)%string <= 20)%nat).
  { rewrite ClockFacts.length_append. unfold int_to_string.
    destruct (Z.ltb_spec n 0); [lia|].
    pose proof (RowsFacts.length_decimal_string_le 10 n).
    cbn [String.length]. lia. }
  destruct (80 - String.length ("Quack Id: " ++ int_to_string n)%string)%nat
    as [|k] eqn:Hk; [lia|].
  rewrite append_assoc.
  apply (RowsFacts.extractQuackID_decimal n EmptyString); [exact Hn|constructor|].
  cbn [spaces append no_digit_ahead]. reflexivity.
Qed.

(** The strings of the feed are the rows of the statement, one for one. *)
Lemma format_rows_nth (rows : list feed_row) :
  forall feed k s,
    format_rows rows = Ok feed -> nth_error feed k = Some s ->
    exists e, nth_error rows k = Some e /\ format_row e = Ok s.
Proof.
  induction rows as [|e rows IH]; intros feed k s Hfeed Hs; cbn [format_rows] in Hfeed.
  - injection Hfeed as <-. destruct k; discriminate Hs.
  - destruct (format_row e) as [s0|x] eqn:He; [|discriminate Hfeed].
    destruct (format_rows rows) as [feed0|x] eqn:Hrows; [|discriminate Hfeed].
    cbn [bind] in Hfeed. injection Hfeed as <-.
    destruct k as [|k]; cbn [nth_error] in Hs |- *.
    + injection Hs as <-. exists e. now split.
    + now apply (IH feed0 k s).
Qed.

Lemma format_rows_in (rows : list feed_row) :
  forall feed s,
    format_rows rows = Ok feed -> In s feed ->
    exists e, In e rows /\ format_row e = Ok s.
Proof.
  intros feed s Hfeed Hs. apply In_nth_error in Hs. destruct Hs as [k Hk].
  destruct (format_rows_nth rows feed k s Hfeed Hk) as [e [He Hrow]].
  exists e. split; [now apply nth_error_In in He|exact Hrow].
Qed.

Lemma stoi_decimal (input : string) :
  decimal 0 input <= INT32_MAX -> stoi input = Ok (decimal 0 input).
Proof.
  intros H. unfold stoi. cbv zeta. rewrite Z.gtb_ltb.
  destruct (Z.ltb_spec INT32_MAX (decimal 0 input)); [lia|reflexivity].
Qed.

Lemma stoi_out_of_range (input : string) :
  INT32_MAX < decimal 0 input -> stoi input = Throw out_of_range.
Proof.
  intros H. unfold stoi. cbv zeta. rewrite Z.gtb_ltb.
  destruct (Z.ltb_spec INT32_MAX (decimal 0 input)); [reflexivity|lia].
Qed.

(** C1: the row number typed on [mainPage] does not lead to the quack of the
    row.  For the feed [getFeed] returns: when no author's name starts with
    "Quack Id:", [processFeed] returns a view; and for every view it returns,
    - the row printed under the number typed is the row of the statement at
      that position, but the quack that is opened is the one with the
      identifier [extractQuackID] read off the display string, which starts
      with the author's name: -1 unless that name starts with "Quack Id:",
      and [n] for the name "Quack Id: n", whatever the [tid] of the row;
    - a number up to [INT32_MAX] that is not the number of a printed row is
      answered with "Input Is Invalid";
    - a number above [INT32_MAX] is not: [std::stoi] throws
      [std::out_of_range], which nothing in [mainPage] catches;
    - an input that is not a positive number is answered with "Input Is
      Invalid". *)
Theorem feed_selection_ignores_the_row
    (db : database) (user_id : Z) (feed : list string)
    (FeedDisplayCount : Z) (error : string) :
  getFeed db true user_id = Ok feed ->
  fits_int32 feed -> in_range FeedDisplayCount ->
  ((forall e, In e (feed_rows db user_id) ->
      String.prefix "Quack Id:" (or_unknown (row_name e)) = false) ->
   exists v, processFeed feed FeedDisplayCount error = Ok v)
  /\ forall v, processFeed feed FeedDisplayCount error = Ok v ->
       (forall input s,
          positive_integer_regex input = true ->
          In (decimal 0 input, s) (out_oss v) ->
          exists e id,
            nth_error (feed_rows db user_id) (Z.to_nat (decimal 0 input - 1))
            = Some e
            /\ format_row e = Ok s
            /\ select_from_feed v input = Ok (open_quack id)
            /\ (String.prefix "Quack Id:" (or_unknown (row_name e)) = false ->
                id = -1)
            /\ (forall n, 0 <= n <= INT32_MAX ->
                  or_unknown (row_name e) = ("Quack Id: " ++ int_to_string n)%string ->
                  id = n))
       /\ (forall input,
             positive_integer_regex input = true ->
             decimal 0 input <= INT32_MAX ->
             (forall s, ~ In (decimal 0 input, s) (out_oss v)) ->
             select_from_feed v input = Ok input_is_invalid)
       /\ (forall input,
             positive_integer_regex input = true ->
             INT32_MAX < decimal 0 input ->
             select_from_feed v input = Throw out_of_range)
       /\ (forall input,
             input <> EmptyString -> positive_integer_regex input = false ->
             select_from_feed v input = Ok input_is_invalid).
Proof.
  intros Hfeed Hfit Hr. unfold getFeed in Hfeed. split.
  - intros Hnames. apply PaginationFacts.processFeed_returns; try assumption.
    unfold ids_readable. apply Forall_forall. intros s Hs.
    destruct (format_rows_in _ _ s Hfeed Hs) as [e [He Hrow]].
    exists (-1). apply (format_row_no_quack_id e s Hrow). now apply Hnames.
  - intros v Hv.
    destruct (PaginationFacts.selection_reads_printed_string
                feed FeedDisplayCount error v Hfit Hr Hv)
      as (Hnum & Hother & _ & _).
    split; [|split; [|split]].
    + intros input s Hre Hin.
      assert (Hmax : decimal 0 input <= INT32_MAX).
      { destruct (PaginationFacts.view_shape feed FeedDisplayCount error v
                    Hfit Hr Hv) as (b & Hb & _ & _ & Hoss & _).
        rewrite Hoss in Hin. apply PaginationFacts.in_blocks_between in Hin.
        unfold fits_int32 in Hfit. lia. }
      destruct (Hnum input _ Hre (stoi_decimal input Hmax)) as [Hrow _].
      destruct (Hrow s Hin) as (Hnth & id & Hid & Hopen).
      destruct (format_rows_nth _ _ _ s Hfeed Hnth) as (e & He & Hs).
      exists e, id. split; [exact He|]. split; [exact Hs|].
      split; [exact Hopen|]. split.
      * intros Hname. rewrite (format_row_no_quack_id e s Hs Hname) in Hid.
        now injection Hid.
      * intros n Hn Hname.
        rewrite (format_row_quack_id e s n Hs Hn Hname) in Hid.
        now injection Hid.
    + intros input Hre Hmax Hno.
      destruct (Hnum input _ Hre (stoi_decimal input Hmax)) as [_ Hinv].
      now apply Hinv.
    + intros input Hre Hmax. unfold select_from_feed.
      destruct input as [|c rest]; [discriminate Hre|].
      rewrite Hre, (stoi_out_of_range _ Hmax). reflexivity.
    + exact Hother.
Qed.

Lemma feed_selection_ignores_the_row_witness :
  ((forall e, In e (feed_rows example_two_quacks 30) ->
      String.prefix "Quack Id:" (or_unknown (row_name e)) = false) ->
   exists v, processFeed example_pond_feed 5 EmptyString = Ok v)
  /\ forall v, processFeed example_pond_feed 5 EmptyString = Ok v ->
       (forall input s,
          positive_integer_regex input = true ->
          In (decimal 0 input, s) (out_oss v) ->
          exists e id,
            nth_error (feed_rows example_two_quacks 30)
                      (Z.to_nat (decimal 0 input - 1))
            = Some e
            /\ format_row e = Ok s
            /\ select_from_feed v input = Ok (open_quack id)
            /\ (String.prefix "Quack Id:" (or_unknown (row_name e)) = false ->
                id = -1)
            /\ (forall n, 0 <= n <= INT32_MAX ->
                  or_unknown (row_name e) = ("Quack Id: " ++ int_to_string n)%string ->
                  id = n))
       /\ (forall input,
             positive_integer_regex input = true ->
             decimal 0 input <= INT32_MAX ->
             (forall s, ~ In (decimal 0 input, s) (out_oss v)) ->
             select_from_feed v input = Ok input_is_invalid)
       /\ (forall input,
             positive_integer_regex input = true ->
             INT32_MAX < decimal 0 input ->
             select_from_feed v input = Throw out_of_range)
       /\ (forall input,
             input <> EmptyString -> positive_integer_regex input = false ->
             select_from_feed v input = Ok input_is_invalid).
Proof.
  apply (feed_selection_ignores_the_row example_two_quacks 30 example_pond_feed
           5 EmptyString).
  - vm_compute. reflexivity.
  - unfold fits_int32, INT32_MAX. simpl. lia.
  - unfold in_range, INT32_MIN, INT32_MAX. lia.
Defined.

(** Cat's feed shows bob's quack 6 in row 1 and ann's quack 5 in row 2.
    Typing 1 and typing 2 both open the quack with the identifier -1; typing
    2147483648 ends the page through [std::out_of_range]. *)
Example selection_on_example_pond_feed :
  map row_tid (feed_rows example_two_quacks 30) = [6; 5]
  /\ match processFeed example_pond_feed 5 EmptyString with
     | Ok v =>
         map fst (out_oss v) = [1; 2]
         /\ select_from_feed v "1" = Ok (open_quack (-1))
         /\ select_from_feed v "2" = Ok (open_quack (-1))
         /\ select_from_feed v "3" = Ok input_is_invalid
         /\ select_from_feed v "2147483648" = Throw out_of_range
     | Throw _ => False
     end.
Proof. vm_compute. repeat split; reflexivity. Qed.

(** Had bob signed up as "Quack Id: 5", the row of his quack 6 opens
    quack 5. *)
Example selection_on_name_like_a_row :
  match getFeed example_named_like_a_row true 30 with
  | Ok feed =>
      match processFeed feed 5 EmptyString with
      | Ok v => map row_tid (feed_rows example_named_like_a_row 30) = [6; 5]
                /\ select_from_feed v "1" = Ok (open_quack 5)
      | Throw _ => False
      end
  | Throw _ => False
  end.
Proof. vm_compute. split; reflexivity. Qed.

End MainPageFacts.
